(** * keepalived signals framework (lib/signals.c)

    A shallow embedding of the signal dispatch subsystem: the registration
    table, the self-pipe, the remembered dispositions and the lifecycle
    operations, over an explicit model of the part of the operating system
    the code talks to (signal dispositions, the signal mask, descriptors and
    pipes).

    Conventions.
    - [int] values are [Z]; no arithmetic of the file can overflow.
    - Function pointers are values of [fptr]; [SIG_DFL] is the null pointer,
      as in C, where [SIG_DFL] is the null pointer constant cast to a handler.
    - Context pointers are addresses in [Z], null is [0].
    - The build modelled is the production one ([NDEBUG] defined, so
      [assert] expands to nothing and [DBG] prints nothing).
    - Callbacks are code of the application; running one is recorded as a
      [Call] event on the trace, and it is assumed not to re-enter the
      subsystem.
    - The C library accepts only some signal numbers in [sigaddset],
      [sigdelset] and [sigaction] ([libc_accepts]); [sigfillset] gives the
      accepted ones, and the kernel never blocks SIGKILL or SIGSTOP.
      [sigismember] is set membership: the file asks it only about the
      numbers 1 to [SIGRTMAX]. *)

From stdpp Require Import base numbers option list list_numbers strings gmap sets.

Local Open Scope Z_scope.

(** ** Constants of the platform and of the build configuration *)

Class Platform := {
  (** [_WITH_JSON_] *)
  WITH_JSON : bool;
  (** [_NSIG] and [__SIGRTMAX], when the C library defines them *)
  macro_NSIG : option Z;
  macro_SIGRTMAX : option Z;
  (** [SIGRTMAX], the run-time upper bound of the realtime signals *)
  SIGRTMAX : Z;
  SIGHUP : Z;
  SIGINT : Z;
  SIGILL : Z;
  SIGBUS : Z;
  SIGFPE : Z;
  SIGKILL : Z;
  SIGUSR1 : Z;
  SIGSEGV : Z;
  SIGUSR2 : Z;
  SIGTERM : Z;
  SIGCHLD : Z;
  SIGSTOP : Z;
  (** [SIGJSON], declared in vrrp_json.h; read only when [WITH_JSON] *)
  SIGJSON : Z;
  SA_RESTART : Z;
  SA_SIGINFO : Z;
  (** [HAVE_PIPE2] *)
  HAVE_PIPE2 : bool;
  (** the signal numbers the C library accepts in [sigaddset], [sigdelset]
      and [sigaction]; for the others these calls return -1 and do nothing *)
  libc_accepts : Z → bool;
}.

(** Linux on x86 with the GNU C library, built without and with JSON
    support.  The library accepts the numbers 1 to [_NSIG - 1] = 64 except
    32 and 33, which it keeps for its own use. *)
Definition linux (json : bool) : Platform := {|
  WITH_JSON := json;
  macro_NSIG := Some 65;
  macro_SIGRTMAX := Some 64;
  SIGRTMAX := 64;
  SIGHUP := 1;
  SIGINT := 2;
  SIGILL := 4;
  SIGBUS := 7;
  SIGFPE := 8;
  SIGKILL := 9;
  SIGUSR1 := 10;
  SIGSEGV := 11;
  SIGUSR2 := 12;
  SIGTERM := 15;
  SIGCHLD := 17;
  SIGSTOP := 19;
  SIGJSON := 36;
  SA_RESTART := 268435456;
  SA_SIGINFO := 4;
  HAVE_PIPE2 := true;
  libc_accepts := λ sig, (1 <=? sig) && (sig <? 65) && negb ((sig =? 32) || (sig =? 33));
|}.

(** ** Pointers, events *)

Inductive fptr :=
  | SIG_DFL                (* address 0, also the null function pointer *)
  | SIG_IGN                (* address 1 *)
  | SIG_ERR                (* address -1 *)
  | Fn_signal_handler      (* address of the static trampoline *)
  | Fn (a : positive).     (* address of a function of the application *)

#[global] Instance fptr_eq_dec : EqDecision fptr.
Proof. solve_decision. Defined.

Definition NULL : fptr := SIG_DFL.

Abbreviation vptr := Z.

Definition NULLV : vptr := 0.

Inductive event :=
  | Log_invalid_signo (signo max : Z)   (* "Invalid signal number ..." *)
  | Log_write_bug                       (* "BUG - write to signal_pipe[1] error" *)
  | Log_pipe_bug                        (* "BUG - pipe in signal_handler_init failed" *)
  | Call (f : fptr) (v : vptr) (sig : Z).

#[global] Instance event_eq_dec : EqDecision event.
Proof. solve_decision. Defined.

(** ** The operating system *)

(** [struct sigaction]; [sa_mask] is empty in every action the file
    installs and is left out. *)
Record sigaction_t := {
  sa_handler : fptr;
  sa_flags : Z;
}.

#[global] Instance sigaction_t_eq_dec : EqDecision sigaction_t.
Proof. solve_decision. Defined.

(** [sa_sigaction] and [sa_handler] are the two members of one union. *)
Abbreviation sa_sigaction := sa_handler.

Inductive fobj :=
  | PipeRd (p : nat)
  | PipeWr (p : nat)
  | OtherFile.

#[global] Instance fobj_eq_dec : EqDecision fobj.
Proof. solve_decision. Defined.

Record fd_entry := {
  fd_obj : fobj;
  fd_nonblock : bool;
  fd_cloexec : bool;
}.

#[global] Instance fd_entry_eq_dec : EqDecision fd_entry.
Proof. solve_decision. Defined.

Record os_state := {
  (** disposition of each signal the C library lets the process handle; a
      signal without an entry has the default action *)
  os_disp : gmap Z sigaction_t;
  (** blocked signals of the process *)
  os_mask : gset Z;
  (** signal numbers for which the kernel (or a system call filter)
      refuses to change the disposition: sigaction with a new action
      returns -1 for them *)
  os_refused : gset Z;
  (** descriptor table, indexed by descriptor *)
  os_fds : list (option fd_entry);
  (** descriptors must stay below this limit *)
  os_fd_limit : nat;
  (** buffer of each pipe, oldest record first; a record is one [int] *)
  os_pipes : list (list Z);
  (** number of records a pipe holds *)
  os_pipe_cap : Z;
}.

Definition set_os_disp (d : gmap Z sigaction_t) (o : os_state) : os_state :=
  {| os_disp := d; os_mask := os_mask o; os_refused := os_refused o;
     os_fds := os_fds o; os_fd_limit := os_fd_limit o;
     os_pipes := os_pipes o; os_pipe_cap := os_pipe_cap o |}.

Definition set_os_mask (m : gset Z) (o : os_state) : os_state :=
  {| os_disp := os_disp o; os_mask := m; os_refused := os_refused o;
     os_fds := os_fds o; os_fd_limit := os_fd_limit o;
     os_pipes := os_pipes o; os_pipe_cap := os_pipe_cap o |}.

Definition set_os_fds (f : list (option fd_entry)) (o : os_state) : os_state :=
  {| os_disp := os_disp o; os_mask := os_mask o; os_refused := os_refused o;
     os_fds := f; os_fd_limit := os_fd_limit o;
     os_pipes := os_pipes o; os_pipe_cap := os_pipe_cap o |}.

Definition set_os_pipes (p : list (list Z)) (o : os_state) : os_state :=
  {| os_disp := os_disp o; os_mask := os_mask o; os_refused := os_refused o;
     os_fds := os_fds o; os_fd_limit := os_fd_limit o;
     os_pipes := p; os_pipe_cap := os_pipe_cap o |}.

Definition dfl_action : sigaction_t := {| sa_handler := SIG_DFL; sa_flags := 0 |}.

(** The action of a signal as the process sees and sets it.  A number the
    C library does not accept is out of the reach of the process, which can
    neither ask for its action nor change it: it is given the default
    action. *)
Definition disposition `{Platform} (o : os_state) (signo : Z) : sigaction_t :=
  if libc_accepts signo then default dfl_action (os_disp o !! signo) else dfl_action.

(** [sigaction(signo, act, oact)]: the result, the old action, the new
    system state.  The library rejects the numbers it does not accept; a
    call that only asks ([act] null) succeeds for the others, a call that
    sets an action fails when the kernel refuses.  (A call that fails does
    not write [oact]; the file reads [oact] only after calls on members of
    a set made by [sigfillset].) *)
Definition sys_sigaction `{Platform} (signo : Z) (act : option sigaction_t)
    (o : os_state) : Z * sigaction_t * os_state :=
  if negb (libc_accepts signo) then (-1, disposition o signo, o)
  else
    match act with
    | None => (0, disposition o signo, o)
    | Some a =>
        if decide (signo ∈ os_refused o) then (-1, disposition o signo, o)
        else (0, disposition o signo, set_os_disp (<[signo := a]> (os_disp o)) o)
    end.

(** *** Signal sets of the C library *)

Definition sigemptyset : gset Z := ∅.

(** [sigaddset(&set, signo)]: -1 and the set unchanged for a number the
    library does not accept. *)
Definition sigaddset `{Platform} (set : gset Z) (signo : Z) : gset Z :=
  if libc_accepts signo then {[ signo ]} ∪ set else set.

(** [sigdelset(&set, signo)] *)
Definition sigdelset `{Platform} (set : gset Z) (signo : Z) : gset Z :=
  if libc_accepts signo then set ∖ {[ signo ]} else set.

(** [sigfillset]: every signal number the library accepts, as far as the
    file looks at the set, that is from 1 to [SIGRTMAX]. *)
Definition sigfillset `{Platform} : gset Z :=
  list_to_set (filter (λ sig, libc_accepts sig = true) (seqZ 1 SIGRTMAX)).

Inductive mask_how := SIG_BLOCK | SIG_UNBLOCK.

(** [sigprocmask(how, &set, NULL)]; the kernel leaves SIGKILL and SIGSTOP
    out of what it blocks. *)
Definition sys_sigprocmask `{Platform} (how : mask_how) (set : gset Z) (o : os_state)
  : os_state :=
  match how with
  | SIG_BLOCK => set_os_mask (os_mask o ∪ (set ∖ {[ SIGKILL; SIGSTOP ]})) o
  | SIG_UNBLOCK => set_os_mask (os_mask o ∖ set) o
  end.

Definition fd_lookup (o : os_state) (fd : Z) : option fd_entry :=
  if fd <? 0 then None else mjoin (os_fds o !! Z.to_nat fd).

Definition fd_open (o : os_state) (fd : Z) : bool :=
  bool_decide (is_Some (fd_lookup o fd)).

(** lowest free slot of the descriptor table *)
Fixpoint fd_alloc (fds : list (option fd_entry)) : nat :=
  match fds with
  | [] => 0%nat
  | None :: _ => 0%nat
  | Some _ :: fds' => S (fd_alloc fds')
  end.

Definition fd_install (i : nat) (e : fd_entry) (fds : list (option fd_entry))
  : list (option fd_entry) :=
  if decide (i < length fds)%nat then <[i := Some e]> fds else fds ++ [Some e].

(** [pipe2(fds, flags)] and [pipe(fds)]: a new empty pipe on the two lowest
    free descriptors, or -1 and nothing changed when the table is full. *)
Definition sys_pipe (nonblock cloexec : bool) (o : os_state)
  : Z * (Z * Z) * os_state :=
  let p := length (os_pipes o) in
  let r := fd_alloc (os_fds o) in
  let fds1 :=
    fd_install r {| fd_obj := PipeRd p; fd_nonblock := nonblock; fd_cloexec := cloexec |}
      (os_fds o) in
  let w := fd_alloc fds1 in
  let fds2 :=
    fd_install w {| fd_obj := PipeWr p; fd_nonblock := nonblock; fd_cloexec := cloexec |}
      fds1 in
  if decide (w < os_fd_limit o)%nat
  then (0, (Z.of_nat r, Z.of_nat w), set_os_pipes (os_pipes o ++ [[]]) (set_os_fds fds2 o))
  else (-1, (0, 0), o).

Definition fd_update (fd : Z) (f : fd_entry → fd_entry) (o : os_state) : os_state :=
  if fd <? 0 then o
  else set_os_fds (alter (fmap f) (Z.to_nat fd) (os_fds o)) o.

(** [fcntl(fd, F_SETFL, O_NONBLOCK | fcntl(fd, F_GETFL))] *)
Definition sys_set_nonblock (fd : Z) (o : os_state) : os_state :=
  fd_update fd
    (λ e, {| fd_obj := fd_obj e; fd_nonblock := true; fd_cloexec := fd_cloexec e |}) o.

(** [fcntl(fd, F_SETFD, FD_CLOEXEC | fcntl(fd, F_GETFD))] *)
Definition sys_set_cloexec (fd : Z) (o : os_state) : os_state :=
  fd_update fd
    (λ e, {| fd_obj := fd_obj e; fd_nonblock := fd_nonblock e; fd_cloexec := true |}) o.

(** [close(fd)]: fails on a descriptor that is not open *)
Definition sys_close (fd : Z) (o : os_state) : Z * os_state :=
  match fd_lookup o fd with
  | Some _ => (0, set_os_fds (<[Z.to_nat fd := None]> (os_fds o)) o)
  | None => (-1, o)
  end.

(** [write(fd, &x, sizeof(int))] on a descriptor that does not block: the
    record is appended when [fd] is the write end of a pipe with room,
    otherwise the call fails and nothing is written. *)
Definition sys_write (fd : Z) (x : Z) (o : os_state) : bool * os_state :=
  match fd_lookup o fd with
  | Some {| fd_obj := PipeWr p |} =>
      match os_pipes o !! p with
      | Some buf =>
          if decide (Z.of_nat (length buf) < os_pipe_cap o)
          then (true, set_os_pipes (<[p := buf ++ [x]]> (os_pipes o)) o)
          else (false, o)
      | None => (false, o)
      end
  | _ => (false, o)
  end.

(** [read(fd, &x, sizeof(int))] on a descriptor that does not block: the
    oldest record when [fd] is the read end of a pipe that holds one. *)
Definition sys_read (fd : Z) (o : os_state) : option Z * os_state :=
  match fd_lookup o fd with
  | Some {| fd_obj := PipeRd p |} =>
      match os_pipes o !! p with
      | Some (x :: buf) => (Some x, set_os_pipes (<[p := buf]> (os_pipes o)) o)
      | _ => (None, o)
      end
  | _ => (None, o)
  end.

(** ** The state of the subsystem *)

Record state := {
  signal_handler_func : list fptr;    (* signal_handler_func[SIG_MAX] *)
  signal_v : list vptr;               (* signal_v[SIG_MAX] *)
  signal_pipe : Z * Z;                (* signal_pipe[0], signal_pipe[1] *)
  ign_sig : gset Z;
  dfl_sig : gset Z;
  parent_sig : gset Z;
  os : os_state;
  trace : list event;
}.

Definition set_signal_handler_func (t : list fptr) (s : state) : state :=
  {| signal_handler_func := t; signal_v := signal_v s; signal_pipe := signal_pipe s;
     ign_sig := ign_sig s; dfl_sig := dfl_sig s; parent_sig := parent_sig s;
     os := os s; trace := trace s |}.

Definition set_signal_v (t : list vptr) (s : state) : state :=
  {| signal_handler_func := signal_handler_func s; signal_v := t;
     signal_pipe := signal_pipe s;
     ign_sig := ign_sig s; dfl_sig := dfl_sig s; parent_sig := parent_sig s;
     os := os s; trace := trace s |}.

Definition set_signal_pipe (p : Z * Z) (s : state) : state :=
  {| signal_handler_func := signal_handler_func s; signal_v := signal_v s;
     signal_pipe := p;
     ign_sig := ign_sig s; dfl_sig := dfl_sig s; parent_sig := parent_sig s;
     os := os s; trace := trace s |}.

Definition set_ign_sig (g : gset Z) (s : state) : state :=
  {| signal_handler_func := signal_handler_func s; signal_v := signal_v s;
     signal_pipe := signal_pipe s;
     ign_sig := g; dfl_sig := dfl_sig s; parent_sig := parent_sig s;
     os := os s; trace := trace s |}.

Definition set_dfl_sig (g : gset Z) (s : state) : state :=
  {| signal_handler_func := signal_handler_func s; signal_v := signal_v s;
     signal_pipe := signal_pipe s;
     ign_sig := ign_sig s; dfl_sig := g; parent_sig := parent_sig s;
     os := os s; trace := trace s |}.

Definition set_parent_sig (g : gset Z) (s : state) : state :=
  {| signal_handler_func := signal_handler_func s; signal_v := signal_v s;
     signal_pipe := signal_pipe s;
     ign_sig := ign_sig s; dfl_sig := dfl_sig s; parent_sig := g;
     os := os s; trace := trace s |}.

Definition set_os (o : os_state) (s : state) : state :=
  {| signal_handler_func := signal_handler_func s; signal_v := signal_v s;
     signal_pipe := signal_pipe s;
     ign_sig := ign_sig s; dfl_sig := dfl_sig s; parent_sig := parent_sig s;
     os := o; trace := trace s |}.

(** An event is appended to the trace. *)
Definition emit (e : event) (s : state) : state :=
  {| signal_handler_func := signal_handler_func s; signal_v := signal_v s;
     signal_pipe := signal_pipe s;
     ign_sig := ign_sig s; dfl_sig := dfl_sig s; parent_sig := parent_sig s;
     os := os s; trace := trace s ++ [e] |}.

(** [log_message(LOG_INFO, ...)] *)
Abbreviation log_message := emit.

(** A call [f(v, sig)] through a function pointer of the table. *)
Abbreviation invoke f v sig := (emit (Call f v sig)).

(** [for (i = lo; i <= hi; i++) body] *)
Definition for_loop {A} (lo hi : Z) (body : Z → A → A) (a : A) : A :=
  foldl (λ a i, body i a) a (seqZ lo (hi - lo + 1)).

Section Signals.
Context `{P : Platform}.

(** The [SIG_MAX] macro. *)
Definition SIG_MAX : Z :=
  if WITH_JSON then
    match macro_NSIG with
    | Some n => n
    | None => match macro_SIGRTMAX with Some n => n | None => 64 end
    end
  else if SIGCHLD >? SIGUSR2 then SIGCHLD else SIGUSR2.

(** The signal of a configuration keyword; the argument is the text of the
    C string, and [strcmp] returning 0 is equality of the texts. *)
Definition get_signum (sigfunc : string) : Z :=
  if bool_decide (sigfunc = "STOP") then SIGTERM
  else if bool_decide (sigfunc = "RELOAD") then SIGHUP
  else if bool_decide (sigfunc = "DATA") then SIGUSR1
  else if bool_decide (sigfunc = "STATS") then SIGUSR2
  else if WITH_JSON && bool_decide (sigfunc = "JSON") then SIGJSON
  else
    (* Not found *)
    -1.

(** The slot of a signal number: [signal_handler_func[sig-1]], [signal_v[sig-1]];
    a slot outside the arrays reads as null. *)
Definition slot_func (s : state) (sig : Z) : fptr :=
  default NULL (signal_handler_func s !! Z.to_nat (sig - 1)).

Definition slot_v (s : state) (sig : Z) : vptr :=
  default NULLV (signal_v s !! Z.to_nat (sig - 1)).

(** The trampoline. *)
Definition signal_handler (sig : Z) (s : state) : state :=
  let '(ok, o) := sys_write (signal_pipe s).2 sig (os s) in
  if ok then set_os o s
  else log_message Log_write_bug (set_os o s).

(** Signal wrapper. *)
Definition signal_set (signo : Z) (func : fptr) (v : vptr) (s : state) : fptr * state :=
  if (signo <? 1) || (signo >? SIG_MAX) then
    (NULL, log_message (Log_invalid_signo signo SIG_MAX) s)
  else
    let sentinel := bool_decide (func = SIG_IGN) || bool_decide (func = SIG_DFL) in
    let sig :=
      {| sa_handler := if sentinel then func else Fn_signal_handler;
         sa_flags := Z.lor 0 SA_RESTART |} in
    let func := if sentinel then NULL else func in
    let v := if sentinel then NULLV else v in
    let sset := sigaddset sigemptyset signo in
    let s :=
      if bool_decide (func ≠ NULL) then
        set_parent_sig (sigaddset (parent_sig s) signo)
          (set_os (sys_sigprocmask SIG_BLOCK sset (os s)) s)
      else s in
    let '(ret, osig, o) := sys_sigaction signo (Some sig) (os s) in
    let s := set_os o s in
    let s := set_signal_handler_func
               (<[Z.to_nat (signo - 1) := func]> (signal_handler_func s)) s in
    let s := set_signal_v (<[Z.to_nat (signo - 1) := v]> (signal_v s)) s in
    if ret <? 0 then (SIG_ERR, s)
    else
      let s :=
        if bool_decide (func ≠ NULL) then
          set_os (sys_sigprocmask SIG_UNBLOCK sset (os s)) s
        else s in
      (if bool_decide (Z.land (sa_flags osig) SA_SIGINFO ≠ 0)
       then sa_sigaction osig else sa_handler osig, s).

(** Signal Ignore. *)
Definition signal_ignore (signo : Z) (s : state) : fptr * state :=
  signal_set signo SIG_IGN NULLV s.

Definition clear_signal_handler_addresses (s : state) : state :=
  for_loop 0 (SIG_MAX - 1)
    (λ i s, set_signal_handler_func (<[Z.to_nat i := NULL]> (signal_handler_func s)) s) s.

(** Handlers initialisation: the self-pipe. *)
Definition open_signal_pipe (s : state) : state :=
  let '(n, fds, o) :=
    if HAVE_PIPE2 then sys_pipe true true (os s) else sys_pipe false false (os s) in
  let s := set_os o s in
  (* the descriptors are stored only by a call that succeeds *)
  let s := if bool_decide (n = 0) then set_signal_pipe fds s else s in
  let s := if bool_decide (n ≠ 0) then log_message Log_pipe_bug s else s in
  if HAVE_PIPE2 then s
  else
    let s := set_os (sys_set_nonblock (signal_pipe s).1 (os s)) s in
    let s := set_os (sys_set_nonblock (signal_pipe s).2 (os s)) s in
    let s := set_os (sys_set_cloexec (signal_pipe s).1 (os s)) s in
    let s := set_os (sys_set_cloexec (signal_pipe s).2 (os s)) s in
    s.

(** The signals [signal_handler_init] leaves alone. *)
Definition essential : gset Z :=
  {[ SIGILL; SIGFPE; SIGSEGV; SIGBUS; SIGKILL; SIGSTOP ]}.

Definition ign_action : sigaction_t := {| sa_handler := SIG_IGN; sa_flags := 0 |}.

Definition signal_handler_init_body (sset : gset Z) (act : sigaction_t)
    (sig : Z) (s : state) : state :=
  if bool_decide (sig ∈ sset) then
    let '(_, oact, o) := sys_sigaction sig None (os s) in
    let s := set_os o s in
    if bool_decide (sa_handler oact = SIG_IGN) then
      set_ign_sig (sigaddset (ign_sig s) sig) s
    else
      let '(_, _, o) := sys_sigaction sig (Some act) (os s) in
      set_dfl_sig (sigaddset (dfl_sig s) sig) (set_os o s)
  else s.

Definition signal_handler_init (s : state) : state :=
  let s := open_signal_pipe s in
  let s := clear_signal_handler_addresses s in
  (* Ignore all signals set to default (except essential ones) *)
  let sset := sigfillset in
  let sset := sigdelset sset SIGILL in
  let sset := sigdelset sset SIGFPE in
  let sset := sigdelset sset SIGSEGV in
  let sset := sigdelset sset SIGBUS in
  let sset := sigdelset sset SIGKILL in
  let sset := sigdelset sset SIGSTOP in
  let act := {| sa_handler := SIG_IGN; sa_flags := 0 |} in
  let s := set_ign_sig sigemptyset s in
  let s := set_dfl_sig sigemptyset s in
  let s := set_parent_sig sigemptyset s in
  for_loop 1 SIGRTMAX (signal_handler_init_body sset act) s.

Definition signal_handler_child_clear (s : state) : state :=
  let act := {| sa_handler := SIG_IGN; sa_flags := 0 |} in
  let s :=
    for_loop 1 SIGRTMAX
      (λ sig s,
         if bool_decide (sig ∈ parent_sig s) then
           set_os (sys_sigaction sig (Some act) (os s)).2 s
         else s) s in
  let s := open_signal_pipe s in
  clear_signal_handler_addresses s.

Definition signal_handlers_clear (st : fptr) (s : state) : state :=
  (* Ensure no more pending signals *)
  let s := (signal_set SIGHUP st NULLV s).2 in
  let s := (signal_set SIGINT st NULLV s).2 in
  let s := (signal_set SIGTERM st NULLV s).2 in
  let s := (signal_set SIGCHLD st NULLV s).2 in
  let s := (signal_set SIGUSR1 st NULLV s).2 in
  let s := (signal_set SIGUSR2 st NULLV s).2 in
  if WITH_JSON then (signal_set SIGJSON st NULLV s).2 else s.

Definition signal_handler_destroy (s : state) : state :=
  let s := signal_handlers_clear SIG_IGN s in
  let s := set_os (sys_close (signal_pipe s).2 (os s)).2 s in
  let s := set_os (sys_close (signal_pipe s).1 (os s)).2 s in
  let s := set_signal_pipe ((signal_pipe s).1, -1) s in
  set_signal_pipe (-1, (signal_pipe s).2) s.

(** Called prior to exec'ing a script. *)
Definition signal_handler_script (s : state) : state :=
  let ign := {| sa_handler := SIG_IGN; sa_flags := 0 |} in
  let dfl := {| sa_handler := SIG_DFL; sa_flags := 0 |} in
  for_loop 1 SIGRTMAX
    (λ sig s,
       if bool_decide (sig ∈ ign_sig s) then
         set_os (sys_sigaction sig (Some ign) (os s)).2 s
       else if bool_decide (sig ∈ dfl_sig s) then
         set_os (sys_sigaction sig (Some dfl) (os s)).2 s
       else s) s.

Definition signal_rfd (s : state) : Z := (signal_pipe s).1.

(** One turn of the loop of [signal_run_callback] on a record that was read. *)
Definition run_one (sig : Z) (s : state) : state :=
  if (1 <=? sig) && (sig <=? SIG_MAX) && bool_decide (slot_func s sig ≠ NULL)
  then invoke (slot_func s sig) (slot_v s sig) sig s
  else s.

(** Handlers callback: the [while] loop, with the number of turns bounded by
    [fuel]; [None] when the bound is reached before [read] fails. *)
Fixpoint signal_run_callback (fuel : nat) (s : state) : option state :=
  match fuel with
  | O => None
  | S fuel =>
      let '(r, o) := sys_read (signal_pipe s).1 (os s) in
      let s := set_os o s in
      match r with
      | Some sig => signal_run_callback fuel (run_one sig s)
      | None => Some s
      end
  end.

Definition signal_pipe_close (min_fd : Z) (s : state) : state :=
  let s :=
    if bool_decide ((signal_pipe s).1 ≠ 0) && ((signal_pipe s).1 >=? min_fd)
    then set_os (sys_close (signal_pipe s).1 (os s)).2 s else s in
  let s :=
    if bool_decide ((signal_pipe s).2 ≠ 0) && ((signal_pipe s).2 >=? min_fd)
    then set_os (sys_close (signal_pipe s).2 (os s)).2 s else s in
  s.

End Signals.

(** ** A process at start-up *)

Definition std_file : fd_entry :=
  {| fd_obj := OtherFile; fd_nonblock := false; fd_cloexec := false |}.

(** Standard descriptors open; SIGPIPE inherited ignored, every other
    disposition default; nothing blocked; the kernel refuses to change
    SIGKILL and SIGSTOP; a pipe holds 65536 bytes, that is 16384 records. *)
Definition os_boot : os_state :=
  {| os_disp := {[ 13 := {| sa_handler := SIG_IGN; sa_flags := 0 |} ]};
     os_mask := ∅; os_refused := {[ 9; 19 ]};
     os_fds := [Some std_file; Some std_file; Some std_file];
     os_fd_limit := 1024; os_pipes := []; os_pipe_cap := 16384 |}.

(** The static storage of the file as the loader leaves it. *)
Definition boot `{Platform} (o : os_state) : state :=
  {| signal_handler_func := replicate (Z.to_nat SIG_MAX) NULL;
     signal_v := replicate (Z.to_nat SIG_MAX) NULLV;
     signal_pipe := (-1, -1);
     ign_sig := ∅; dfl_sig := ∅; parent_sig := ∅;
     os := o; trace := [] |}.


(** ** Notions used by the statements *)

Section Notions.
Context `{P : Platform}.

(** The two arrays have [SIG_MAX] elements. *)
Definition wf (s : state) : Prop :=
  length (signal_handler_func s) = Z.to_nat SIG_MAX ∧
  length (signal_v s) = Z.to_nat SIG_MAX.

(** [func] is a callback, not one of the two sentinels ignore / default. *)
Definition active (func : fptr) : bool :=
  negb (bool_decide (func = SIG_IGN) || bool_decide (func = SIG_DFL)).

(** The handler a signal is routed to. *)
Definition handler_of (s : state) (sig : Z) : fptr :=
  sa_handler (disposition (os s) sig).

Definition blocked (s : state) (sig : Z) : Prop := sig ∈ os_mask (os s).

(** A call of sigaction that sets the action of [sig] fails: the C library
    does not accept the number, or the kernel refuses. *)
Definition sigaction_fails (s : state) (sig : Z) : Prop :=
  libc_accepts sig = false ∨ sig ∈ os_refused (os s).

(** The kernel lets a process change the disposition of every signal
    except SIGKILL and SIGSTOP. *)
Definition posix_kernel (s : state) : Prop :=
  ∀ sig, 1 ≤ sig ≤ SIGRTMAX → sig ∈ os_refused (os s) → sig = SIGKILL ∨ sig = SIGSTOP.

(** A signal the process can block: the C library accepts the number in a
    signal set and the kernel does not keep it out of the mask. *)
Definition blockable (sig : Z) : Prop :=
  libc_accepts sig = true ∧ sig ≠ SIGKILL ∧ sig ≠ SIGSTOP.

(** The set [signal_handler_init] goes through. *)
Definition init_sset : gset Z :=
  sigdelset (sigdelset (sigdelset (sigdelset (sigdelset (sigdelset sigfillset
    SIGILL) SIGFPE) SIGSEGV) SIGBUS) SIGKILL) SIGSTOP.

(** The state [signal_set] leaves for a signal number in range. *)
Definition signal_set_result (signo : Z) (func : fptr) (v : vptr) (s : state) : state :=
  let a := active func in
  let refused := negb (libc_accepts signo) || bool_decide (signo ∈ os_refused (os s)) in
  let sset := sigaddset sigemptyset signo in
  {| signal_handler_func :=
       <[Z.to_nat (signo - 1) := if a then func else NULL]> (signal_handler_func s);
     signal_v := <[Z.to_nat (signo - 1) := if a then v else NULLV]> (signal_v s);
     signal_pipe := signal_pipe s;
     ign_sig := ign_sig s;
     dfl_sig := dfl_sig s;
     parent_sig := if a then sigaddset (parent_sig s) signo else parent_sig s;
     os :=
       {| os_disp :=
            if refused then os_disp (os s)
            else <[signo := {| sa_handler := if a then Fn_signal_handler else func;
                               sa_flags := Z.lor 0 SA_RESTART |}]> (os_disp (os s));
          os_mask :=
            if a then
              if refused then os_mask (os s) ∪ (sset ∖ {[ SIGKILL; SIGSTOP ]})
              else (os_mask (os s) ∪ (sset ∖ {[ SIGKILL; SIGSTOP ]})) ∖ sset
            else os_mask (os s);
          os_refused := os_refused (os s);
          os_fds := os_fds (os s);
          os_fd_limit := os_fd_limit (os s);
          os_pipes := os_pipes (os s);
          os_pipe_cap := os_pipe_cap (os s) |};
     trace := trace s |}.

(** Two states of the system that differ at most in descriptors and pipes. *)
Definition same_signals (o o' : os_state) : Prop :=
  os_disp o' = os_disp o ∧ os_mask o' = os_mask o ∧ os_refused o' = os_refused o ∧
  os_fd_limit o' = os_fd_limit o ∧ os_pipe_cap o' = os_pipe_cap o.

(** A loop over the signals 1 to [SIGRTMAX] that gives the signals chosen
    by [choose] a new action; the loops of [signal_handler_script] and of
    [signal_handler_child_clear] are of this form. *)
Definition set_action_loop (choose : Z → option sigaction_t) (s : state) : state :=
  for_loop 1 SIGRTMAX
    (λ sig s,
       match choose sig with
       | Some act => set_os (sys_sigaction sig (Some act) (os s)).2 s
       | None => s
       end) s.

(** The choice made by the loop of [signal_handler_script]. *)
Definition script_choice (s : state) (sig : Z) : option sigaction_t :=
  if bool_decide (sig ∈ ign_sig s) then Some ign_action
  else if bool_decide (sig ∈ dfl_sig s) then Some dfl_action
  else None.

(** The choice made by the loop of [signal_handler_child_clear]. *)
Definition child_choice (s : state) (sig : Z) : option sigaction_t :=
  if bool_decide (sig ∈ parent_sig s) then Some ign_action else None.

(** *** The self-pipe *)

(** [signal_pipe] holds the two ends of pipe [p], whose buffer is [buf]. *)
Definition self_pipe (s : state) (p : nat) (buf : list Z) : Prop :=
  fd_obj <$> fd_lookup (os s) (signal_pipe s).1 = Some (PipeRd p) ∧
  fd_obj <$> fd_lookup (os s) (signal_pipe s).2 = Some (PipeWr p) ∧
  os_pipes (os s) !! p = Some buf.

(** Two descriptors are free below the limit, so a pipe can be opened. *)
Definition fd_room (o : os_state) : Prop :=
  (fd_alloc (fd_install (fd_alloc (os_fds o)) std_file (os_fds o)) < os_fd_limit o)%nat.

(** The trampoline run once for each number of [sigs], in order. *)
Definition deliver_all (sigs : list Z) (s : state) : state :=
  foldl (λ s sig, signal_handler sig s) s sigs.

(** What the dispatch of one record is expected to invoke: the callback of
    the slot with its context and the number, for a number in range whose
    slot holds a callback. *)
Definition expected_call (s : state) (sig : Z) : option event :=
  if decide (1 ≤ sig ≤ SIG_MAX ∧ slot_func s sig ≠ NULL)
  then Some (Call (slot_func s sig) (slot_v s sig) sig) else None.

Definition expected_calls (s : state) (sigs : list Z) : list event :=
  omap (expected_call s) sigs.

Definition is_call (e : event) : bool :=
  match e with Call _ _ _ => true | _ => false end.

(** The callback invocations of a trace. *)
Definition calls (tr : list event) : list event := filter (λ e, is_call e = true) tr.

(** *** The invariant of the registration table *)

Definition table_inv (s : state) : Prop :=
  ∀ sig, 1 ≤ sig ≤ SIG_MAX →
    (slot_func s sig ≠ NULL) ↔ (handler_of s sig = Fn_signal_handler).

(** The invariant as a test, over the slots 1 to [SIG_MAX]. *)
Definition table_inv_b (s : state) : bool :=
  forallb
    (λ sig, eqb (negb (bool_decide (slot_func s sig = NULL)))
                (bool_decide (handler_of s sig = Fn_signal_handler)))
    (seqZ 1 SIG_MAX).

Inductive operation :=
  | Op_signal_set (signo : Z) (func : fptr) (v : vptr)
  | Op_signal_ignore (signo : Z)
  | Op_signal_handler_init
  | Op_signal_handler_child_clear
  | Op_signal_handler_destroy.

Definition run_op (op : operation) (s : state) : state :=
  match op with
  | Op_signal_set signo func v => (signal_set signo func v s).2
  | Op_signal_ignore signo => (signal_ignore signo s).2
  | Op_signal_handler_init => signal_handler_init s
  | Op_signal_handler_child_clear => signal_handler_child_clear s
  | Op_signal_handler_destroy => signal_handler_destroy s
  end.

(** The signals [signal_handlers_clear] goes through. *)
Definition cleared_signals : list Z :=
  [SIGHUP; SIGINT; SIGTERM; SIGCHLD; SIGUSR1; SIGUSR2]
  ++ (if WITH_JSON then [SIGJSON] else []).

(** The signals routed through the trampoline, as far as the table goes. *)
Definition routed (s : state) (sig : Z) : Prop :=
  1 ≤ sig ≤ SIG_MAX ∧ handler_of s sig = Fn_signal_handler.

(** What an operation needs to keep the invariant: the calls of sigaction
    it makes on the signals concerned succeed, and the loops of the two
    resets reach every signal that is routed through the trampoline. *)
Definition op_pre (op : operation) (s : state) : Prop :=
  match op with
  | Op_signal_set signo _ _ | Op_signal_ignore signo =>
      1 ≤ signo ≤ SIG_MAX → ¬ sigaction_fails s signo
  | Op_signal_handler_init =>
      ∀ sig, routed s sig →
        1 ≤ sig ≤ SIGRTMAX ∧ (sig ∉ essential) ∧ ¬ sigaction_fails s sig
  | Op_signal_handler_child_clear =>
      ∀ sig, routed s sig →
        1 ≤ sig ≤ SIGRTMAX ∧ sig ∈ parent_sig s ∧ ¬ sigaction_fails s sig
  | Op_signal_handler_destroy =>
      ∀ sig, sig ∈ cleared_signals → 1 ≤ sig ≤ SIG_MAX → ¬ sigaction_fails s sig
  end.

(** *** Calls of the application between init and exec *)

Inductive api_call :=
  | Do_signal_set (signo : Z) (func : fptr) (v : vptr)
  | Do_signal_ignore (signo : Z).

Definition run_call (s : state) (c : api_call) : state :=
  match c with
  | Do_signal_set signo func v => (signal_set signo func v s).2
  | Do_signal_ignore signo => (signal_ignore signo s).2
  end.

Definition run_calls (cs : list api_call) (s : state) : state := foldl run_call s cs.

(** *** Anything the application does after the initialisation *)

Inductive action :=
  | Act_op (op : operation)
  | Act_deliver (sig : Z)                 (* the trampoline runs *)
  | Act_dispatch (fuel : nat)             (* signal_run_callback *)
  | Act_pipe_close (min_fd : Z)
  | Act_script.

(** [None] when a dispatch does not return within its bound. *)
Definition run_action (s : state) (a : action) : option state :=
  match a with
  | Act_op op => Some (run_op op s)
  | Act_deliver sig => Some (signal_handler sig s)
  | Act_dispatch fuel => signal_run_callback fuel s
  | Act_pipe_close min_fd => Some (signal_pipe_close min_fd s)
  | Act_script => Some (signal_handler_script s)
  end.

Fixpoint run_actions (acts : list action) (s : state) : option state :=
  match acts with
  | [] => Some s
  | a :: acts =>
      match run_action s a with
      | Some s' => run_actions acts s'
      | None => None
      end
  end.

(** What [signal_handler_script] relies on: the two remembered sets and
    the signals the kernel refuses. *)
Definition same_memory (s s' : state) : Prop :=
  ign_sig s' = ign_sig s ∧ dfl_sig s' = dfl_sig s ∧
  os_refused (os s') = os_refused (os s).

(** The records the pipe still takes. *)
Definition pipe_room (s : state) (buf : list Z) : nat :=
  Z.to_nat (os_pipe_cap (os s) - Z.of_nat (length buf)).

(** What the dispatch of a record invokes once [signal_set signo func v]
    has been called, in terms of the table before that call. *)
Definition expected_call_after (s : state) (signo : Z) (func : fptr) (v : vptr)
    (sig : Z) : option event :=
  if decide (sig = signo) then
    if active func then Some (Call func v signo) else None
  else expected_call s sig.

(** *** Closing descriptors *)

(** The call closed [fd]: it was open before and is not after. *)
Definition closed_by (s s' : state) (fd : Z) : Prop :=
  fd_open (os s) fd = true ∧ fd_open (os s') fd = false.

End Notions.

(** ** Concrete states, on Linux built without JSON support *)

Module Example.

#[local] Instance platform : Platform := linux false.

(** After [signal_handler_init] at start-up. *)
Definition s_init : state := signal_handler_init (boot os_boot).

(** Then a callback registered for SIGUSR1 and one for SIGTERM. *)
Definition s_reg : state :=
  (signal_set 15 (Fn 2) 200 (signal_set 10 (Fn 1) 100 s_init).2).2.

(** A callback registered for SIGILL before any initialisation. *)
Definition s_ill : state := (signal_set 4 (Fn 1) 100 (boot os_boot)).2.

(** The same process started with no descriptor open: the pipe of
    [signal_handler_init] gets the descriptors 0 and 1. *)
Definition os_nostd : os_state :=
  {| os_disp := os_disp os_boot; os_mask := ∅; os_refused := os_refused os_boot;
     os_fds := []; os_fd_limit := 1024; os_pipes := []; os_pipe_cap := 16384 |}.

Definition s_nostd : state := signal_handler_init (boot os_nostd).

(** The same process under a system call filter that makes every call of
    sigaction that changes a disposition fail. *)
Definition os_filtered : os_state :=
  {| os_disp := os_disp os_boot; os_mask := ∅;
     os_refused := list_to_set (seqZ 1 64);
     os_fds := os_fds os_boot; os_fd_limit := 1024; os_pipes := [];
     os_pipe_cap := 16384 |}.

Definition s_filtered : state := signal_handler_init (boot os_filtered).

(** The same process with every descriptor the limit allows in use. *)
Definition os_full : os_state :=
  {| os_disp := os_disp os_boot; os_mask := ∅; os_refused := os_refused os_boot;
     os_fds := os_fds os_boot; os_fd_limit := 3; os_pipes := [];
     os_pipe_cap := 16384 |}.

End Example.

(** The same platform built with JSON support: [SIG_MAX] is [_NSIG] = 65. *)
Module ExampleJson.

Definition platform : Platform := linux true.

(** After [signal_handler_init] at start-up. *)
Definition s_init : state :=
  signal_handler_init (P := platform) (boot (H := platform) os_boot).

End ExampleJson.

(** * Properties *)

Section Properties.
Context `{P : Platform}.

(** ** [signal_set] *)

Lemma signal_set_invalid signo func v s :
  signo < 1 ∨ SIG_MAX < signo →
  signal_set signo func v s = (NULL, log_message (Log_invalid_signo signo SIG_MAX) s).
Proof.
  intros H. unfold signal_set.
  destruct (signo <? 1) eqn:E1; [done|].
  destruct (signo >? SIG_MAX) eqn:E2; [done|]. lia.
Qed.

Lemma sigaction_fails_refused s sig :
  sigaction_fails s sig ↔
  negb (libc_accepts sig) || bool_decide (sig ∈ os_refused (os s)) = true.
Proof.
  unfold sigaction_fails. destruct (libc_accepts sig); simpl.
  - rewrite bool_decide_eq_true. split; [by intros [?|?]|by right].
  - split; [done|by left].
Qed.

Lemma sigaction_succeeds s sig :
  ¬ sigaction_fails s sig ↔ libc_accepts sig = true ∧ sig ∉ os_refused (os s).
Proof.
  unfold sigaction_fails. destruct (libc_accepts sig).
  - split; [intros H; split; [done|tauto]|intros [_ H] [?|?]; done].
  - split; [intros H; exfalso; apply H; by left|intros [? _]; done].
Qed.

Lemma sigaction_fails_dec s sig : sigaction_fails s sig ∨ ¬ sigaction_fails s sig.
Proof.
  unfold sigaction_fails. destruct (libc_accepts sig); [|by left; left].
  destruct (decide (sig ∈ os_refused (os s))); [by left; right|].
  right. by intros [?|?].
Qed.

Lemma signal_set_valid signo func v s :
  1 ≤ signo ≤ SIG_MAX →
  signal_set signo func v s =
    (if negb (libc_accepts signo) || bool_decide (signo ∈ os_refused (os s))
     then SIG_ERR
     else sa_handler (disposition (os s) signo),
     signal_set_result signo func v s).
Proof.
  intros H. unfold signal_set, signal_set_result, active.
  destruct (signo <? 1) eqn:E1; [lia|].
  destruct (signo >? SIG_MAX) eqn:E2; [lia|]. simpl.
  destruct s as [tf tv sp ig df pa o tr]; destruct o as [d m r f fl pp pc].
  unfold sys_sigaction, set_signal_v, set_signal_handler_func, set_os, set_parent_sig,
    sys_sigprocmask, set_os_mask, set_os_disp, NULL; simpl.
  destruct (libc_accepts signo) eqn:Ea; simpl;
  (destruct (decide (signo ∈ r)) as [Hr|Hr];
    [rewrite ?(bool_decide_eq_true_2 (signo ∈ r)) by done
    |rewrite ?(bool_decide_eq_false_2 (signo ∈ r)) by done]);
  (destruct (decide (func = SIG_IGN)) as [->|Hi];
    [|destruct (decide (func = SIG_DFL)) as [->|Hd]]).
  all: simpl.
  all: rewrite ?(bool_decide_eq_false_2 (func = SIG_IGN)) by done.
  all: rewrite ?(bool_decide_eq_false_2 (func = SIG_DFL)) by done.
  all: rewrite ?(bool_decide_eq_true_2 (func ≠ SIG_DFL)) by done.
  all: simpl.
  all: try reflexivity.
  all: try (rewrite decide_True by done; simpl; reflexivity).
  all: rewrite decide_False by done; simpl.
  all: by destruct (bool_decide _).
Qed.

Lemma signal_set_state signo func v s :
  1 ≤ signo ≤ SIG_MAX →
  (signal_set signo func v s).2 = signal_set_result signo func v s.
Proof. intros H. by rewrite signal_set_valid. Qed.

Lemma signal_set_wf signo func v s : wf s → wf (signal_set signo func v s).2.
Proof.
  intros [H1 H2].
  destruct (decide (1 ≤ signo ≤ SIG_MAX)) as [Hv|Hv].
  - rewrite signal_set_state by done. split; simpl; by rewrite length_insert.
  - rewrite signal_set_invalid by lia. done.
Qed.

Lemma slot_index_lt (s : state) sig :
  wf s → 1 ≤ sig ≤ SIG_MAX →
  (Z.to_nat (sig - 1) < length (signal_handler_func s))%nat ∧
  (Z.to_nat (sig - 1) < length (signal_v s))%nat.
Proof. intros [-> ->] H. lia. Qed.

(** C4. A signal number outside 1..SIG_MAX: [signal_set] returns the null
    pointer and does nothing but log the error; the table (callbacks and
    contexts), the parent-installed set, the remembered dispositions, the
    descriptors of the pipe and the whole state of the system (the
    disposition of every signal included) are as before. *)
Theorem signal_set_out_of_range signo func v s :
  signo < 1 ∨ SIG_MAX < signo →
  let r := signal_set signo func v s in
  r.1 = NULL ∧
  signal_handler_func r.2 = signal_handler_func s ∧
  signal_v r.2 = signal_v s ∧
  parent_sig r.2 = parent_sig s ∧
  ign_sig r.2 = ign_sig s ∧
  dfl_sig r.2 = dfl_sig s ∧
  signal_pipe r.2 = signal_pipe s ∧
  os r.2 = os s ∧
  (∀ sig, disposition (os r.2) sig = disposition (os s) sig) ∧
  trace r.2 = trace s ++ [Log_invalid_signo signo SIG_MAX].
Proof.
  intros H. simpl. rewrite signal_set_invalid by done. simpl. done.
Qed.

(** C10. A signal number in range for which sigaction fails: [signal_set]
    returns SIG_ERR, yet the slot of the signal holds the new callback and
    the new context (null for the two sentinels); for a callback the signal
    is in the parent-installed set when the C library accepts its number
    in a signal set, and the set is as it was when it does not (the call of
    sigaddset failed as well); the disposition is the old one. *)
Theorem signal_set_failure_not_atomic signo func v s :
  wf s →
  1 ≤ signo ≤ SIG_MAX →
  sigaction_fails s signo →
  let r := signal_set signo func v s in
  r.1 = SIG_ERR ∧
  signal_handler_func r.2 !! Z.to_nat (signo - 1)
    = Some (if active func then func else NULL) ∧
  signal_v r.2 !! Z.to_nat (signo - 1) = Some (if active func then v else NULLV) ∧
  (active func = true → libc_accepts signo = true → signo ∈ parent_sig r.2) ∧
  (active func = true → libc_accepts signo = false → parent_sig r.2 = parent_sig s) ∧
  (active func = false → parent_sig r.2 = parent_sig s) ∧
  disposition (os r.2) signo = disposition (os s) signo.
Proof.
  intros Hwf Hv Hf. simpl. rewrite signal_set_valid by done.
  destruct (slot_index_lt s signo Hwf Hv) as [L1 L2].
  apply sigaction_fails_refused in Hf. rewrite Hf.
  unfold signal_set_result, disposition, sigaddset. cbn [fst snd os os_disp
    signal_handler_func signal_v parent_sig].
  rewrite Hf.
  rewrite !list_lookup_insert_eq by done.
  split_and!; try done.
  - intros -> ->. set_solver.
  - intros -> ->. done.
  - intros ->. done.
Qed.

(** C2, on the path where sigaction fails.  For a signal number in range
    that the process can block and a callback, [signal_set] returns SIG_ERR
    and the signal it blocked is still blocked, also when it was not
    blocked before the call: the unblocking call comes after the early
    return.  (The kernel accepts sigaction for such a signal; the failure
    comes from outside, as under a system call filter.) *)
Theorem signal_set_failure_leaves_blocked signo func v s :
  1 ≤ signo ≤ SIG_MAX →
  active func = true →
  blockable signo →
  sigaction_fails s signo →
  (signal_set signo func v s).1 = SIG_ERR ∧
  blocked (signal_set signo func v s).2 signo.
Proof.
  intros Hv Ha (Hacc & Hk & Hs) Hf. rewrite signal_set_valid by done.
  apply sigaction_fails_refused in Hf. rewrite Hf.
  split; [done|]. unfold blocked, signal_set_result, sigaddset, sigemptyset.
  cbn [fst snd os os_mask]. rewrite Ha, Hf, Hacc. set_solver.
Qed.

(** X21. On the path where sigaction fails, nothing is left blocked for a
    signal the process cannot block (SIGKILL, SIGSTOP, a number the C
    library rejects): [signal_set] returns SIG_ERR and the signal mask is
    as it was.  On a kernel that refuses only SIGKILL and SIGSTOP these are
    the only signals up to SIGRTMAX for which sigaction fails. *)
Theorem signal_set_failure_unblockable signo func v s :
  1 ≤ signo ≤ SIG_MAX →
  sigaction_fails s signo →
  ¬ blockable signo →
  (signal_set signo func v s).1 = SIG_ERR ∧
  os_mask (os (signal_set signo func v s).2) = os_mask (os s) ∧
  (posix_kernel s → ∀ sig, 1 ≤ sig ≤ SIGRTMAX → sigaction_fails s sig → ¬ blockable sig).
Proof.
  intros Hv Hf Hnb. rewrite signal_set_valid by done.
  apply sigaction_fails_refused in Hf.
  unfold signal_set_result, sigaddset, sigemptyset. cbn [fst snd os os_mask].
  rewrite Hf. split; [done|]. split.
  - destruct (active func); [|done].
    unfold blockable in Hnb. destruct (libc_accepts signo); [|set_solver].
    assert (signo = SIGKILL ∨ signo = SIGSTOP) as [->| ->].
    { destruct (decide (signo = SIGKILL)); [tauto|].
      destruct (decide (signo = SIGSTOP)); tauto. }
    all: set_solver.
  - intros Hk sig Hr [Ha|Hrf] (Hb1 & Hb2 & Hb3); [congruence|].
    destruct (Hk sig Hr Hrf); done.
Qed.

(** On the path where sigaction succeeds the signal is unblocked again, and
    no other signal has its mask bit changed. *)
Lemma signal_set_success_unblocks signo func v s :
  1 ≤ signo ≤ SIG_MAX →
  active func = true →
  ¬ sigaction_fails s signo →
  ¬ blocked (signal_set signo func v s).2 signo ∧
  ∀ sig, sig ≠ signo → blocked (signal_set signo func v s).2 sig ↔ blocked s sig.
Proof.
  intros Hv Ha Hf. rewrite signal_set_valid by done.
  pose proof Hf as Hf'. apply sigaction_succeeds in Hf' as [Hacc Hr].
  unfold blocked, signal_set_result, sigaddset, sigemptyset.
  cbn [fst snd os os_mask].
  rewrite Ha, Hacc. rewrite bool_decide_eq_false_2 by done. simpl. set_solver.
Qed.
(** ** Loops *)

Lemma foldl_snoc_ind {A} (body : Z → A → A) (Q : list Z → A → Prop) (l : list Z) (a : A) :
  NoDup l →
  Q [] a →
  (∀ l' i a', i ∉ l' → i ∈ l → Q l' a' → Q (l' ++ [i]) (body i a')) →
  Q l (foldl (λ a i, body i a) a l).
Proof.
  intros Hnd H0 Hstep.
  assert (∀ l', l' `prefix_of` l → Q l' (foldl (λ a i, body i a) a l')) as Hall.
  { induction l' as [|i l' IH] using rev_ind; [done|].
    intros [k Hk]. rewrite foldl_snoc. apply Hstep.
    - rewrite Hk in Hnd. rewrite <- (assoc_L (++)) in Hnd.
      apply NoDup_app in Hnd as (_ & Hd & _). intros Hin.
      apply (Hd i Hin). set_solver.
    - rewrite Hk. set_solver.
    - apply IH. exists ([i] ++ k). by rewrite Hk, <- (assoc_L (++)). }
  by apply Hall.
Qed.

(** The invariant of a [for] loop: [Q done a] speaks of the indices the
    loop went through. *)
Lemma for_loop_ind {A} (lo hi : Z) (body : Z → A → A) (Q : list Z → A → Prop) (a : A) :
  Q [] a →
  (∀ l' i a', i ∉ l' → lo ≤ i ≤ hi → Q l' a' → Q (l' ++ [i]) (body i a')) →
  Q (seqZ lo (hi - lo + 1)) (for_loop lo hi body a).
Proof.
  intros H0 Hstep. unfold for_loop. apply foldl_snoc_ind.
  - apply NoDup_seqZ.
  - done.
  - intros l' i a' Hni Hin. apply Hstep; [done|].
    apply elem_of_seqZ in Hin. lia.
Qed.

Lemma elem_of_loop_range (lo hi i : Z) : i ∈ seqZ lo (hi - lo + 1) ↔ lo ≤ i ≤ hi.
Proof. rewrite elem_of_seqZ. lia. Qed.

(** ** [clear_signal_handler_addresses] *)

Lemma clear_signal_handler_addresses_spec s :
  let s' := clear_signal_handler_addresses s in
  signal_v s' = signal_v s ∧ signal_pipe s' = signal_pipe s ∧
  ign_sig s' = ign_sig s ∧ dfl_sig s' = dfl_sig s ∧ parent_sig s' = parent_sig s ∧
  os s' = os s ∧ trace s' = trace s ∧
  length (signal_handler_func s') = length (signal_handler_func s) ∧
  ∀ i, (i < length (signal_handler_func s))%nat →
       signal_handler_func s' !! i =
         Some (if decide (Z.of_nat i < SIG_MAX) then NULL
               else default NULL (signal_handler_func s !! i)).
Proof.
  simpl. unfold clear_signal_handler_addresses.
  set (Q := λ (l : list Z) (s' : state),
    signal_v s' = signal_v s ∧ signal_pipe s' = signal_pipe s ∧
    ign_sig s' = ign_sig s ∧ dfl_sig s' = dfl_sig s ∧ parent_sig s' = parent_sig s ∧
    os s' = os s ∧ trace s' = trace s ∧
    length (signal_handler_func s') = length (signal_handler_func s) ∧
    ∀ i, (i < length (signal_handler_func s))%nat →
         signal_handler_func s' !! i =
           Some (if decide (Z.of_nat i ∈ l) then NULL
                 else default NULL (signal_handler_func s !! i))).
  assert (Q (seqZ 0 (SIG_MAX - 1 - 0 + 1))
            (for_loop 0 (SIG_MAX - 1)
               (λ i s, set_signal_handler_func
                         (<[Z.to_nat i := NULL]> (signal_handler_func s)) s) s)) as HQ.
  { apply for_loop_ind.
    - unfold Q. repeat split; try done. intros i Hi.
      rewrite decide_False by set_solver.
      destruct (lookup_lt_is_Some_2 _ _ Hi) as [x ->]. done.
    - intros l' i a' Hni Hr (H1 & H2 & H3 & H4 & H5 & H6 & H7 & H8 & H9).
      unfold Q. simpl. rewrite length_insert. repeat split; try done.
      intros j Hj. destruct (decide (Z.to_nat i = j)) as [<-|Hne].
      + rewrite list_lookup_insert_eq by lia.
        rewrite decide_True; [done|]. rewrite Z2Nat.id by lia. set_solver.
      + rewrite list_lookup_insert_ne by done. rewrite H9 by done.
        destruct (decide (Z.of_nat j ∈ l')) as [Hin|Hnin].
        * rewrite decide_True by set_solver. done.
        * rewrite decide_False; [done|].
          rewrite elem_of_app, list_elem_of_singleton. intros [?|?]; [done|lia]. }
  destruct HQ as (H1 & H2 & H3 & H4 & H5 & H6 & H7 & H8 & H9).
  repeat split; try done.
  intros i Hi. rewrite H9 by done.
  destruct (decide (Z.of_nat i < SIG_MAX)) as [Hlt|Hge].
  - rewrite decide_True; [done|]. apply elem_of_loop_range. lia.
  - rewrite decide_False; [done|]. rewrite elem_of_loop_range. lia.
Qed.

Lemma clear_signal_handler_addresses_wf s :
  wf s → wf (clear_signal_handler_addresses s).
Proof.
  intros [H1 H2].
  destruct (clear_signal_handler_addresses_spec s)
    as (E1 & _ & _ & _ & _ & _ & _ & E8 & _).
  split; congruence.
Qed.

Lemma clear_signal_handler_addresses_slot s sig :
  1 ≤ sig ≤ SIG_MAX → slot_func (clear_signal_handler_addresses s) sig = NULL.
Proof.
  intros Hs. unfold slot_func.
  destruct (clear_signal_handler_addresses_spec s)
    as (_ & _ & _ & _ & _ & _ & _ & E8 & E9).
  destruct (decide (Z.to_nat (sig - 1) < length (signal_handler_func s))%nat) as [Hl|Hl].
  - rewrite E9 by done. rewrite decide_True by lia. done.
  - rewrite lookup_ge_None_2; [done|]. lia.
Qed.

Lemma clear_signal_handler_addresses_table s :
  wf s →
  signal_handler_func (clear_signal_handler_addresses s) = replicate (Z.to_nat SIG_MAX) NULL.
Proof.
  intros [H1 H2].
  destruct (clear_signal_handler_addresses_spec s)
    as (_ & _ & _ & _ & _ & _ & _ & E8 & E9).
  apply list_eq. intros i.
  destruct (decide (i < Z.to_nat SIG_MAX)%nat) as [Hl|Hl].
  - rewrite E9 by lia. rewrite decide_True by lia.
    symmetry. by apply lookup_replicate_2.
  - rewrite lookup_ge_None_2 by lia.
    symmetry. apply lookup_ge_None_2. rewrite length_replicate. lia.
Qed.

(** ** Descriptors *)

Lemma fd_alloc_le fds : (fd_alloc fds ≤ length fds)%nat.
Proof. induction fds as [|[e|] fds IH]; simpl; lia. Qed.

Lemma fd_alloc_free fds : mjoin (fds !! fd_alloc fds) = None.
Proof. induction fds as [|[e|] fds IH]; simpl; done. Qed.

Lemma fd_alloc_shape (l l' : list (option fd_entry)) :
  (λ e, bool_decide (is_Some e)) <$> l = (λ e, bool_decide (is_Some e)) <$> l' →
  fd_alloc l = fd_alloc l'.
Proof.
  revert l'. induction l as [|[e|] l IH]; intros [|[e'|] l'] H; simpl in *;
    try done; try discriminate.
  f_equal. apply IH. by injection H.
Qed.

Lemma fd_install_shape i e e' fds :
  (λ e, bool_decide (is_Some e)) <$> fd_install i e fds
  = (λ e, bool_decide (is_Some e)) <$> fd_install i e' fds.
Proof.
  unfold fd_install. case_decide.
  - by rewrite !list_fmap_insert.
  - by rewrite !fmap_app.
Qed.

Lemma fd_install_lookup_eq i e fds :
  (i ≤ length fds)%nat → fd_install i e fds !! i = Some (Some e).
Proof.
  intros H. unfold fd_install. case_decide.
  - by rewrite list_lookup_insert_eq.
  - assert (i = length fds) as -> by lia.
    rewrite lookup_app_r by lia. by rewrite Nat.sub_diag.
Qed.

Lemma fd_install_lookup_ne i j e fds :
  (i ≤ length fds)%nat → i ≠ j →
  mjoin (fd_install i e fds !! j) = mjoin (fds !! j).
Proof.
  intros H Hne. unfold fd_install. case_decide.
  - by rewrite list_lookup_insert_ne.
  - assert (i = length fds) as -> by lia.
    destruct (decide (j < length fds)%nat).
    + by rewrite lookup_app_l.
    + rewrite (lookup_ge_None_2 (fds ++ [Some e])) by (rewrite length_app; simpl; lia).
      by rewrite (lookup_ge_None_2 fds) by lia.
Qed.

Lemma fd_install_length i e fds :
  (i ≤ length fds)%nat → (length fds ≤ length (fd_install i e fds))%nat.
Proof.
  intros H. unfold fd_install. case_decide.
  - by rewrite length_insert.
  - rewrite length_app. lia.
Qed.

Lemma fd_lookup_of_nat o (i : nat) : fd_lookup o (Z.of_nat i) = mjoin (os_fds o !! i).
Proof.
  unfold fd_lookup. destruct (Z.ltb_spec (Z.of_nat i) 0); [lia|]. by rewrite Nat2Z.id.
Qed.

Lemma fd_lookup_neg o fd : fd < 0 → fd_lookup o fd = None.
Proof. intros H. unfold fd_lookup. destruct (Z.ltb_spec fd 0); [done|lia]. Qed.

Lemma fd_open_true o fd : fd_open o fd = true ↔ is_Some (fd_lookup o fd).
Proof. unfold fd_open. apply bool_decide_eq_true. Qed.

Lemma fd_open_false o fd : fd_open o fd = false ↔ fd_lookup o fd = None.
Proof.
  unfold fd_open. rewrite bool_decide_eq_false. split.
  - intros H. destruct (fd_lookup o fd); [|done]. exfalso. eauto.
  - intros -> [x ?]. done.
Qed.

(** ** [close] *)

Lemma sys_close_frame fd o :
  let o' := (sys_close fd o).2 in
  os_disp o' = os_disp o ∧ os_mask o' = os_mask o ∧ os_refused o' = os_refused o ∧
  os_fd_limit o' = os_fd_limit o ∧ os_pipes o' = os_pipes o ∧
  os_pipe_cap o' = os_pipe_cap o.
Proof. simpl. unfold sys_close. destruct (fd_lookup o fd); done. Qed.

Lemma sys_close_not_open fd o : fd_lookup o fd = None → (sys_close fd o).2 = o.
Proof. intros H. unfold sys_close. by rewrite H. Qed.

Lemma sys_close_lookup fd fd' o :
  fd_lookup (sys_close fd o).2 fd' = if decide (fd = fd') then None else fd_lookup o fd'.
Proof.
  unfold sys_close. destruct (fd_lookup o fd) as [e|] eqn:E; simpl.
  - unfold fd_lookup in *. simpl.
    destruct (fd <? 0) eqn:E1; [done|].
    destruct (decide (fd = fd')) as [<-|Hne].
    + rewrite E1. destruct (os_fds o !! Z.to_nat fd) as [x|] eqn:E2; [|done].
      rewrite list_lookup_insert_eq; [done|]. by eapply lookup_lt_Some.
    + destruct (fd' <? 0) eqn:E3; [done|].
      rewrite list_lookup_insert_ne; [done|lia].
  - destruct (decide (fd = fd')) as [<-|Hne]; done.
Qed.

(** ** [pipe], [fcntl] and [open_signal_pipe] *)

Lemma fd_update_lookup fd fd' f o :
  fd_lookup (fd_update fd f o) fd'
  = if decide (fd = fd') then f <$> fd_lookup o fd' else fd_lookup o fd'.
Proof.
  unfold fd_update, fd_lookup.
  destruct (Z.ltb_spec fd 0) as [Hn|Hp].
  - destruct (decide (fd = fd')) as [<-|Hne]; [|done].
    destruct (Z.ltb_spec fd 0); [done|lia].
  - simpl. destruct (Z.ltb_spec fd' 0) as [Hn'|Hp'].
    + by destruct (decide (fd = fd')).
    + destruct (decide (fd = fd')) as [<-|Hne].
      * rewrite list_lookup_alter_eq. by destruct (os_fds o !! Z.to_nat fd) as [[e|]|].
      * rewrite list_lookup_alter_ne; [done|lia].
Qed.

Lemma same_signals_refl o : same_signals o o.
Proof. by unfold same_signals. Qed.

Lemma same_signals_trans o1 o2 o3 :
  same_signals o1 o2 → same_signals o2 o3 → same_signals o1 o3.
Proof. unfold same_signals. intros (?&?&?&?&?) (?&?&?&?&?). repeat split; congruence. Qed.

Lemma fd_update_frame fd f o : same_signals o (fd_update fd f o).
Proof. unfold fd_update. destruct (fd <? 0); by unfold same_signals. Qed.

Lemma fd_update_pipes fd f o : os_pipes (fd_update fd f o) = os_pipes o.
Proof. unfold fd_update. by destruct (fd <? 0). Qed.

Lemma sys_pipe_frame nb ce o : same_signals o (sys_pipe nb ce o).2.
Proof. unfold sys_pipe. case_decide; by unfold same_signals. Qed.

Lemma sys_pipe_success nb ce o :
  fd_room o →
  ∃ (r w : nat) o',
    sys_pipe nb ce o = (0, (Z.of_nat r, Z.of_nat w), o') ∧
    r ≠ w ∧
    fd_lookup o (Z.of_nat r) = None ∧
    fd_lookup o (Z.of_nat w) = None ∧
    fd_lookup o' (Z.of_nat r)
      = Some {| fd_obj := PipeRd (length (os_pipes o)); fd_nonblock := nb; fd_cloexec := ce |} ∧
    fd_lookup o' (Z.of_nat w)
      = Some {| fd_obj := PipeWr (length (os_pipes o)); fd_nonblock := nb; fd_cloexec := ce |} ∧
    (∀ fd, fd ≠ Z.of_nat r → fd ≠ Z.of_nat w → fd_lookup o' fd = fd_lookup o fd) ∧
    os_pipes o' = os_pipes o ++ [[]].
Proof.
  intros Hroom. unfold sys_pipe.
  set (p := length (os_pipes o)).
  set (er := {| fd_obj := PipeRd p; fd_nonblock := nb; fd_cloexec := ce |}).
  set (ew := {| fd_obj := PipeWr p; fd_nonblock := nb; fd_cloexec := ce |}).
  set (r := fd_alloc (os_fds o)).
  set (fds1 := fd_install r er (os_fds o)).
  set (w := fd_alloc fds1).
  assert (w < os_fd_limit o)%nat as Hw.
  { unfold fd_room in Hroom. unfold w, fds1.
    rewrite (fd_alloc_shape _ (fd_install r std_file (os_fds o))); [done|].
    apply fd_install_shape. }
  rewrite decide_True by done.
  assert (r ≤ length (os_fds o))%nat as Hr by apply fd_alloc_le.
  assert (w ≤ length fds1)%nat as Hw1 by apply fd_alloc_le.
  assert (fds1 !! r = Some (Some er)) as Hfr by by apply fd_install_lookup_eq.
  assert (mjoin (fds1 !! w) = None) as Hfw by apply fd_alloc_free.
  assert (r ≠ w) as Hne. { intros E. rewrite <- E, Hfr in Hfw. done. }
  exists r, w, (set_os_pipes (os_pipes o ++ [[]])
                 (set_os_fds (fd_install w ew fds1) o)).
  split; [done|]. split; [done|].
  rewrite !fd_lookup_of_nat. simpl.
  split; [apply fd_alloc_free|].
  split. { rewrite <- Hfw. unfold fds1. symmetry. by apply fd_install_lookup_ne. }
  split. { rewrite fd_install_lookup_ne by done. by rewrite Hfr. }
  split. { by rewrite fd_install_lookup_eq. }
  split; [|done].
  intros fd H1 H2. unfold fd_lookup. simpl.
  destruct (fd <? 0) eqn:E; [done|].
  rewrite fd_install_lookup_ne by (try done; lia).
  unfold fds1. rewrite fd_install_lookup_ne by (try done; lia). done.
Qed.

Lemma sys_pipe_failure nb ce o : ¬ fd_room o → sys_pipe nb ce o = (-1, (0, 0), o).
Proof.
  intros Hroom. unfold sys_pipe. rewrite decide_False; [done|].
  intros Hw. apply Hroom. unfold fd_room.
  erewrite fd_alloc_shape; [exact Hw|]. apply fd_install_shape.
Qed.

(** Without two free descriptors the call of pipe2 fails: the failure is
    logged and [signal_pipe] keeps the descriptors it had. *)
Lemma open_signal_pipe_failure s :
  HAVE_PIPE2 = true → ¬ fd_room (os s) →
  open_signal_pipe s = log_message Log_pipe_bug s.
Proof.
  intros Hp Hroom. unfold open_signal_pipe. rewrite Hp.
  rewrite sys_pipe_failure by done. simpl. by destruct s.
Qed.

(** What [open_signal_pipe] never touches. *)
Lemma open_signal_pipe_frame s :
  let s' := open_signal_pipe s in
  signal_handler_func s' = signal_handler_func s ∧ signal_v s' = signal_v s ∧
  ign_sig s' = ign_sig s ∧ dfl_sig s' = dfl_sig s ∧ parent_sig s' = parent_sig s ∧
  same_signals (os s) (os s').
Proof.
  simpl. unfold open_signal_pipe.
  destruct HAVE_PIPE2.
  - pose proof (sys_pipe_frame true true (os s)) as Hf.
    destruct (sys_pipe true true (os s)) as [[n fds] o]. simpl in *.
    destruct (bool_decide (n = 0)), (bool_decide (n ≠ 0)); simpl; done.
  - pose proof (sys_pipe_frame false false (os s)) as Hf.
    destruct (sys_pipe false false (os s)) as [[n fds] o]. simpl in *.
    unfold sys_set_cloexec, sys_set_nonblock.
    destruct (bool_decide (n = 0)), (bool_decide (n ≠ 0)); simpl;
      do 5 (split; [done|]);
      repeat (eapply same_signals_trans; [|apply fd_update_frame]); done.
Qed.

(** When two descriptors are free, [open_signal_pipe] leaves in
    [signal_pipe] the two ends of a new, empty pipe, both non-blocking and
    close-on-exec, on descriptors that were not open. *)
Lemma open_signal_pipe_success s :
  fd_room (os s) →
  let s' := open_signal_pipe s in
  let p := length (os_pipes (os s)) in
  ∃ r w : Z,
    signal_pipe s' = (r, w) ∧ r ≠ w ∧
    fd_lookup (os s) r = None ∧ fd_lookup (os s) w = None ∧
    fd_lookup (os s') r
      = Some {| fd_obj := PipeRd p; fd_nonblock := true; fd_cloexec := true |} ∧
    fd_lookup (os s') w
      = Some {| fd_obj := PipeWr p; fd_nonblock := true; fd_cloexec := true |} ∧
    (∀ fd, fd ≠ r → fd ≠ w → fd_lookup (os s') fd = fd_lookup (os s) fd) ∧
    os_pipes (os s') = os_pipes (os s) ++ [[]] ∧
    trace s' = trace s.
Proof.
  intros Hroom. simpl. unfold open_signal_pipe.
  destruct HAVE_PIPE2.
  - destruct (sys_pipe_success true true (os s) Hroom)
      as (r & w & o' & -> & Hne & H1 & H2 & H3 & H4 & H5 & H6).
    simpl. exists (Z.of_nat r), (Z.of_nat w). repeat split; try done. lia.
  - destruct (sys_pipe_success false false (os s) Hroom)
      as (r & w & o' & -> & Hne & H1 & H2 & H3 & H4 & H5 & H6).
    simpl. exists (Z.of_nat r), (Z.of_nat w).
    assert (Z.of_nat r ≠ Z.of_nat w) as Hne' by lia.
    unfold sys_set_cloexec, sys_set_nonblock.
    repeat split; try done.
    + rewrite !fd_update_lookup. rewrite H3.
      repeat (case_decide; try done); congruence.
    + rewrite !fd_update_lookup. rewrite H4.
      repeat (case_decide; try done); congruence.
    + intros fd Hr Hw. rewrite !fd_update_lookup.
      repeat (case_decide; try done); try congruence. by apply H5.
    + by rewrite !fd_update_pipes.
Qed.

(** ** [sigaction] *)

Lemma disposition_rejected o sig : libc_accepts sig = false → disposition o sig = dfl_action.
Proof. intros H. unfold disposition. by rewrite H. Qed.

Lemma handler_accepted s sig : handler_of s sig ≠ SIG_DFL → libc_accepts sig = true.
Proof.
  unfold handler_of, disposition. destruct (libc_accepts sig); [done|].
  intros H. by destruct H.
Qed.

Lemma disposition_ext o o' sig :
  os_disp o = os_disp o' → disposition o sig = disposition o' sig.
Proof. intros H. unfold disposition. by rewrite H. Qed.

Lemma disposition_insert o sig sig' a :
  disposition (set_os_disp (<[sig := a]> (os_disp o)) o) sig'
  = if decide (sig = sig' ∧ libc_accepts sig = true) then a else disposition o sig'.
Proof.
  unfold disposition. simpl. destruct (decide (sig = sig')) as [<-|Hne].
  - destruct (libc_accepts sig) eqn:E.
    + rewrite decide_True by done. by rewrite lookup_insert_eq.
    + rewrite decide_False; [done|]. intros [_ ?]. done.
  - rewrite decide_False by tauto. destruct (libc_accepts sig'); [|done].
    by rewrite lookup_insert_ne.
Qed.

Lemma sys_sigaction_query sig o :
  sys_sigaction sig None o = (if libc_accepts sig then 0 else -1, disposition o sig, o).
Proof. unfold sys_sigaction. by destruct (libc_accepts sig). Qed.

Lemma sys_sigaction_set_disposition sig sig' a o :
  disposition (sys_sigaction sig (Some a) o).2 sig'
  = if decide (sig = sig' ∧ (sig ∉ os_refused o) ∧ libc_accepts sig = true)
    then a else disposition o sig'.
Proof.
  unfold sys_sigaction. destruct (libc_accepts sig) eqn:E; simpl.
  2:{ rewrite decide_False; [done|]. intros (_ & _ & ?). done. }
  destruct (decide (sig ∈ os_refused o)) as [Hr|Hr]; simpl.
  - rewrite decide_False; [done|]. naive_solver.
  - rewrite disposition_insert. apply decide_ext. tauto.
Qed.

Lemma sys_sigaction_frame sig act o :
  let o' := (sys_sigaction sig act o).2 in
  os_mask o' = os_mask o ∧ os_refused o' = os_refused o ∧ os_fds o' = os_fds o ∧
  os_fd_limit o' = os_fd_limit o ∧ os_pipes o' = os_pipes o ∧
  os_pipe_cap o' = os_pipe_cap o.
Proof.
  simpl. unfold sys_sigaction. destruct (libc_accepts sig); [|done]. simpl.
  destruct act; [|done].
  destruct (decide (sig ∈ os_refused o)); done.
Qed.

(** ** [signal_handler_init] *)

#[local] Arguments sys_sigaction : simpl never.

Ltac prop_solve :=
  repeat match goal with H : ∀ _ : Z, _ |- _ => clear H end;
  unfold handler_of in *; simpl in *;
  intuition (subst; eauto; congruence).


(** The loop of [signal_handler_init], from a state whose two remembered
    sets are empty. *)
Lemma signal_handler_init_loop sset s0 :
  (∀ sig, sig ∈ sset → libc_accepts sig = true) →
  ign_sig s0 = ∅ → dfl_sig s0 = ∅ →
  let s' := for_loop 1 SIGRTMAX (signal_handler_init_body sset ign_action) s0 in
  signal_handler_func s' = signal_handler_func s0 ∧ signal_v s' = signal_v s0 ∧
  signal_pipe s' = signal_pipe s0 ∧ parent_sig s' = parent_sig s0 ∧
  trace s' = trace s0 ∧
  os_mask (os s') = os_mask (os s0) ∧ os_refused (os s') = os_refused (os s0) ∧
  os_fds (os s') = os_fds (os s0) ∧ os_fd_limit (os s') = os_fd_limit (os s0) ∧
  os_pipes (os s') = os_pipes (os s0) ∧ os_pipe_cap (os s') = os_pipe_cap (os s0) ∧
  (∀ sig, sig ∈ ign_sig s' ↔
     1 ≤ sig ≤ SIGRTMAX ∧ sig ∈ sset ∧ handler_of s0 sig = SIG_IGN) ∧
  (∀ sig, sig ∈ dfl_sig s' ↔
     1 ≤ sig ≤ SIGRTMAX ∧ sig ∈ sset ∧ handler_of s0 sig ≠ SIG_IGN) ∧
  (∀ sig, disposition (os s') sig =
     if decide (1 ≤ sig ≤ SIGRTMAX ∧ sig ∈ sset ∧ handler_of s0 sig ≠ SIG_IGN
                ∧ sig ∉ os_refused (os s0))
     then ign_action else disposition (os s0) sig).
Proof.
  intros Hacc Hi Hd. simpl.
  set (Q := λ (l : list Z) (s' : state),
    signal_handler_func s' = signal_handler_func s0 ∧ signal_v s' = signal_v s0 ∧
    signal_pipe s' = signal_pipe s0 ∧ parent_sig s' = parent_sig s0 ∧
    trace s' = trace s0 ∧
    os_mask (os s') = os_mask (os s0) ∧ os_refused (os s') = os_refused (os s0) ∧
    os_fds (os s') = os_fds (os s0) ∧ os_fd_limit (os s') = os_fd_limit (os s0) ∧
    os_pipes (os s') = os_pipes (os s0) ∧ os_pipe_cap (os s') = os_pipe_cap (os s0) ∧
    (∀ sig, sig ∈ ign_sig s' ↔ sig ∈ l ∧ sig ∈ sset ∧ handler_of s0 sig = SIG_IGN) ∧
    (∀ sig, sig ∈ dfl_sig s' ↔ sig ∈ l ∧ sig ∈ sset ∧ handler_of s0 sig ≠ SIG_IGN) ∧
    (∀ sig, disposition (os s') sig =
       if decide (sig ∈ l ∧ sig ∈ sset ∧ handler_of s0 sig ≠ SIG_IGN
                  ∧ sig ∉ os_refused (os s0))
       then ign_action else disposition (os s0) sig)).
  assert (Q (seqZ 1 (SIGRTMAX - 1 + 1))
            (for_loop 1 SIGRTMAX (signal_handler_init_body sset ign_action) s0)) as HQ.
  { apply for_loop_ind.
    - unfold Q. split_and!; try done.
      + intros sig. rewrite Hi. set_solver.
      + intros sig. rewrite Hd. set_solver.
    - intros l' i a Hni Hr
        (H1 & H2 & H3 & H4 & H5 & H6 & H7 & H8 & H9 & H10 & H11 & Hign & Hdfl & Hdisp).
      assert (disposition (os a) i = disposition (os s0) i) as Hcur.
      { rewrite Hdisp. rewrite decide_False; [done|]. tauto. }
      unfold signal_handler_init_body.
      destruct (decide (i ∈ sset)) as [Hin|Hnin].
      2:{ rewrite bool_decide_eq_false_2 by done.
          unfold Q. split_and!; try done.
          - intros sig. rewrite Hign, elem_of_app, list_elem_of_singleton. prop_solve.
          - intros sig. rewrite Hdfl, elem_of_app, list_elem_of_singleton. prop_solve.
          - intros sig. rewrite Hdisp. apply decide_ext.
            rewrite elem_of_app, list_elem_of_singleton. prop_solve. }
      rewrite bool_decide_eq_true_2 by done. rewrite sys_sigaction_query.
      pose proof (Hacc i Hin) as Hai.
      unfold sigaddset. rewrite Hai. cbn [fst snd].
      assert (set_os (os a) a = a) as -> by (by destruct a).
      destruct (decide (sa_handler (disposition (os a) i) = SIG_IGN)) as [Hig|Hig].
      + rewrite bool_decide_eq_true_2 by done.
        rewrite Hcur in Hig.
        unfold Q. simpl. destruct a as [tf tv sp ig df pa o tr]. simpl in *.
        split_and!; try done.
        * intros sig.
          rewrite elem_of_union, elem_of_singleton, Hign, elem_of_app, list_elem_of_singleton.
          prop_solve.
        * intros sig. rewrite Hdfl, elem_of_app, list_elem_of_singleton. prop_solve.
        * intros sig. rewrite Hdisp. apply decide_ext.
          rewrite elem_of_app, list_elem_of_singleton. prop_solve.
      + rewrite bool_decide_eq_false_2 by done.
        rewrite Hcur in Hig.
        destruct a as [tf tv sp ig df pa o tr]. simpl in *.
        pose proof (sys_sigaction_frame i (Some ign_action) o) as Hfr. simpl in Hfr.
        pose proof (λ sig', sys_sigaction_set_disposition i sig' ign_action o) as Hsd.
        destruct (sys_sigaction i (Some ign_action) o) as [[ret oa] o'].
        simpl in *. destruct Hfr as (F1 & F2 & F3 & F4 & F5 & F6).
        unfold Q. simpl.
        split_and!; try congruence.
        * intros sig. rewrite Hign, elem_of_app, list_elem_of_singleton. prop_solve.
        * intros sig.
          rewrite elem_of_union, elem_of_singleton, Hdfl, elem_of_app, list_elem_of_singleton.
          prop_solve.
        * intros sig. rewrite Hsd, Hdisp. rewrite H7.
          repeat case_decide; try done; exfalso;
            rewrite ?elem_of_app, ?list_elem_of_singleton in *; prop_solve. }
  destruct HQ as
    (H1 & H2 & H3 & H4 & H5 & H6 & H7 & H8 & H9 & H10 & H11 & Hign & Hdfl & Hdisp).
  split_and!; try done.
  - intros sig. rewrite Hign, elem_of_loop_range. done.
  - intros sig. rewrite Hdfl, elem_of_loop_range. done.
  - intros sig. rewrite Hdisp. apply decide_ext.
    rewrite elem_of_loop_range. done.
Qed.

Lemma elem_of_sigfillset sig :
  sig ∈ sigfillset ↔ 1 ≤ sig ≤ SIGRTMAX ∧ libc_accepts sig = true.
Proof.
  unfold sigfillset. rewrite elem_of_list_to_set, list_elem_of_filter, elem_of_seqZ.
  split; [intros [? ?]|intros [? ?]]; split; first [done|lia].
Qed.

Lemma sigdelset_spec set sig :
  (∀ y, y ∈ set → libc_accepts y = true) →
  (∀ y, y ∈ sigdelset set sig → libc_accepts y = true) ∧
  (∀ x, x ∈ sigdelset set sig ↔ x ∈ set ∧ x ≠ sig).
Proof.
  intros Hs. unfold sigdelset. destruct (libc_accepts sig) eqn:E.
  - split.
    + intros y Hy. apply Hs. set_solver.
    + intros x. set_solver.
  - split; [done|]. intros x. split; [|tauto].
    intros Hx. split; [done|]. intros ->. apply Hs in Hx. congruence.
Qed.

Lemma elem_of_init_sset sig :
  sig ∈ init_sset ↔ 1 ≤ sig ≤ SIGRTMAX ∧ libc_accepts sig = true ∧ sig ∉ essential.
Proof.
  unfold init_sset.
  assert (∀ y, y ∈ sigfillset → libc_accepts y = true) as H0
    by (intros y Hy; by apply elem_of_sigfillset in Hy as [_ ?]).
  destruct (sigdelset_spec sigfillset SIGILL H0) as [H1 E1].
  destruct (sigdelset_spec _ SIGFPE H1) as [H2 E2].
  destruct (sigdelset_spec _ SIGSEGV H2) as [H3 E3].
  destruct (sigdelset_spec _ SIGBUS H3) as [H4 E4].
  destruct (sigdelset_spec _ SIGKILL H4) as [H5 E5].
  destruct (sigdelset_spec _ SIGSTOP H5) as [H6 E6].
  rewrite E6, E5, E4, E3, E2, E1, elem_of_sigfillset.
  unfold essential. rewrite !not_elem_of_union, !not_elem_of_singleton. tauto.
Qed.

(** [signal_handler_init] as a whole, in terms of the state it starts from. *)
Lemma signal_handler_init_spec s :
  let s' := signal_handler_init s in
  signal_handler_func s'
    = signal_handler_func (clear_signal_handler_addresses (open_signal_pipe s)) ∧
  signal_v s' = signal_v s ∧
  signal_pipe s' = signal_pipe (open_signal_pipe s) ∧
  parent_sig s' = ∅ ∧
  os_mask (os s') = os_mask (os s) ∧ os_refused (os s') = os_refused (os s) ∧
  os_fds (os s') = os_fds (os (open_signal_pipe s)) ∧
  os_pipes (os s') = os_pipes (os (open_signal_pipe s)) ∧
  os_pipe_cap (os s') = os_pipe_cap (os s) ∧
  trace s' = trace (open_signal_pipe s) ∧
  (∀ sig, sig ∈ ign_sig s' ↔
     1 ≤ sig ≤ SIGRTMAX ∧ (sig ∉ essential) ∧ handler_of s sig = SIG_IGN) ∧
  (∀ sig, sig ∈ dfl_sig s' ↔
     1 ≤ sig ≤ SIGRTMAX ∧ (sig ∉ essential) ∧ handler_of s sig ≠ SIG_IGN
     ∧ libc_accepts sig = true) ∧
  (∀ sig, disposition (os s') sig =
     if decide (1 ≤ sig ≤ SIGRTMAX ∧ (sig ∉ essential) ∧ handler_of s sig ≠ SIG_IGN
                ∧ (sig ∉ os_refused (os s)) ∧ libc_accepts sig = true)
     then ign_action else disposition (os s) sig).
Proof.
  simpl. unfold signal_handler_init. fold init_sset. unfold sigemptyset.
  set (sset := init_sset).
  set (s1 := open_signal_pipe s).
  set (s2 := clear_signal_handler_addresses s1).
  set (s0 := set_parent_sig ∅ (set_dfl_sig ∅ (set_ign_sig ∅ s2))).
  assert (∀ sig, sig ∈ sset → libc_accepts sig = true) as Hacc
    by (intros sig Hs; by apply elem_of_init_sset in Hs as (_ & ? & _)).
  destruct (open_signal_pipe_frame s) as (A1 & A2 & A3 & A4 & A5 & B1 & B2 & B3 & B4 & B5).
  fold s1 in A1, A2, A3, A4, A5, B1, B2, B3, B4, B5.
  destruct (clear_signal_handler_addresses_spec s1)
    as (C1 & C2 & C3 & C4 & C5 & C6 & C7 & C8 & C9).
  fold s2 in C1, C2, C3, C4, C5, C6, C7, C8, C9.
  destruct (signal_handler_init_loop sset s0 Hacc eq_refl eq_refl)
    as (H1 & H2 & H3 & H4 & H5 & H6 & H7 & H8 & H9 & H10 & H11 & Hign & Hdfl & Hdisp).
  change {| sa_handler := SIG_IGN; sa_flags := 0 |} with ign_action.
  assert (∀ sig, handler_of s0 sig = handler_of s sig) as Hh.
  { intros sig. unfold handler_of, disposition. simpl. by rewrite C6, B1. }
  assert (os_refused (os s0) = os_refused (os s)) as Hr.
  { simpl. by rewrite C6. }
  split_and!.
  - by rewrite H1.
  - rewrite H2. simpl. congruence.
  - rewrite H3. simpl. congruence.
  - by rewrite H4.
  - rewrite H6. simpl. congruence.
  - rewrite H7. done.
  - rewrite H8. simpl. congruence.
  - rewrite H10. simpl. congruence.
  - rewrite H11. simpl. congruence.
  - rewrite H5. simpl. congruence.
  - intros sig. rewrite Hign, Hh. unfold sset. rewrite elem_of_init_sset.
    split; [tauto|]. intros (? & ? & Hi).
    assert (libc_accepts sig = true) by (apply (handler_accepted s); by rewrite Hi).
    tauto.
  - intros sig. rewrite Hdfl, Hh. unfold sset. rewrite elem_of_init_sset. tauto.
  - intros sig. rewrite Hdisp, Hh, Hr.
    assert (disposition (os s0) sig = disposition (os s) sig) as ->.
    { unfold disposition. simpl. by rewrite C6, B1. }
    apply decide_ext. unfold sset. rewrite elem_of_init_sset. tauto.
Qed.

(** C5. [signal_handler_init], on a kernel that refuses only SIGKILL and
    SIGSTOP: every signal from 1 to SIGRTMAX that the C library accepts
    (the members of the set sigfillset gives) other than the six essential
    ones is remembered as ignored, with its disposition as it was, when it
    was ignored, and otherwise is remembered as default and now ignored;
    the six essential ones and the numbers the library does not accept are
    in neither set and keep their disposition; nothing else is remembered
    and the two sets are disjoint. *)
Theorem signal_handler_init_dispositions s :
  posix_kernel s →
  let s' := signal_handler_init s in
  (∀ sig, 1 ≤ sig ≤ SIGRTMAX → sig ∉ essential → libc_accepts sig = true →
     (handler_of s sig = SIG_IGN →
        sig ∈ ign_sig s' ∧ (sig ∉ dfl_sig s') ∧
        disposition (os s') sig = disposition (os s) sig) ∧
     (handler_of s sig ≠ SIG_IGN →
        sig ∈ dfl_sig s' ∧ (sig ∉ ign_sig s') ∧
        disposition (os s') sig = ign_action)) ∧
  (∀ sig, sig ∈ essential ∨ libc_accepts sig = false →
     (sig ∉ ign_sig s') ∧ (sig ∉ dfl_sig s') ∧
     disposition (os s') sig = disposition (os s) sig) ∧
  (∀ sig, sig ∈ ign_sig s' ∪ dfl_sig s' →
     1 ≤ sig ≤ SIGRTMAX ∧ (sig ∉ essential) ∧ libc_accepts sig = true) ∧
  ign_sig s' ## dfl_sig s'.
Proof.
  intros Hk. simpl.
  destruct (signal_handler_init_spec s)
    as (_ & _ & _ & _ & _ & _ & _ & _ & _ & _ & Hign & Hdfl & Hdisp).
  split_and!.
  - intros sig Hr He Ha. split.
    + intros Hh. split_and!.
      * apply Hign. done.
      * rewrite Hdfl. tauto.
      * rewrite Hdisp. rewrite decide_False; [done|]. tauto.
    + intros Hh. split_and!.
      * apply Hdfl. done.
      * rewrite Hign. tauto.
      * rewrite Hdisp. rewrite decide_True; [done|]. split_and!; try done; try lia.
        intros Hf. destruct (Hk sig Hr Hf) as [->| ->]; apply He; unfold essential;
          set_solver.
  - intros sig He.
    assert (libc_accepts sig = false → handler_of s sig ≠ SIG_IGN) as Hrej.
    { intros Ha Hh. unfold handler_of in Hh. by rewrite disposition_rejected in Hh. }
    split_and!.
    + rewrite Hign. intros (_ & ? & ?). destruct He as [?|Ha]; [done|]. by apply Hrej.
    + rewrite Hdfl. intros (_ & ? & _ & ?). destruct He as [?|Ha]; [done|congruence].
    + rewrite Hdisp. rewrite decide_False; [done|].
      intros (_ & ? & _ & _ & ?). destruct He as [?|Ha]; [done|congruence].
  - intros sig [H|H]%elem_of_union; [apply Hign in H|apply Hdfl in H].
    + destruct H as (? & ? & Hi).
      assert (libc_accepts sig = true) by (apply (handler_accepted s); by rewrite Hi).
      tauto.
    + tauto.
  - intros sig H1 H2. apply Hign in H1. apply Hdfl in H2. tauto.
Qed.

(** ** Loops that set dispositions *)

Lemma foldl_ext_inv {A B} (I : A → Prop) (f g : A → B → A) (l : list B) (a : A) :
  I a →
  (∀ a i, I a → f a i = g a i) →
  (∀ a i, I a → I (g a i)) →
  foldl f a l = foldl g a l ∧ I (foldl g a l).
Proof.
  intros Ha Hfg Hg. revert a Ha. induction l as [|i l IH]; intros a Ha; simpl.
  - done.
  - rewrite Hfg by done. apply IH. by apply Hg.
Qed.

Lemma set_action_loop_spec choose s :
  let s' := set_action_loop choose s in
  signal_handler_func s' = signal_handler_func s ∧ signal_v s' = signal_v s ∧
  signal_pipe s' = signal_pipe s ∧
  ign_sig s' = ign_sig s ∧ dfl_sig s' = dfl_sig s ∧ parent_sig s' = parent_sig s ∧
  trace s' = trace s ∧
  os_mask (os s') = os_mask (os s) ∧ os_refused (os s') = os_refused (os s) ∧
  os_fds (os s') = os_fds (os s) ∧ os_fd_limit (os s') = os_fd_limit (os s) ∧
  os_pipes (os s') = os_pipes (os s) ∧ os_pipe_cap (os s') = os_pipe_cap (os s) ∧
  (∀ sig, disposition (os s') sig =
     match choose sig with
     | Some act =>
         if decide (1 ≤ sig ≤ SIGRTMAX ∧ (sig ∉ os_refused (os s))
                    ∧ libc_accepts sig = true) then act
         else disposition (os s) sig
     | None => disposition (os s) sig
     end).
Proof.
  simpl. unfold set_action_loop.
  set (Q := λ (l : list Z) (s' : state),
    signal_handler_func s' = signal_handler_func s ∧ signal_v s' = signal_v s ∧
    signal_pipe s' = signal_pipe s ∧
    ign_sig s' = ign_sig s ∧ dfl_sig s' = dfl_sig s ∧ parent_sig s' = parent_sig s ∧
    trace s' = trace s ∧
    os_mask (os s') = os_mask (os s) ∧ os_refused (os s') = os_refused (os s) ∧
    os_fds (os s') = os_fds (os s) ∧ os_fd_limit (os s') = os_fd_limit (os s) ∧
    os_pipes (os s') = os_pipes (os s) ∧ os_pipe_cap (os s') = os_pipe_cap (os s) ∧
    (∀ sig, disposition (os s') sig =
       match choose sig with
       | Some act =>
           if decide (sig ∈ l ∧ (sig ∉ os_refused (os s))
                      ∧ libc_accepts sig = true) then act
           else disposition (os s) sig
       | None => disposition (os s) sig
       end)).
  match goal with |- context [for_loop 1 SIGRTMAX ?body s] =>
    assert (Q (seqZ 1 (SIGRTMAX - 1 + 1)) (for_loop 1 SIGRTMAX body s)) as HQ
  end.
  { apply for_loop_ind.
    - unfold Q. split_and!; try done.
      intros sig. destruct (choose sig); [|done].
      rewrite decide_False; [done|]. rewrite elem_of_nil. tauto.
    - intros l' i a Hni Hr
        (H1 & H2 & H3 & H4 & H5 & H6 & H7 & H8 & H9 & H10 & H11 & H12 & H13 & Hdisp).
      destruct (choose i) as [act|] eqn:Hc.
      + pose proof (sys_sigaction_frame i (Some act) (os a)) as Hfr. simpl in Hfr.
        pose proof (λ sig', sys_sigaction_set_disposition i sig' act (os a)) as Hsd.
        destruct (sys_sigaction i (Some act) (os a)) as [[ret oa] o'].
        simpl in *. destruct Hfr as (F1 & F2 & F3 & F4 & F5 & F6).
        unfold Q. simpl. split_and!; try congruence.
        intros sig. rewrite Hsd, Hdisp, H9.
        destruct (decide (i = sig)) as [<-|Hne].
        * rewrite Hc. repeat case_decide; try done; exfalso;
            rewrite ?elem_of_app, ?list_elem_of_singleton in *; tauto.
        * rewrite decide_False by tauto.
          destruct (choose sig); [|done]. apply decide_ext.
          rewrite elem_of_app, list_elem_of_singleton. intuition congruence.
      + unfold Q. split_and!; try done.
        intros sig. rewrite Hdisp. destruct (choose sig) as [act|] eqn:Hc'; [|done].
        apply decide_ext. rewrite elem_of_app, list_elem_of_singleton.
        intuition congruence. }
  destruct HQ as
    (H1 & H2 & H3 & H4 & H5 & H6 & H7 & H8 & H9 & H10 & H11 & H12 & H13 & Hdisp).
  split_and!; try done.
  intros sig. rewrite Hdisp. destruct (choose sig); [|done].
  apply decide_ext. by rewrite elem_of_loop_range.
Qed.

(** ** [signal_handler_script] *)

Lemma signal_handler_script_loop s :
  signal_handler_script s = set_action_loop (script_choice s) s.
Proof.
  unfold signal_handler_script, set_action_loop, for_loop.
  apply (foldl_ext_inv (λ a, ign_sig a = ign_sig s ∧ dfl_sig a = dfl_sig s)).
  - done.
  - intros a i [Hi Hd]. unfold script_choice. rewrite Hi, Hd.
    destruct (bool_decide (i ∈ ign_sig s)); [done|].
    destruct (bool_decide (i ∈ dfl_sig s)); done.
  - intros a i [Hi Hd]. destruct (script_choice s i); done.
Qed.

Lemma signal_handler_script_spec s :
  let s' := signal_handler_script s in
  ∀ sig, 1 ≤ sig ≤ SIGRTMAX → ¬ sigaction_fails s sig →
    (sig ∈ ign_sig s → disposition (os s') sig = ign_action) ∧
    (sig ∉ ign_sig s → sig ∈ dfl_sig s → disposition (os s') sig = dfl_action).
Proof.
  simpl. intros sig Hr Hf. rewrite signal_handler_script_loop.
  destruct (set_action_loop_spec (script_choice s) s)
    as (_ & _ & _ & _ & _ & _ & _ & _ & _ & _ & _ & _ & _ & Hdisp).
  apply sigaction_succeeds in Hf as [Ha Hnr].
  rewrite Hdisp. unfold script_choice. split.
  - intros Hi. rewrite bool_decide_eq_true_2 by done. by rewrite decide_True.
  - intros Hi Hd. rewrite bool_decide_eq_false_2 by done.
    rewrite bool_decide_eq_true_2 by done. by rewrite decide_True.
Qed.

(** ** Calls of the application *)

Lemma signal_set_frame signo func v s :
  let s' := (signal_set signo func v s).2 in
  ign_sig s' = ign_sig s ∧ dfl_sig s' = dfl_sig s ∧ signal_pipe s' = signal_pipe s ∧
  os_refused (os s') = os_refused (os s) ∧ os_fds (os s') = os_fds (os s) ∧
  os_fd_limit (os s') = os_fd_limit (os s) ∧ os_pipes (os s') = os_pipes (os s) ∧
  os_pipe_cap (os s') = os_pipe_cap (os s).
Proof.
  simpl. destruct (decide (1 ≤ signo ≤ SIG_MAX)) as [Hv|Hv].
  - rewrite signal_set_state by done. done.
  - rewrite signal_set_invalid by lia. done.
Qed.

Lemma run_calls_frame cs s :
  let s' := run_calls cs s in
  ign_sig s' = ign_sig s ∧ dfl_sig s' = dfl_sig s ∧
  os_refused (os s') = os_refused (os s).
Proof.
  simpl. revert s. induction cs as [|c cs IH]; intros s; [done|].
  unfold run_calls in *. simpl. destruct (IH (run_call s c)) as (-> & -> & ->).
  destruct c as [signo func v|signo]; simpl; unfold signal_ignore;
    pose proof (signal_set_frame signo) as Hf; simpl in Hf.
  - destruct (Hf func v s) as (-> & -> & _ & -> & _). done.
  - destruct (Hf SIG_IGN NULLV s) as (-> & -> & _ & -> & _). done.
Qed.

(** C6. After [signal_handler_init] and any calls of [signal_set] and
    [signal_ignore], on a kernel that refuses only SIGKILL and SIGSTOP,
    [signal_handler_script] leaves every signal of the remembered ignored
    set ignored and every signal of the remembered default set at its
    default action: a signal that init found ignored is ignored again, one
    it found at the default action has the default action again. *)
Theorem signal_handler_script_restores s0 cs :
  posix_kernel s0 →
  let s1 := signal_handler_init s0 in
  let s3 := signal_handler_script (run_calls cs s1) in
  (∀ sig, sig ∈ ign_sig s1 → disposition (os s3) sig = ign_action) ∧
  (∀ sig, sig ∈ dfl_sig s1 → disposition (os s3) sig = dfl_action) ∧
  (∀ sig, 1 ≤ sig ≤ SIGRTMAX → sig ∉ essential →
     (handler_of s0 sig = SIG_IGN → handler_of s3 sig = SIG_IGN) ∧
     (handler_of s0 sig = SIG_DFL → handler_of s3 sig = SIG_DFL)).
Proof.
  intros Hk. simpl.
  destruct (signal_handler_init_spec s0)
    as (_ & _ & _ & _ & _ & Hrf & _ & _ & _ & _ & Hign & Hdfl & _).
  destruct (run_calls_frame cs (signal_handler_init s0)) as (Ei & Ed & Er).
  pose proof (signal_handler_script_spec (run_calls cs (signal_handler_init s0))) as Hs.
  simpl in Hs. rewrite Ei, Ed in Hs.
  assert (∀ sig, 1 ≤ sig ≤ SIGRTMAX → sig ∉ essential → libc_accepts sig = true →
            ¬ sigaction_fails (run_calls cs (signal_handler_init s0)) sig) as Hok.
  { intros sig Hr He Ha. apply sigaction_succeeds. split; [done|].
    rewrite Er, Hrf. intros Hf.
    destruct (Hk sig Hr Hf) as [-> | ->]; apply He; unfold essential; set_solver. }
  assert (∀ sig, sig ∈ ign_sig (signal_handler_init s0) →
            sig ∉ dfl_sig (signal_handler_init s0)) as Hdisj.
  { intros sig H1 H2. apply Hign in H1. apply Hdfl in H2. tauto. }
  split_and!.
  - intros sig Hi. pose proof Hi as Hi'. apply Hign in Hi' as (Hr & He & Hh).
    assert (libc_accepts sig = true) as Ha
      by (apply (handler_accepted s0); by rewrite Hh).
    by apply (Hs sig Hr (Hok sig Hr He Ha)).
  - intros sig Hd. pose proof Hd as Hd'. apply Hdfl in Hd' as (Hr & He & _ & Ha).
    apply (Hs sig Hr (Hok sig Hr He Ha)); [|done]. intros Hi. by apply (Hdisj sig).
  - intros sig Hr He. destruct (libc_accepts sig) eqn:Ha.
    + destruct (Hs sig Hr (Hok sig Hr He Ha)) as [Hs1 Hs2]. split.
      * intros Hh. unfold handler_of at 1. rewrite Hs1; [done|]. apply Hign. done.
      * intros Hh. unfold handler_of at 1. rewrite Hs2; [done| |].
        -- rewrite Hign. rewrite Hh. intros (_ & _ & ?). done.
        -- apply Hdfl. rewrite Hh. done.
    + unfold handler_of. rewrite !disposition_rejected by done. done.
Qed.

(** ** [signal_handler_child_clear] *)

Lemma signal_handler_child_clear_loop s :
  signal_handler_child_clear s
  = clear_signal_handler_addresses
      (open_signal_pipe (set_action_loop (child_choice s) s)).
Proof.
  unfold signal_handler_child_clear, set_action_loop, for_loop.
  do 2 f_equal.
  apply (foldl_ext_inv (λ a, parent_sig a = parent_sig s)).
  - done.
  - intros a i Hp. unfold child_choice. rewrite Hp.
    destruct (bool_decide (i ∈ parent_sig s)); done.
  - intros a i Hp. destruct (child_choice s i); done.
Qed.

Lemma signal_handler_child_clear_disposition s sig :
  disposition (os (signal_handler_child_clear s)) sig
  = if decide (1 ≤ sig ≤ SIGRTMAX ∧ sig ∈ parent_sig s ∧ (sig ∉ os_refused (os s))
               ∧ libc_accepts sig = true)
    then ign_action else disposition (os s) sig.
Proof.
  rewrite signal_handler_child_clear_loop.
  set (s1 := set_action_loop (child_choice s) s).
  destruct (set_action_loop_spec (child_choice s) s)
    as (_ & _ & _ & _ & _ & _ & _ & _ & _ & _ & _ & _ & _ & Hdisp).
  fold s1 in Hdisp.
  destruct (open_signal_pipe_frame s1) as (_ & _ & _ & _ & _ & B1 & _).
  destruct (clear_signal_handler_addresses_spec (open_signal_pipe s1))
    as (_ & _ & _ & _ & _ & C6 & _).
  rewrite (disposition_ext _ (os s1)) by (by rewrite C6).
  rewrite Hdisp. unfold child_choice.
  destruct (decide (sig ∈ parent_sig s)) as [Hp|Hp].
  - rewrite bool_decide_eq_true_2 by done. apply decide_ext. tauto.
  - rewrite bool_decide_eq_false_2 by done. rewrite decide_False; [done|]. tauto.
Qed.

Lemma signal_handler_child_clear_wf s : wf s → wf (signal_handler_child_clear s).
Proof.
  intros [H1 H2]. rewrite signal_handler_child_clear_loop.
  apply clear_signal_handler_addresses_wf.
  destruct (set_action_loop_spec (child_choice s) s) as (E1 & E2 & _).
  destruct (open_signal_pipe_frame (set_action_loop (child_choice s) s))
    as (A1 & A2 & _).
  split; congruence.
Qed.

(** C7, as the code has it.  [signal_handler_child_clear] sets to ignore
    every signal of the parent-installed set that its loop reaches and the
    kernel lets it change; when two descriptors are free it leaves in
    [signal_pipe] the two ends of a new, empty pipe, non-blocking and
    close-on-exec, on descriptors that were not open; every callback of the
    table is null; the contexts of the table are the ones it found. *)
Theorem signal_handler_child_clear_resets s :
  wf s →
  fd_room (os s) →
  let s' := signal_handler_child_clear s in
  let p := length (os_pipes (os s)) in
  (∀ sig, sig ∈ parent_sig s → 1 ≤ sig ≤ SIGRTMAX → ¬ sigaction_fails s sig →
     disposition (os s') sig = ign_action) ∧
  (∃ r w : Z,
     signal_pipe s' = (r, w) ∧ r ≠ w ∧
     fd_lookup (os s) r = None ∧ fd_lookup (os s) w = None ∧
     fd_lookup (os s') r
       = Some {| fd_obj := PipeRd p; fd_nonblock := true; fd_cloexec := true |} ∧
     fd_lookup (os s') w
       = Some {| fd_obj := PipeWr p; fd_nonblock := true; fd_cloexec := true |} ∧
     os_pipes (os s') !! p = Some [] ∧
     self_pipe s' p []) ∧
  signal_handler_func s' = replicate (Z.to_nat SIG_MAX) NULL ∧
  (∀ sig, 1 ≤ sig ≤ SIG_MAX → slot_func s' sig = NULL) ∧
  signal_v s' = signal_v s.
Proof.
  intros Hwf Hroom. simpl. split_and!.
  - intros sig Hp Hr Hf. rewrite signal_handler_child_clear_disposition.
    apply sigaction_succeeds in Hf as [Ha Hnr]. by rewrite decide_True.
  - rewrite signal_handler_child_clear_loop.
    set (s1 := set_action_loop (child_choice s) s).
    destruct (set_action_loop_spec (child_choice s) s)
      as (_ & _ & _ & _ & _ & _ & _ & _ & _ & F10 & F11 & F12 & _).
    fold s1 in F10, F11, F12.
    assert (fd_room (os s1)) as Hroom1.
    { unfold fd_room in *. by rewrite F10, F11. }
    destruct (open_signal_pipe_success s1 Hroom1)
      as (r & w & G1 & G2 & G3 & G4 & G5 & G6 & G7 & G8 & G9).
    destruct (clear_signal_handler_addresses_spec (open_signal_pipe s1))
      as (_ & C2 & _ & _ & _ & C6 & _).
    assert (∀ fd, fd_lookup (os s1) fd = fd_lookup (os s) fd) as Hl.
    { intros fd. unfold fd_lookup. by rewrite F10. }
    rewrite F12 in G5, G6, G8.
    assert (os_pipes (os (open_signal_pipe s1)) !! length (os_pipes (os s)) = Some [])
      as Hp.
    { rewrite G8. rewrite lookup_app_r by lia. by rewrite Nat.sub_diag. }
    exists r, w. rewrite C2, C6. rewrite <- !Hl.
    split_and!; try done.
    unfold self_pipe. rewrite C2, C6, G1. simpl. rewrite G5, G6. done.
  - rewrite signal_handler_child_clear_loop.
    apply clear_signal_handler_addresses_table.
    destruct Hwf as [H1 H2].
    destruct (set_action_loop_spec (child_choice s) s) as (E1 & E2 & _).
    destruct (open_signal_pipe_frame (set_action_loop (child_choice s) s))
      as (A1 & A2 & _).
    split; congruence.
  - intros sig Hs. rewrite signal_handler_child_clear_loop.
    by apply clear_signal_handler_addresses_slot.
  - rewrite signal_handler_child_clear_loop.
    destruct (set_action_loop_spec (child_choice s) s) as (_ & E2 & _).
    destruct (open_signal_pipe_frame (set_action_loop (child_choice s) s))
      as (_ & A2 & _).
    destruct (clear_signal_handler_addresses_spec
                (open_signal_pipe (set_action_loop (child_choice s) s)))
      as (C1 & _).
    congruence.
Qed.

(** ** [signal_handler_destroy] *)

#[local] Arguments sys_close : simpl never.

Lemma signal_handlers_clear_frame st s :
  let s' := signal_handlers_clear st s in
  signal_pipe s' = signal_pipe s ∧ os_fds (os s') = os_fds (os s) ∧
  os_pipes (os s') = os_pipes (os s).
Proof.
  simpl. unfold signal_handlers_clear.
  pose proof (λ signo s, signal_set_frame signo st NULLV s) as Hf. simpl in Hf.
  assert (∀ signo s, 
    signal_pipe (signal_set signo st NULLV s).2 = signal_pipe s ∧
    os_fds (os (signal_set signo st NULLV s).2) = os_fds (os s) ∧
    os_pipes (os (signal_set signo st NULLV s).2) = os_pipes (os s)) as Hg.
  { intros signo s0. destruct (Hf signo s0) as (_ & _ & ? & _ & ? & _ & ? & _). done. }
  destruct WITH_JSON;
    repeat match goal with |- context [signal_set ?n st NULLV ?s0] =>
      let H1 := fresh in let H2 := fresh in let H3 := fresh in
      destruct (Hg n s0) as (H1 & H2 & H3); rewrite H1, H2, H3; clear H1 H2 H3
    end; done.
Qed.

Lemma signal_handler_destroy_os s :
  let s0 := signal_handlers_clear SIG_IGN s in
  signal_pipe (signal_handler_destroy s) = (-1, -1) ∧
  os (signal_handler_destroy s)
  = (sys_close (signal_pipe s).1 (sys_close (signal_pipe s).2 (os s0)).2).2.
Proof.
  simpl. destruct (signal_handlers_clear_frame SIG_IGN s) as (E1 & _).
  unfold signal_handler_destroy, set_signal_pipe, set_os. simpl. by rewrite E1.
Qed.

(** C8. [signal_handler_destroy] leaves -1 in both elements of
    [signal_pipe] and the two descriptors it held closed; called again, it
    leaves -1 in both, and the descriptor table and the pipes are exactly as
    the first call left them: its two calls of close are on -1, which is
    not a descriptor. *)
Theorem signal_handler_destroy_twice s :
  let s1 := signal_handler_destroy s in
  let s2 := signal_handler_destroy s1 in
  signal_pipe s1 = (-1, -1) ∧
  fd_open (os s1) (signal_pipe s).1 = false ∧
  fd_open (os s1) (signal_pipe s).2 = false ∧
  signal_pipe s2 = (-1, -1) ∧
  os_fds (os s2) = os_fds (os s1) ∧
  os_pipes (os s2) = os_pipes (os s1) ∧
  (∀ fd, fd_open (os s2) fd = fd_open (os s1) fd) ∧
  sys_close (-1) (os s1) = (-1, os s1).
Proof.
  cbv zeta.
  assert (∀ o, sys_close (-1) o = (-1, o)) as Hc.
  { intros o. unfold sys_close. by rewrite fd_lookup_neg by lia. }
  destruct (signal_handler_destroy_os s) as [P1 O1].
  destruct (signal_handler_destroy_os (signal_handler_destroy s)) as [P2 O2].
  destruct (signal_handlers_clear_frame SIG_IGN (signal_handler_destroy s))
    as (E1 & E2 & E3).
  rewrite P1 in O2. cbn [fst snd] in O2. rewrite !Hc in O2. cbn [fst snd] in O2.
  split_and!.
  - exact P1.
  - rewrite O1. apply fd_open_false.
    rewrite sys_close_lookup. by rewrite decide_True.
  - rewrite O1. apply fd_open_false.
    rewrite !sys_close_lookup.
    destruct (decide ((signal_pipe s).1 = (signal_pipe s).2)); [done|].
    by rewrite decide_True.
  - exact P2.
  - by rewrite O2, E2.
  - by rewrite O2, E3.
  - intros fd. unfold fd_open, fd_lookup. by rewrite O2, E2.
  - apply Hc.
Qed.

(** ** [signal_pipe_close] *)

Lemma guarded_close_lookup (c : bool) fd fd' (s : state) :
  fd_lookup (os (if c then set_os (sys_close fd (os s)).2 s else s)) fd'
  = if decide (c = true ∧ fd = fd') then None else fd_lookup (os s) fd'.
Proof.
  destruct c.
  - unfold set_os. cbn [os]. rewrite sys_close_lookup. apply decide_ext. tauto.
  - rewrite decide_False; [done|]. intros [? _]. done.
Qed.

Lemma close_guard fd min_fd :
  bool_decide (fd ≠ 0) && (fd >=? min_fd) = true ↔ fd ≠ 0 ∧ min_fd ≤ fd.
Proof.
  rewrite andb_true_iff, bool_decide_eq_true. 
  destruct (Z.geb_spec fd min_fd); intuition (try lia; try done).
Qed.

Lemma close_guard_false fd min_fd :
  bool_decide (fd ≠ 0) && (fd >=? min_fd) = false ↔ ¬ (fd ≠ 0 ∧ min_fd ≤ fd).
Proof. rewrite <- close_guard. symmetry. apply not_true_iff_false. Qed.

Lemma signal_pipe_close_lookup min_fd s fd' :
  fd_lookup (os (signal_pipe_close min_fd s)) fd' =
  if decide ((fd' = (signal_pipe s).1 ∨ fd' = (signal_pipe s).2)
             ∧ fd' ≠ 0 ∧ min_fd ≤ fd')
  then None else fd_lookup (os s) fd'.
Proof.
  unfold signal_pipe_close.
  destruct s as [tf tv [p1 p2] ig df pa o tr].
  cbn [signal_pipe os set_os fst snd].
  destruct (bool_decide (p1 ≠ 0) && (p1 >=? min_fd)) eqn:E1;
    [apply close_guard in E1|apply close_guard_false in E1];
    cbn [signal_pipe os set_os fst snd];
    (destruct (bool_decide (p2 ≠ 0) && (p2 >=? min_fd)) eqn:E2;
      [apply close_guard in E2|apply close_guard_false in E2]);
    cbn [signal_pipe os set_os fst snd];
    rewrite ?sys_close_lookup;
    repeat case_decide; try done; exfalso; lia.
Qed.

(** C9, as the code has it.  [signal_pipe_close min_fd] closes a descriptor
    of [signal_pipe] exactly when it is open, is not 0 and is at least
    [min_fd]; it touches no other descriptor. *)
Theorem signal_pipe_close_spec min_fd s fd :
  fd = (signal_pipe s).1 ∨ fd = (signal_pipe s).2 →
  let s' := signal_pipe_close min_fd s in
  (closed_by s s' fd ↔ fd_open (os s) fd = true ∧ fd ≠ 0 ∧ min_fd ≤ fd) ∧
  (fd_open (os s) fd = true →
     (fd_open (os s') fd = false ↔ fd ≠ 0 ∧ min_fd ≤ fd)) ∧
  (∀ fd', fd' ≠ (signal_pipe s).1 → fd' ≠ (signal_pipe s).2 →
     fd_lookup (os s') fd' = fd_lookup (os s) fd').
Proof.
  intros Hfd. simpl.
  pose proof (signal_pipe_close_lookup min_fd s) as Hl.
  assert (fd_open (os s) fd = true →
          fd_open (os (signal_pipe_close min_fd s)) fd = false ↔ fd ≠ 0 ∧ min_fd ≤ fd)
    as Hmain.
  { intros Ho. rewrite fd_open_false, Hl. apply fd_open_true in Ho as [e He].
    case_decide; [tauto|]. rewrite He. split; [done|]. tauto. }
  split_and!.
  - unfold closed_by. split.
    + intros [Ho Hc]. split; [done|]. by apply Hmain.
    + intros [Ho Hc]. split; [done|]. by apply Hmain.
  - done.
  - intros fd' N1 N2. rewrite Hl. rewrite decide_False; [done|]. tauto.
Qed.

(** ** The trampoline and the dispatch *)

Lemma self_pipe_write_end s p buf :
  self_pipe s p buf →
  ∃ e, fd_lookup (os s) (signal_pipe s).2 = Some e ∧ fd_obj e = PipeWr p.
Proof.
  intros (_ & Hw & _). destruct (fd_lookup (os s) (signal_pipe s).2) as [e|]; [|done].
  exists e. split; [done|]. by injection Hw.
Qed.

Lemma self_pipe_read_end s p buf :
  self_pipe s p buf →
  ∃ e, fd_lookup (os s) (signal_pipe s).1 = Some e ∧ fd_obj e = PipeRd p.
Proof.
  intros (Hr & _ & _). destruct (fd_lookup (os s) (signal_pipe s).1) as [e|]; [|done].
  exists e. split; [done|]. by injection Hr.
Qed.

(** A write that finds room appends the number to the pipe and does
    nothing else. *)
Lemma signal_handler_room sig s p buf :
  self_pipe s p buf →
  Z.of_nat (length buf) < os_pipe_cap (os s) →
  signal_handler sig s
  = set_os (set_os_pipes (<[p := buf ++ [sig]]> (os_pipes (os s))) (os s)) s.
Proof.
  intros Hsp Hroom. destruct (self_pipe_write_end s p buf Hsp) as (e & He & Ho).
  destruct Hsp as (_ & _ & Hb).
  unfold signal_handler, sys_write. rewrite He.
  destruct e as [obj nb ce]. simpl in Ho. subst obj.
  rewrite Hb. by rewrite decide_True.
Qed.

(** A write on a full pipe fails: the number is lost and the failure is
    logged. *)
Lemma signal_handler_full sig s p buf :
  self_pipe s p buf →
  os_pipe_cap (os s) ≤ Z.of_nat (length buf) →
  signal_handler sig s = log_message Log_write_bug s.
Proof.
  intros Hsp Hfull. destruct (self_pipe_write_end s p buf Hsp) as (e & He & Ho).
  destruct Hsp as (_ & _ & Hb).
  unfold signal_handler, sys_write. rewrite He.
  destruct e as [obj nb ce]. simpl in Ho. subst obj.
  rewrite Hb. rewrite decide_False by lia. by destruct s.
Qed.

Lemma self_pipe_set_buffer s p buf buf' :
  self_pipe s p buf →
  self_pipe (set_os (set_os_pipes (<[p := buf']> (os_pipes (os s))) (os s)) s) p buf'.
Proof.
  intros (Hr & Hw & Hb). unfold self_pipe. simpl. split_and!; try done.
  apply list_lookup_insert_eq. by eapply lookup_lt_Some.
Qed.

Lemma self_pipe_emit s p buf e : self_pipe s p buf → self_pipe (emit e s) p buf.
Proof. done. Qed.

Lemma deliver_all_room sigs s p buf :
  self_pipe s p buf →
  Z.of_nat (length buf + length sigs) ≤ os_pipe_cap (os s) →
  let s' := deliver_all sigs s in
  self_pipe s' p (buf ++ sigs) ∧
  signal_handler_func s' = signal_handler_func s ∧ signal_v s' = signal_v s ∧
  trace s' = trace s ∧ os_pipe_cap (os s') = os_pipe_cap (os s).
Proof.
  simpl. revert s buf. induction sigs as [|sig sigs IH]; intros s buf Hsp Hroom.
  - simpl. by rewrite app_nil_r.
  - unfold deliver_all. simpl. fold (deliver_all sigs (signal_handler sig s)).
    simpl in Hroom.
    rewrite (signal_handler_room sig s p buf) by (try done; lia).
    pose proof (self_pipe_set_buffer s p buf (buf ++ [sig]) Hsp) as Hsp'.
    destruct (IH _ _ Hsp') as (I1 & I2 & I3 & I4 & I5).
    { simpl. rewrite length_app. simpl. lia. }
    rewrite <- (assoc_L (++)) in I1. simpl in I1. done.
Qed.

Lemma run_one_expected sig s :
  run_one sig s
  = match expected_call s sig with Some e => emit e s | None => s end.
Proof.
  unfold run_one, expected_call.
  destruct (Z.leb_spec 1 sig), (Z.leb_spec sig SIG_MAX); simpl;
    try (rewrite decide_False by lia; done).
  destruct (decide (slot_func s sig ≠ NULL)) as [Hn|Hn].
  - rewrite bool_decide_eq_true_2 by done. by rewrite decide_True.
  - rewrite bool_decide_eq_false_2 by done. rewrite decide_False; [done|]. tauto.
Qed.

Lemma expected_calls_ext s s' sigs :
  signal_handler_func s' = signal_handler_func s → signal_v s' = signal_v s →
  expected_calls s' sigs = expected_calls s sigs.
Proof.
  intros H1 H2. unfold expected_calls, expected_call, slot_func, slot_v.
  by rewrite H1, H2.
Qed.

(** The loop of [signal_run_callback] ends once the pipe is empty, having
    run the expected call of each record, oldest first. *)
Lemma signal_run_callback_drains fuel s p buf :
  self_pipe s p buf →
  (length buf < fuel)%nat →
  ∃ s', signal_run_callback fuel s = Some s' ∧
        self_pipe s' p [] ∧
        trace s' = trace s ++ expected_calls s buf ∧
        signal_handler_func s' = signal_handler_func s ∧ signal_v s' = signal_v s.
Proof.
  revert fuel s. induction buf as [|sig buf IH]; intros fuel s Hsp Hfuel.
  - destruct fuel as [|fuel]; [simpl in Hfuel; lia|].
    destruct (self_pipe_read_end s p [] Hsp) as (e & He & Ho).
    pose proof Hsp as (_ & _ & Hb).
    simpl. unfold sys_read. rewrite He.
    destruct e as [obj nb ce]. simpl in Ho. subst obj. rewrite Hb.
    exists (set_os (os s) s). split; [done|]. destruct s. simpl.
    rewrite app_nil_r. done.
  - destruct fuel as [|fuel]; [simpl in Hfuel; lia|].
    destruct (self_pipe_read_end s p _ Hsp) as (e & He & Ho).
    pose proof Hsp as (_ & _ & Hb).
    simpl. unfold sys_read. rewrite He.
    destruct e as [obj nb ce]. simpl in Ho. subst obj. rewrite Hb.
    set (s1 := set_os (set_os_pipes (<[p := buf]> (os_pipes (os s))) (os s)) s).
    pose proof (self_pipe_set_buffer s p _ buf Hsp) as Hsp1. fold s1 in Hsp1.
    assert (expected_call s1 sig = expected_call s sig) as Hx by done.
    rewrite run_one_expected, Hx.
    destruct (expected_call s sig) as [e|].
    + destruct (IH fuel (emit e s1)) as (s' & R1 & R2 & R3 & R4 & R5).
      { by apply self_pipe_emit. }
      { simpl in Hfuel. lia. }
      exists s'. split; [done|]. split; [done|].
      rewrite R3, R4, R5. simpl.
      rewrite (expected_calls_ext s (emit e s1)) by done.
      by rewrite <- (assoc_L (++)).
    + destruct (IH fuel s1) as (s' & R1 & R2 & R3 & R4 & R5).
      { done. }
      { simpl in Hfuel. lia. }
      exists s'. split; [done|]. split; [done|].
      rewrite R3, R4, R5. simpl.
      by rewrite (expected_calls_ext s s1).
Qed.

Lemma expected_calls_replicate s n k :
  1 ≤ n ≤ SIG_MAX → slot_func s n ≠ NULL →
  expected_calls s (replicate k n) = replicate k (Call (slot_func s n) (slot_v s n) n).
Proof.
  intros Hr Hn. unfold expected_calls. induction k as [|k IH]; [done|].
  simpl. unfold expected_call at 1. rewrite decide_True by done. simpl. by f_equal.
Qed.

Lemma expected_call_none s sig :
  sig < 1 ∨ SIG_MAX < sig ∨ slot_func s sig = NULL → expected_call s sig = None.
Proof.
  intros H. unfold expected_call. rewrite decide_False; [done|].
  intros [? ?]. destruct H as [?|[?|?]]; [lia|lia|done].
Qed.

(** C1, as the code has it.  When [signal_pipe] holds the two ends of a
    pipe and the pipe has room for the numbers delivered, so that every
    write of the trampoline completes, [signal_run_callback] returns with
    the pipe empty, having invoked, in the order the numbers were written,
    the callback of each number in range whose slot holds one, with the
    context of the slot and the number; a number out of range or with a
    null callback invokes nothing.  So a signal with a callback, delivered
    k times to an empty pipe, is invoked exactly k times. *)
Theorem signal_run_callback_fifo s p buf sigs fuel :
  self_pipe s p buf →
  Z.of_nat (length buf + length sigs) ≤ os_pipe_cap (os s) →
  (length buf + length sigs < fuel)%nat →
  ∃ s', signal_run_callback fuel (deliver_all sigs s) = Some s' ∧
        self_pipe s' p [] ∧
        trace s' = trace s ++ expected_calls s (buf ++ sigs) ∧
        (∀ sig, sig < 1 ∨ SIG_MAX < sig ∨ slot_func s sig = NULL →
                expected_call s sig = None) ∧
        (∀ sig, 1 ≤ sig ≤ SIG_MAX → slot_func s sig ≠ NULL →
                expected_call s sig = Some (Call (slot_func s sig) (slot_v s sig) sig)) ∧
        (∀ n k, 1 ≤ n ≤ SIG_MAX → slot_func s n ≠ NULL →
                buf = [] → sigs = replicate k n →
                trace s' = trace s ++ replicate k (Call (slot_func s n) (slot_v s n) n)).
Proof.
  intros Hsp Hroom Hfuel.
  destruct (deliver_all_room sigs s p buf Hsp Hroom) as (D1 & D2 & D3 & D4 & D5).
  destruct (signal_run_callback_drains fuel (deliver_all sigs s) p (buf ++ sigs) D1)
    as (s' & R1 & R2 & R3 & R4 & R5).
  { rewrite length_app. lia. }
  exists s'. rewrite R3, D4. rewrite (expected_calls_ext s _ _ D2 D3).
  split_and!; try done.
  - apply expected_call_none.
  - intros sig Hr Hn. unfold expected_call. by rewrite decide_True.
  - intros n k Hr Hn -> ->. simpl. by rewrite expected_calls_replicate.
Qed.

(** ** The invariant of the registration table *)

Lemma slot_func_ext s s' sig :
  signal_handler_func s' = signal_handler_func s → slot_func s' sig = slot_func s sig.
Proof. intros H. unfold slot_func. by rewrite H. Qed.

Lemma table_inv_ext s s' :
  signal_handler_func s' = signal_handler_func s →
  os_disp (os s') = os_disp (os s) →
  table_inv s → table_inv s'.
Proof.
  intros H1 H2 Hi sig Hr. rewrite (slot_func_ext s s') by done.
  unfold handler_of, disposition. rewrite H2. by apply Hi.
Qed.

Lemma active_not_null func : active func = true → func ≠ NULL.
Proof. unfold active. intros H ->. done. Qed.

Lemma inactive_handler func :
  active func = false → func = SIG_IGN ∨ func = SIG_DFL.
Proof.
  unfold active. intros H. apply negb_false_iff, orb_true_iff in H.
  destruct H as [H|H]; apply bool_decide_eq_true in H; tauto.
Qed.

Lemma signal_set_table_inv signo func v s :
  wf s → table_inv s → (1 ≤ signo ≤ SIG_MAX → ¬ sigaction_fails s signo) →
  table_inv (signal_set signo func v s).2.
Proof.
  intros Hwf Hi Hf.
  destruct (decide (1 ≤ signo ≤ SIG_MAX)) as [Hv|Hv].
  2:{ rewrite signal_set_invalid by lia. by apply (table_inv_ext s). }
  specialize (Hf Hv).
  rewrite signal_set_state by done.
  destruct (slot_index_lt s signo Hwf Hv) as [L1 L2].
  intros sig Hr. unfold slot_func, handler_of, disposition, signal_set_result. simpl.
  apply sigaction_succeeds in Hf as [Hacc Hnr]. rewrite Hacc. simpl.
  rewrite bool_decide_eq_false_2 by done.
  destruct (decide (sig = signo)) as [->|Hne].
  - rewrite Hacc. rewrite list_lookup_insert_eq by done. rewrite lookup_insert_eq. simpl.
    destruct (active func) eqn:Ha.
    + split; [done|]. intros _. by apply active_not_null.
    + split; [done|]. by destruct (inactive_handler func Ha) as [-> | ->].
  - rewrite list_lookup_insert_ne by lia. rewrite lookup_insert_ne by done.
    by apply Hi.
Qed.

Lemma signal_handlers_clear_fold st s :
  signal_handlers_clear st s
  = foldl (λ s sig, (signal_set sig st NULLV s).2) s cleared_signals.
Proof. unfold signal_handlers_clear, cleared_signals. by destruct WITH_JSON. Qed.

Lemma signal_handlers_clear_table_inv st s :
  wf s → table_inv s →
  (∀ sig, sig ∈ cleared_signals → 1 ≤ sig ≤ SIG_MAX → ¬ sigaction_fails s sig) →
  let s' := signal_handlers_clear st s in
  wf s' ∧ table_inv s'.
Proof.
  simpl. rewrite signal_handlers_clear_fold.
  generalize cleared_signals. intros l. revert s.
  induction l as [|sig l IH]; intros s Hwf Hi Hf; [done|].
  simpl. apply IH.
  - by apply signal_set_wf.
  - apply signal_set_table_inv; try done. apply Hf. set_solver.
  - intros sig' Hin Hr'. unfold sigaction_fails.
    destruct (signal_set_frame sig st NULLV s) as (_ & _ & _ & -> & _).
    apply (Hf sig'); [set_solver|done].
Qed.

Lemma signal_handler_destroy_table_inv s :
  wf s → table_inv s →
  (∀ sig, sig ∈ cleared_signals → 1 ≤ sig ≤ SIG_MAX → ¬ sigaction_fails s sig) →
  wf (signal_handler_destroy s) ∧ table_inv (signal_handler_destroy s).
Proof.
  intros Hwf Hi Hf.
  destruct (signal_handlers_clear_table_inv SIG_IGN s Hwf Hi Hf) as [Hwf' Hi'].
  unfold signal_handler_destroy. split.
  - done.
  - eapply table_inv_ext; [| |exact Hi']; [done|]. simpl.
    pose proof sys_close_frame as Hc. simpl in Hc.
    destruct (Hc (signal_pipe (signal_handlers_clear SIG_IGN s)).2
                (os (signal_handlers_clear SIG_IGN s))) as (E1 & _).
    destruct (Hc (signal_pipe (signal_handlers_clear SIG_IGN s)).1
      (sys_close (signal_pipe (signal_handlers_clear SIG_IGN s)).2
                (os (signal_handlers_clear SIG_IGN s))).2) as (E2 & _).
    by rewrite E2, E1.
Qed.

Lemma signal_handler_init_wf s : wf s → wf (signal_handler_init s).
Proof.
  intros [H1 H2].
  destruct (signal_handler_init_spec s) as (E1 & E2 & _).
  destruct (open_signal_pipe_frame s) as (A1 & A2 & _).
  destruct (clear_signal_handler_addresses_spec (open_signal_pipe s))
    as (_ & _ & _ & _ & _ & _ & _ & C8 & _).
  split; congruence.
Qed.

Lemma signal_handler_init_table_inv s :
  (∀ sig, routed s sig →
     1 ≤ sig ≤ SIGRTMAX ∧ (sig ∉ essential) ∧ ¬ sigaction_fails s sig) →
  table_inv (signal_handler_init s).
Proof.
  intros Hpre sig Hr.
  destruct (signal_handler_init_spec s)
    as (E1 & _ & _ & _ & _ & _ & _ & _ & _ & _ & _ & _ & Hdisp).
  rewrite (slot_func_ext _ _ sig E1).
  rewrite clear_signal_handler_addresses_slot by done.
  unfold handler_of. rewrite Hdisp.
  split; [done|]. intros Hh. exfalso.
  case_decide as Hc; [done|].
  destruct (Hpre sig) as (R1 & R2 & R3); [done|].
  apply sigaction_succeeds in R3 as [Ra Rr].
  apply Hc. split; [done|]. split; [done|].
  split; [unfold handler_of; by rewrite Hh|done].
Qed.

Lemma signal_handler_child_clear_table_inv s :
  (∀ sig, routed s sig →
     1 ≤ sig ≤ SIGRTMAX ∧ sig ∈ parent_sig s ∧ ¬ sigaction_fails s sig) →
  table_inv (signal_handler_child_clear s).
Proof.
  intros Hpre sig Hr.
  unfold handler_of. rewrite signal_handler_child_clear_disposition.
  rewrite signal_handler_child_clear_loop.
  rewrite clear_signal_handler_addresses_slot by done.
  split; [done|]. intros Hh. exfalso.
  case_decide as Hc; [done|].
  destruct (Hpre sig) as (R1 & R2 & R3); [done|].
  apply sigaction_succeeds in R3 as [Ra Rr].
  apply Hc. done.
Qed.

(** C3, as the code has it.  Each operation takes a well-formed state in
    which a slot holds a callback exactly when its signal is routed through
    the trampoline to such a state again, provided the calls of sigaction
    it makes succeed and, for the two resets, their loop reaches every
    signal routed through the trampoline (for init: none of them is one of
    the six essential signals or above SIGRTMAX; for the child reset: each
    is in the parent-installed set and not above SIGRTMAX). *)
Theorem operations_preserve_table_inv op s :
  wf s →
  table_inv s →
  op_pre op s →
  wf (run_op op s) ∧ table_inv (run_op op s).
Proof.
  intros Hwf Hi Hpre. destruct op as [signo func v|signo| | |]; simpl in *.
  - split; [by apply signal_set_wf|by apply signal_set_table_inv].
  - unfold signal_ignore.
    split; [by apply signal_set_wf|by apply signal_set_table_inv].
  - split; [by apply signal_handler_init_wf|by apply signal_handler_init_table_inv].
  - split; [by apply signal_handler_child_clear_wf
           |by apply signal_handler_child_clear_table_inv].
  - by apply signal_handler_destroy_table_inv.
Qed.

Lemma table_inv_b_spec s : table_inv_b s = true ↔ table_inv s.
Proof.
  unfold table_inv_b, table_inv. rewrite forallb_forall. split.
  - intros H sig Hr.
    assert (In sig (seqZ 1 SIG_MAX)) as Hin.
    { apply list_elem_of_In, elem_of_seqZ. lia. }
    specialize (H sig Hin). apply eqb_prop in H.
    destruct (decide (slot_func s sig = NULL)) as [Hn|Hn].
    + rewrite bool_decide_eq_true_2 in H by done. simpl in H. symmetry in H.
      apply bool_decide_eq_false in H. tauto.
    + rewrite bool_decide_eq_false_2 in H by done. simpl in H. symmetry in H.
      apply bool_decide_eq_true in H. tauto.
  - intros H sig Hin. apply list_elem_of_In, elem_of_seqZ in Hin.
    assert (1 ≤ sig ≤ SIG_MAX) as Hr by lia. specialize (H sig Hr).
    destruct (decide (slot_func s sig = NULL)) as [Hn|Hn].
    + rewrite bool_decide_eq_true_2 by done.
      rewrite bool_decide_eq_false_2 by tauto. done.
    + rewrite bool_decide_eq_false_2 by done.
      rewrite bool_decide_eq_true_2 by tauto. done.
Qed.

Lemma calls_replicate k f v sig :
  calls (replicate k (Call f v sig)) = replicate k (Call f v sig).
Proof.
  unfold calls. induction k as [|k IH]; [done|].
  simpl. rewrite filter_cons_True by done. by f_equal.
Qed.

(** One delivery more than the pipe holds: the last write fails, its
    number is lost, and the dispatch invokes the callback once per record
    that was written. *)
Lemma deliver_overflow s p n sig :
  self_pipe s p [] →
  os_pipe_cap (os s) = Z.of_nat n →
  1 ≤ sig ≤ SIG_MAX →
  slot_func s sig ≠ NULL →
  ∃ s', signal_run_callback (S (S n)) (deliver_all (replicate (S n) sig) s) = Some s' ∧
        trace s' = trace s ++ Log_write_bug
                               :: replicate n (Call (slot_func s sig) (slot_v s sig) sig).
Proof.
  intros Hsp Hcap Hr Hf.
  rewrite replicate_S_end.
  unfold deliver_all. rewrite foldl_snoc. fold (deliver_all (replicate n sig) s).
  destruct (deliver_all_room (replicate n sig) s p [] Hsp) as (D1 & D2 & D3 & D4 & D5).
  { rewrite Hcap, length_replicate. simpl. lia. }
  simpl in D1.
  rewrite (signal_handler_full sig _ p (replicate n sig) D1)
    by (rewrite D5, Hcap, length_replicate; lia).
  destruct (signal_run_callback_drains (S (S n))
              (log_message Log_write_bug (deliver_all (replicate n sig) s))
              p (replicate n sig))
    as (s' & R1 & R2 & R3 & R4 & R5).
  { by apply self_pipe_emit. }
  { rewrite length_replicate. lia. }
  exists s'. split; [exact R1|].
  rewrite R3. simpl. rewrite D4. rewrite <- (assoc_L (++)). simpl. do 2 f_equal.
  rewrite (expected_calls_ext s) by done.
  by rewrite expected_calls_replicate.
Qed.

End Properties.

(** * Further properties of the operations *)

Section Coverage.
Context `{P : Platform}.

(** ** [signal_set]: what one call does to the rest *)

Lemma slot_index_ne (sig sig' : Z) :
  1 ≤ sig → 1 ≤ sig' → sig ≠ sig' → Z.to_nat (sig - 1) ≠ Z.to_nat (sig' - 1).
Proof. lia. Qed.

Lemma signal_set_other signo func v s sig :
  1 ≤ sig → sig ≠ signo →
  let s' := (signal_set signo func v s).2 in
  slot_func s' sig = slot_func s sig ∧ slot_v s' sig = slot_v s sig ∧
  disposition (os s') sig = disposition (os s) sig ∧
  (blocked s' sig ↔ blocked s sig) ∧
  (sig ∈ parent_sig s' ↔ sig ∈ parent_sig s).
Proof.
  intros Hs Hne. simpl.
  destruct (decide (1 ≤ signo ≤ SIG_MAX)) as [Hv|Hv].
  2:{ rewrite signal_set_invalid by lia. done. }
  rewrite signal_set_state by done.
  unfold slot_func, slot_v, disposition, blocked, signal_set_result, sigaddset,
    sigemptyset. simpl.
  rewrite !list_lookup_insert_ne by (apply slot_index_ne; lia).
  split; [done|]. split; [done|]. split.
  - destruct (negb (libc_accepts signo) || bool_decide (signo ∈ os_refused (os s)));
      [done|].
    destruct (libc_accepts sig); [|done]. by rewrite lookup_insert_ne.
  - destruct (active func),
      (negb (libc_accepts signo) || bool_decide (signo ∈ os_refused (os s))),
      (libc_accepts signo); split; set_solver.
Qed.

(** X1. Registering, ignoring or resetting one signal leaves every other
    signal as it was: its callback, its context, its disposition, whether it
    is blocked and whether it is in the parent-installed set. *)
Theorem signal_set_leaves_other_signals signo func v s sig :
  1 ≤ sig → sig ≠ signo →
  let s' := (signal_set signo func v s).2 in
  slot_func s' sig = slot_func s sig ∧ slot_v s' sig = slot_v s sig ∧
  disposition (os s') sig = disposition (os s) sig ∧
  (blocked s' sig ↔ blocked s sig) ∧
  (sig ∈ parent_sig s' ↔ sig ∈ parent_sig s).
Proof. apply signal_set_other. Qed.

(** X2. When sigaction succeeds, [signal_set] returns the handler the system
    had for the signal: after an earlier registration that is the address of
    the trampoline, never the earlier callback; and for a signal that had
    the default action it is the null pointer, the value returned for a
    signal number out of range as well. *)
Theorem signal_set_returns_system_handler signo func v s :
  1 ≤ signo ≤ SIG_MAX →
  ¬ sigaction_fails s signo →
  (signal_set signo func v s).1 = handler_of s signo ∧
  (active func = true →
     ∀ func' v', (signal_set signo func' v' (signal_set signo func v s).2).1
                 = Fn_signal_handler) ∧
  (handler_of s signo = SIG_DFL →
     ∀ bad, bad < 1 ∨ SIG_MAX < bad →
       (signal_set signo func v s).1 = (signal_set bad func v s).1).
Proof.
  intros Hv Hf. apply sigaction_succeeds in Hf as [Hacc Hf].
  assert (∀ f w t, signo ∉ os_refused (os t) →
            (signal_set signo f w t).1 = handler_of t signo) as Hret.
  { intros f w t Ht. rewrite signal_set_valid by done. simpl.
    rewrite Hacc. simpl. by rewrite bool_decide_eq_false_2. }
  split; [by apply Hret|]. split.
  - intros Ha func' v'.
    destruct (signal_set_frame signo func v s) as (_ & _ & _ & Hr & _).
    rewrite Hret by (by rewrite Hr).
    rewrite signal_set_state by done.
    unfold handler_of, disposition, signal_set_result. simpl.
    rewrite Hacc. simpl.
    rewrite bool_decide_eq_false_2 by done. rewrite lookup_insert_eq. simpl.
    by rewrite Ha.
  - intros Hd bad Hbad. rewrite Hret by done. rewrite Hd.
    by rewrite (signal_set_invalid bad) by done.
Qed.

(** X3. When sigaction succeeds, registering a callback leaves the signal
    unblocked even if the caller had it blocked before the call (the old
    mask is not restored); with one of the two sentinels the mask is not
    touched. *)
Theorem signal_set_mask signo func v s :
  1 ≤ signo ≤ SIG_MAX →
  ¬ sigaction_fails s signo →
  os_mask (os (signal_set signo func v s).2)
  = if active func then os_mask (os s) ∖ {[ signo ]} else os_mask (os s).
Proof.
  intros Hv Hf. apply sigaction_succeeds in Hf as [Hacc Hf].
  rewrite signal_set_state by done.
  unfold signal_set_result, sigaddset, sigemptyset. simpl.
  rewrite Hacc. simpl. rewrite bool_decide_eq_false_2 by done.
  destruct (active func); [|done]. set_solver.
Qed.

(** ** The trampoline *)

(** X4. The trampoline touches nothing but one pipe and the log: the table,
    the contexts, the descriptors in [signal_pipe], the three sets, the
    dispositions, the mask and the descriptor table are as before; either
    one record was appended to a pipe, or nothing was written and the
    failure was logged (the production build, where the assertion after the
    write expands to nothing). *)
Theorem signal_handler_touches_only_pipe sig s :
  let s' := signal_handler sig s in
  signal_handler_func s' = signal_handler_func s ∧ signal_v s' = signal_v s ∧
  signal_pipe s' = signal_pipe s ∧
  ign_sig s' = ign_sig s ∧ dfl_sig s' = dfl_sig s ∧ parent_sig s' = parent_sig s ∧
  os_disp (os s') = os_disp (os s) ∧ os_mask (os s') = os_mask (os s) ∧
  os_refused (os s') = os_refused (os s) ∧ os_fds (os s') = os_fds (os s) ∧
  ((trace s' = trace s ∧
    ∃ p buf, os_pipes (os s) !! p = Some buf ∧
             os_pipes (os s') = <[p := buf ++ [sig]]> (os_pipes (os s))) ∨
   (trace s' = trace s ++ [Log_write_bug] ∧ os_pipes (os s') = os_pipes (os s))).
Proof.
  simpl. unfold signal_handler, sys_write.
  destruct (fd_lookup (os s) (signal_pipe s).2) as [[[p|p|] nb ce]|];
    try (simpl; split_and!; try done; by right).
  destruct (os_pipes (os s) !! p) as [buf|] eqn:Hb;
    try (simpl; split_and!; try done; by right).
  case_decide; simpl; split_and!; try done; [left|by right].
  split; [done|]. by exists p, buf.
Qed.

(** X5. Deliveries to the self-pipe in general: the pipe takes the numbers,
    in order, as long as it has room; each later one is lost and logged.
    Nothing is reordered and nothing is overwritten. *)
Theorem deliver_all_fills_pipe sigs s p buf :
  self_pipe s p buf →
  let s' := deliver_all sigs s in
  self_pipe s' p (buf ++ take (pipe_room s buf) sigs) ∧
  trace s' = trace s ++ replicate (length sigs - pipe_room s buf) Log_write_bug ∧
  signal_handler_func s' = signal_handler_func s ∧ signal_v s' = signal_v s.
Proof.
  simpl. revert s buf. induction sigs as [|sig sigs IH]; intros s buf Hsp.
  - simpl. rewrite take_nil, !app_nil_r. done.
  - unfold deliver_all. simpl. fold (deliver_all sigs (signal_handler sig s)).
    destruct (decide (Z.of_nat (length buf) < os_pipe_cap (os s))) as [Hroom|Hfull].
    + rewrite (signal_handler_room sig s p buf) by done.
      pose proof (self_pipe_set_buffer s p buf (buf ++ [sig]) Hsp) as Hsp'.
      destruct (IH _ _ Hsp') as (I1 & I2 & I3 & I4).
      assert (pipe_room s buf = S (pipe_room
                (set_os (set_os_pipes (<[p:=buf ++ [sig]]> (os_pipes (os s))) (os s)) s)
                (buf ++ [sig]))) as Hr.
      { unfold pipe_room. simpl. rewrite length_app. simpl. lia. }
      rewrite Hr. simpl. rewrite <- (assoc_L (++)) in I1. done.
    + rewrite (signal_handler_full sig s p buf) by (try done; lia).
      destruct (IH (emit Log_write_bug s) buf) as (I1 & I2 & I3 & I4).
      { by apply self_pipe_emit. }
      assert (pipe_room s buf = 0%nat) as Hr by (unfold pipe_room; lia).
      assert (pipe_room (emit Log_write_bug s) buf = 0%nat) as Hr'
        by (unfold pipe_room; simpl; lia).
      rewrite Hr' in I1, I2. rewrite Hr. rewrite take_0 in *.
      split; [done|]. split; [|done].
      rewrite I2. simpl. rewrite <- (assoc_L (++)). simpl.
      by rewrite !Nat.sub_0_r.
Qed.

(** ** The dispatch *)

Lemma signal_run_callback_frame fuel s s' :
  signal_run_callback fuel s = Some s' →
  signal_handler_func s' = signal_handler_func s ∧ signal_v s' = signal_v s ∧
  signal_pipe s' = signal_pipe s ∧
  ign_sig s' = ign_sig s ∧ dfl_sig s' = dfl_sig s ∧ parent_sig s' = parent_sig s ∧
  os_disp (os s') = os_disp (os s) ∧ os_mask (os s') = os_mask (os s) ∧
  os_refused (os s') = os_refused (os s) ∧ os_fds (os s') = os_fds (os s).
Proof.
  revert s. induction fuel as [|fuel IH]; intros s H; [done|].
  simpl in H.
  assert (∀ o, (sys_read (signal_pipe s).1 (os s)).2 = o →
            os_disp o = os_disp (os s) ∧ os_mask o = os_mask (os s) ∧
            os_refused o = os_refused (os s) ∧ os_fds o = os_fds (os s)) as Hrd.
  { intros o <-. unfold sys_read.
    destruct (fd_lookup (os s) (signal_pipe s).1) as [[[p|p|] nb ce]|]; try done.
    by destruct (os_pipes (os s) !! p) as [[|x buf]|]. }
  destruct (sys_read (signal_pipe s).1 (os s)) as [[sig|] o] eqn:Hr.
  - destruct (Hrd o eq_refl) as (R1 & R2 & R3 & R4).
    apply IH in H. rewrite run_one_expected in H.
    destruct (expected_call (set_os o s) sig); simpl in H;
      destruct H as (?&?&?&?&?&?&?&?&?&?); split_and!; congruence.
  - destruct (Hrd o eq_refl) as (R1 & R2 & R3 & R4).
    injection H as <-. simpl. done.
Qed.

Lemma signal_run_callback_empty fuel s p :
  self_pipe s p [] → signal_run_callback (S fuel) s = Some s.
Proof.
  intros Hsp. destruct (self_pipe_read_end s p [] Hsp) as (e & He & Ho).
  destruct Hsp as (_ & _ & Hb).
  simpl. unfold sys_read. rewrite He.
  destruct e as [obj nb ce]. simpl in Ho. subst obj. rewrite Hb.
  by destruct s.
Qed.

(** X6. The dispatch returns once the pipe is empty, having changed nothing
    but the pipe and the trace: the table, the contexts, the remembered
    sets, the dispositions, the mask and the descriptors are as before. A
    second dispatch right after it invokes nothing and changes nothing. *)
Theorem signal_run_callback_then_idle s p buf fuel fuel' :
  self_pipe s p buf →
  (length buf < fuel)%nat →
  ∃ s', signal_run_callback fuel s = Some s' ∧
        signal_run_callback (S fuel') s' = Some s' ∧
        signal_handler_func s' = signal_handler_func s ∧ signal_v s' = signal_v s ∧
        signal_pipe s' = signal_pipe s ∧
        ign_sig s' = ign_sig s ∧ dfl_sig s' = dfl_sig s ∧
        parent_sig s' = parent_sig s ∧
        os_disp (os s') = os_disp (os s) ∧ os_mask (os s') = os_mask (os s) ∧
        os_fds (os s') = os_fds (os s).
Proof.
  intros Hsp Hfuel.
  destruct (signal_run_callback_drains fuel s p buf Hsp Hfuel)
    as (s' & R1 & R2 & _).
  destruct (signal_run_callback_frame fuel s s' R1)
    as (F1 & F2 & F3 & F4 & F5 & F6 & F7 & F8 & F9 & F10).
  exists s'. split; [exact R1|]. split; [by eapply signal_run_callback_empty|].
  done.
Qed.

Lemma expected_call_after_set signo func v s sig :
  wf s → 1 ≤ signo ≤ SIG_MAX →
  expected_call (signal_set signo func v s).2 sig
  = expected_call_after s signo func v sig.
Proof.
  intros Hwf Hv. unfold expected_call_after.
  destruct (decide (sig = signo)) as [->|Hne].
  - rewrite signal_set_state by done.
    destruct (slot_index_lt s signo Hwf Hv) as [L1 L2].
    unfold expected_call, slot_func, slot_v, signal_set_result. simpl.
    rewrite !list_lookup_insert_eq by done. simpl.
    destruct (active func) eqn:Ha.
    + rewrite decide_True; [done|]. split; [done|]. by apply active_not_null.
    + rewrite decide_False; [done|]. tauto.
  - unfold expected_call.
    destruct (decide (1 ≤ sig)) as [Hs|Hs].
    + destruct (signal_set_other signo func v s sig Hs Hne) as (-> & -> & _). done.
    + rewrite !decide_False; [done| |]; lia.
Qed.

(** X7. The dispatch reads the table as it is when it runs, not as it was
    when the signal arrived: for records of a signal whose registration
    changed in between, it invokes the new callback with the new context,
    and nothing at all once the signal has been set to ignore or default;
    the other records are dispatched as before. *)
Theorem signal_run_callback_after_signal_set s p buf signo func v fuel :
  wf s →
  self_pipe s p buf →
  1 ≤ signo ≤ SIG_MAX →
  (length buf < fuel)%nat →
  ∃ s', signal_run_callback fuel (signal_set signo func v s).2 = Some s' ∧
        trace s' = trace s ++ omap (expected_call_after s signo func v) buf.
Proof.
  intros Hwf Hsp Hv Hfuel.
  assert (∀ l : list Z, omap (expected_call (signal_set signo func v s).2) l
               = omap (expected_call_after s signo func v) l) as Hext.
  { intros l. apply list_omap_ext, Forall_Forall2_diag, Forall_forall.
    intros sig _. by apply expected_call_after_set. }
  destruct (signal_set_frame signo func v s) as (_ & _ & E3 & _ & E5 & _ & E7 & _).
  assert (self_pipe (signal_set signo func v s).2 p buf) as Hsp'.
  { destruct Hsp as (H1 & H2 & H3). unfold self_pipe, fd_lookup.
    rewrite E3, E5, E7. done. }
  destruct (signal_run_callback_drains fuel _ p buf Hsp' Hfuel)
    as (s' & R1 & _ & R3 & _).
  exists s'. split; [exact R1|]. rewrite R3.
  assert (trace (signal_set signo func v s).2 = trace s) as ->.
  { by rewrite signal_set_state. }
  f_equal. apply Hext.
Qed.

(** ** [signal_handler_destroy] and [get_signum] *)

Lemma signal_handler_destroy_tables s :
  signal_handler_func (signal_handler_destroy s)
    = signal_handler_func (signal_handlers_clear SIG_IGN s) ∧
  signal_v (signal_handler_destroy s) = signal_v (signal_handlers_clear SIG_IGN s) ∧
  os_disp (os (signal_handler_destroy s))
    = os_disp (os (signal_handlers_clear SIG_IGN s)).
Proof.
  split; [done|]. split; [done|].
  destruct (signal_handler_destroy_os s) as [_ ->].
  pose proof sys_close_frame as Hc. simpl in Hc.
  rewrite (proj1 (Hc _ _)). by rewrite (proj1 (Hc _ _)).
Qed.

Lemma signal_handlers_clear_other st s sig :
  1 ≤ sig → sig ∉ cleared_signals →
  let s' := signal_handlers_clear st s in
  slot_func s' sig = slot_func s sig ∧ slot_v s' sig = slot_v s sig ∧
  disposition (os s') sig = disposition (os s) sig.
Proof.
  intros Hs. simpl. rewrite signal_handlers_clear_fold.
  generalize cleared_signals. intros l. revert s.
  induction l as [|sig' l IH]; intros s Hni; [done|].
  simpl. destruct (IH (signal_set sig' st NULLV s).2) as (-> & -> & ->); [set_solver|].
  destruct (signal_set_other sig' st NULLV s sig) as (-> & -> & -> & _);
    [done|set_solver|done].
Qed.

(** X8. [signal_handler_destroy] resets only the signals of its list: a
    callback registered for any other signal stays in its slot, with its
    context, and the signal stays routed as it was. *)
Theorem signal_handler_destroy_leaves_other_signals s sig :
  1 ≤ sig → sig ∉ cleared_signals →
  let s' := signal_handler_destroy s in
  slot_func s' sig = slot_func s sig ∧ slot_v s' sig = slot_v s sig ∧
  disposition (os s') sig = disposition (os s) sig.
Proof.
  intros Hs Hni. cbv zeta.
  destruct (signal_handler_destroy_tables s) as (E1 & E2 & E3).
  destruct (signal_handlers_clear_other SIG_IGN s sig Hs Hni) as (F1 & F2 & F3).
  unfold slot_func, slot_v, disposition in *. by rewrite E1, E2, E3.
Qed.

Lemma closed_pipe_inert s :
  signal_pipe s = (-1, -1) →
  (∀ sig, signal_handler sig s = log_message Log_write_bug s) ∧
  (∀ fuel, signal_run_callback (S fuel) s = Some s).
Proof.
  intros Hp. split.
  - intros sig. unfold signal_handler, sys_write. rewrite Hp.
    rewrite (fd_lookup_neg _ (-1, -1).2) by (simpl; lia). by destruct s.
  - intros fuel. simpl. unfold sys_read. rewrite Hp.
    rewrite (fd_lookup_neg _ (-1, -1).1) by (simpl; lia). by destruct s.
Qed.

(** X9. After [signal_handler_destroy] the subsystem is inert: a dispatch
    returns at once without invoking anything, and a signal that still
    reaches the trampoline is logged as a write failure and lost. *)
Theorem signal_handler_destroy_inert s sig fuel :
  let s' := signal_handler_destroy s in
  signal_run_callback (S fuel) s' = Some s' ∧
  signal_handler sig s' = log_message Log_write_bug s' ∧
  signal_run_callback (S fuel) (signal_handler sig s')
    = Some (log_message Log_write_bug s').
Proof.
  cbv zeta.
  destruct (closed_pipe_inert (signal_handler_destroy s)) as [H1 H2];
    [apply signal_handler_destroy_os|].
  split; [apply H2|]. split; [apply H1|].
  rewrite H1.
  destruct (closed_pipe_inert (log_message Log_write_bug (signal_handler_destroy s)))
    as [_ H3]; [done|]. apply H3.
Qed.

Lemma get_signum_cleared name : get_signum name = -1 ∨ get_signum name ∈ cleared_signals.
Proof.
  unfold get_signum, cleared_signals.
  repeat (case_bool_decide; [right; set_solver|]).
  destruct WITH_JSON; simpl; [|by left].
  case_bool_decide; [right; set_solver|by left].
Qed.

Lemma signal_set_ignore_effect sig v s :
  wf s → 1 ≤ sig ≤ SIG_MAX → ¬ sigaction_fails s sig →
  let s' := (signal_set sig SIG_IGN v s).2 in
  slot_func s' sig = NULL ∧ slot_v s' sig = NULLV ∧
  disposition (os s') sig = {| sa_handler := SIG_IGN; sa_flags := Z.lor 0 SA_RESTART |}.
Proof.
  intros Hwf Hv Hf. simpl. apply sigaction_succeeds in Hf as [Hacc Hf].
  destruct (slot_index_lt s sig Hwf Hv) as [L1 L2].
  rewrite signal_set_state by done.
  unfold slot_func, slot_v, disposition, signal_set_result. simpl.
  rewrite Hacc. simpl. rewrite bool_decide_eq_false_2 by done.
  rewrite !list_lookup_insert_eq by done. by rewrite lookup_insert_eq.
Qed.

Lemma signal_handlers_clear_effect s sig :
  wf s → sig ∈ cleared_signals → 1 ≤ sig ≤ SIG_MAX → ¬ sigaction_fails s sig →
  let s' := signal_handlers_clear SIG_IGN s in
  slot_func s' sig = NULL ∧ slot_v s' sig = NULLV ∧
  disposition (os s') sig = {| sa_handler := SIG_IGN; sa_flags := Z.lor 0 SA_RESTART |}.
Proof.
  intros Hwf Hin Hv Hf. simpl. rewrite signal_handlers_clear_fold.
  set (Q := λ t : state,
    slot_func t sig = NULL ∧ slot_v t sig = NULLV ∧
    disposition (os t) sig = {| sa_handler := SIG_IGN; sa_flags := Z.lor 0 SA_RESTART |}).
  assert (∀ l t, wf t → ¬ sigaction_fails t sig → sig ∈ l ∨ Q t →
            Q (foldl (λ s sig, (signal_set sig SIG_IGN NULLV s).2) t l)) as Hall.
  { induction l as [|sig' l IH]; intros t Ht Hft Hor.
    - destruct Hor as [Hor|Hor]; [by apply elem_of_nil in Hor|done].
    - simpl. apply IH.
      + by apply signal_set_wf.
      + unfold sigaction_fails.
        by destruct (signal_set_frame sig' SIG_IGN NULLV t) as (_ & _ & _ & -> & _).
      + destruct (decide (sig' = sig)) as [->|Hne].
        * right. by apply signal_set_ignore_effect.
        * destruct Hor as [Hor|Hor]; [left; set_solver|]. right.
          destruct Hor as (Q1 & Q2 & Q3). unfold Q.
          destruct (signal_set_other sig' SIG_IGN NULLV t sig) as (-> & -> & -> & _);
            [lia|done|done]. }
  apply Hall; [done|done|by left].
Qed.

(** X10. Every signal a configuration keyword stands for is one of the
    signals [signal_handler_destroy] resets: after it the slot of the signal
    is empty (callback and context null) and the signal is ignored. *)
Theorem get_signum_reset_by_destroy name s :
  wf s →
  1 ≤ get_signum name ≤ SIG_MAX →
  ¬ sigaction_fails s (get_signum name) →
  let s' := signal_handler_destroy s in
  get_signum name ∈ cleared_signals ∧
  slot_func s' (get_signum name) = NULL ∧ slot_v s' (get_signum name) = NULLV ∧
  handler_of s' (get_signum name) = SIG_IGN.
Proof.
  intros Hwf Hv Hf. cbv zeta.
  assert (get_signum name ∈ cleared_signals) as Hin.
  { destruct (get_signum_cleared name) as [H|H]; [lia|done]. }
  split; [exact Hin|].
  destruct (signal_handler_destroy_tables s) as (E1 & E2 & E3).
  destruct (signal_handlers_clear_effect s _ Hwf Hin Hv Hf) as (F1 & F2 & F3).
  unfold handler_of, slot_func, slot_v, disposition in *.
  rewrite E1, E2, E3. rewrite F1, F2, F3. done.
Qed.

(** ** [signal_handler_init] and the self-pipe *)

Lemma signal_handler_init_pipe s :
  fd_room (os s) →
  let s1 := signal_handler_init s in
  let p := length (os_pipes (os s)) in
  self_pipe s1 p [] ∧
  fd_lookup (os s) (signal_rfd s1) = None ∧
  fd_lookup (os s1) (signal_rfd s1)
    = Some {| fd_obj := PipeRd p; fd_nonblock := true; fd_cloexec := true |} ∧
  trace s1 = trace s.
Proof.
  intros Hroom. cbv zeta.
  destruct (signal_handler_init_spec s)
    as (_ & _ & E3 & _ & _ & _ & E7 & E8 & _ & E10 & _).
  destruct (open_signal_pipe_success s Hroom)
    as (r & w & G1 & G2 & G3 & G4 & G5 & G6 & G7 & G8 & G9).
  assert (∀ fd, fd_lookup (os (signal_handler_init s)) fd
                = fd_lookup (os (open_signal_pipe s)) fd) as Hl.
  { intros fd. unfold fd_lookup. by rewrite E7. }
  unfold self_pipe, signal_rfd. rewrite E3, G1, !Hl, E8, E10, G8. simpl.
  rewrite G5, G6. split_and!; try done.
  rewrite lookup_app_r by lia. by rewrite Nat.sub_diag.
Qed.

(** X11. [signal_handler_init], when two descriptors are free: [signal_rfd]
    is the read end, on a descriptor that was not open, non-blocking and
    close-on-exec, of a new empty pipe whose write end the trampoline uses;
    every callback of the table is null and the parent-installed set is
    empty; the contexts and the signal mask are as they were. *)
Theorem signal_handler_init_resets s :
  fd_room (os s) →
  let s1 := signal_handler_init s in
  let p := length (os_pipes (os s)) in
  self_pipe s1 p [] ∧
  fd_lookup (os s) (signal_rfd s1) = None ∧
  fd_lookup (os s1) (signal_rfd s1)
    = Some {| fd_obj := PipeRd p; fd_nonblock := true; fd_cloexec := true |} ∧
  (∀ sig, 1 ≤ sig ≤ SIG_MAX → slot_func s1 sig = NULL) ∧
  parent_sig s1 = ∅ ∧
  signal_v s1 = signal_v s ∧
  os_mask (os s1) = os_mask (os s).
Proof.
  intros Hroom. cbv zeta.
  destruct (signal_handler_init_pipe s Hroom) as (H1 & H2 & H3 & _).
  destruct (signal_handler_init_spec s) as (E1 & E2 & _ & E4 & E5 & _).
  split_and!; try done.
  intros sig Hr. rewrite (slot_func_ext _ _ sig E1).
  by apply clear_signal_handler_addresses_slot.
Qed.

(** X12. Through the empty self-pipe, what the trampoline writes is what the
    next read on [signal_rfd] returns, and that read leaves the system as it
    was before the delivery. *)
Theorem signal_rfd_reads_delivery s p sig :
  self_pipe s p [] →
  0 < os_pipe_cap (os s) →
  sys_read (signal_rfd s) (os (signal_handler sig s)) = (Some sig, os s).
Proof.
  intros Hsp Hcap.
  rewrite (signal_handler_room sig s p []) by (try done; simpl; lia).
  destruct (self_pipe_read_end s p [] Hsp) as (e & He & Ho).
  destruct Hsp as (_ & _ & Hb).
  unfold sys_read, signal_rfd. simpl.
  assert (fd_lookup (set_os_pipes (<[p:=[sig]]> (os_pipes (os s))) (os s))
            (signal_pipe s).1 = Some e) as -> by done.
  destruct e as [obj nb ce]. simpl in Ho. subst obj. simpl.
  rewrite list_lookup_insert_eq by (by eapply lookup_lt_Some).
  rewrite list_insert_insert_eq. rewrite list_insert_id by done.
  by destruct (os s).
Qed.

(** X13. A second [signal_handler_init] forgets the default dispositions: on
    a kernel that refuses only SIGKILL and SIGSTOP, after it every signal
    from 1 to SIGRTMAX that the C library accepts, outside the six essential
    ones, is remembered as ignored and none as default (the numbers the
    library does not accept are in neither set, as after the first call),
    so [signal_handler_script] then leaves ignored the signals that had the
    default action at start-up. *)
Theorem signal_handler_init_twice s :
  posix_kernel s →
  let s2 := signal_handler_init (signal_handler_init s) in
  (∀ sig, sig ∈ ign_sig s2 ↔
     1 ≤ sig ≤ SIGRTMAX ∧ (sig ∉ essential) ∧ libc_accepts sig = true) ∧
  (∀ sig, sig ∉ dfl_sig s2) ∧
  (∀ sig, 1 ≤ sig ≤ SIGRTMAX → sig ∉ essential → libc_accepts sig = true →
     handler_of (signal_handler_script s2) sig = SIG_IGN).
Proof.
  intros Hk. cbv zeta.
  destruct (signal_handler_init_spec s)
    as (_ & _ & _ & _ & _ & Hr1 & _ & _ & _ & _ & _ & _ & Hd1).
  destruct (signal_handler_init_spec (signal_handler_init s))
    as (_ & _ & _ & _ & _ & Hr2 & _ & _ & _ & _ & Hi2 & Hdf2 & _).
  assert (∀ sig, 1 ≤ sig ≤ SIGRTMAX → sig ∉ essential → sig ∉ os_refused (os s)) as Hok.
  { intros sig Hr He Hf.
    destruct (Hk sig Hr Hf) as [-> | ->]; apply He; unfold essential; set_solver. }
  assert (∀ sig, 1 ≤ sig ≤ SIGRTMAX → sig ∉ essential → libc_accepts sig = true →
            handler_of (signal_handler_init s) sig = SIG_IGN) as Hig.
  { intros sig Hr He Ha. unfold handler_of at 1. rewrite Hd1.
    destruct (decide (handler_of s sig = SIG_IGN)) as [Hh|Hh].
    - rewrite decide_False by tauto. exact Hh.
    - rewrite decide_True; [done|]. split_and!; try done; try lia. by apply Hok. }
  assert (∀ sig, sig ∈ ign_sig (signal_handler_init (signal_handler_init s))
                 ↔ 1 ≤ sig ≤ SIGRTMAX ∧ (sig ∉ essential) ∧ libc_accepts sig = true)
    as Hi.
  { intros sig. rewrite Hi2. split.
    - intros (Hr & He & Hh). split; [done|]. split; [done|].
      apply (handler_accepted (signal_handler_init s)). by rewrite Hh.
    - intros (Hr & He & Ha). split; [done|]. split; [done|]. by apply Hig. }
  split; [exact Hi|]. split.
  - intros sig Hin. apply Hdf2 in Hin as (Hr & He & Hn & Ha). apply Hn. by apply Hig.
  - intros sig Hr He Ha.
    destruct (signal_handler_script_spec
                (signal_handler_init (signal_handler_init s)) sig Hr) as [Hs _].
    { apply sigaction_succeeds. split; [done|]. rewrite Hr2, Hr1. by apply Hok. }
    unfold handler_of. rewrite Hs; [done|]. by apply Hi.
Qed.

(** ** The remembered dispositions outlive everything but a new init *)

Lemma signal_handler_frame sig s :
  let s' := signal_handler sig s in
  signal_handler_func s' = signal_handler_func s ∧ signal_v s' = signal_v s ∧
  signal_pipe s' = signal_pipe s ∧
  ign_sig s' = ign_sig s ∧ dfl_sig s' = dfl_sig s ∧ parent_sig s' = parent_sig s ∧
  os_disp (os s') = os_disp (os s) ∧ os_mask (os s') = os_mask (os s) ∧
  os_refused (os s') = os_refused (os s) ∧ os_fds (os s') = os_fds (os s).
Proof.
  simpl. unfold signal_handler, sys_write.
  destruct (fd_lookup (os s) (signal_pipe s).2) as [[[p|p|] nb ce]|]; try done.
  destruct (os_pipes (os s) !! p) as [buf|]; try done.
  by case_decide.
Qed.

Lemma same_memory_refl s : same_memory s s.
Proof. by unfold same_memory. Qed.

Lemma same_memory_trans s1 s2 s3 :
  same_memory s1 s2 → same_memory s2 s3 → same_memory s1 s3.
Proof. unfold same_memory. intros (?&?&?) (?&?&?). split_and!; congruence. Qed.

Lemma signal_set_same_memory signo func v s :
  same_memory s (signal_set signo func v s).2.
Proof.
  destruct (signal_set_frame signo func v s) as (? & ? & _ & ? & _).
  by unfold same_memory.
Qed.

Lemma signal_handler_child_clear_same_memory s :
  same_memory s (signal_handler_child_clear s).
Proof.
  rewrite signal_handler_child_clear_loop.
  destruct (set_action_loop_spec (child_choice s) s)
    as (_ & _ & _ & L4 & L5 & _ & _ & _ & L9 & _).
  destruct (open_signal_pipe_frame (set_action_loop (child_choice s) s))
    as (_ & _ & A3 & A4 & _ & _ & _ & A8 & _).
  destruct (clear_signal_handler_addresses_spec
              (open_signal_pipe (set_action_loop (child_choice s) s)))
    as (_ & _ & C3 & C4 & _ & C6 & _).
  unfold same_memory. rewrite C3, C4, C6. split_and!; congruence.
Qed.

Lemma signal_handler_destroy_same_memory s :
  same_memory s (signal_handler_destroy s).
Proof.
  assert (same_memory s (signal_handlers_clear SIG_IGN s)) as Hc.
  { rewrite signal_handlers_clear_fold. generalize cleared_signals. intros l.
    revert s. induction l as [|sig l IH]; intros s; [apply same_memory_refl|].
    simpl. eapply same_memory_trans; [apply signal_set_same_memory|apply IH]. }
  destruct Hc as (H1 & H2 & H3). unfold same_memory.
  destruct (signal_handler_destroy_os s) as [_ ->].
  pose proof sys_close_frame as Hf. simpl in Hf.
  split; [exact H1|]. split; [exact H2|].
  rewrite (proj1 (proj2 (proj2 (Hf _ _)))).
  rewrite (proj1 (proj2 (proj2 (Hf _ _)))). exact H3.
Qed.

Lemma signal_pipe_close_same_memory min_fd s :
  same_memory s (signal_pipe_close min_fd s).
Proof.
  unfold signal_pipe_close, same_memory.
  pose proof sys_close_frame as Hf. simpl in Hf.
  destruct (bool_decide ((signal_pipe s).1 ≠ 0) && ((signal_pipe s).1 >=? min_fd));
    cbn [signal_pipe os set_os ign_sig dfl_sig];
    (destruct (bool_decide ((signal_pipe s).2 ≠ 0) && ((signal_pipe s).2 >=? min_fd)));
    cbn [signal_pipe os set_os ign_sig dfl_sig];
    rewrite ?(λ fd o, proj1 (proj2 (proj2 (Hf fd o)))); done.
Qed.

Lemma signal_handler_script_same_memory s :
  same_memory s (signal_handler_script s).
Proof.
  rewrite signal_handler_script_loop.
  destruct (set_action_loop_spec (script_choice s) s)
    as (_ & _ & _ & L4 & L5 & _ & _ & _ & L9 & _).
  by unfold same_memory.
Qed.

Lemma run_action_same_memory a s s' :
  a ≠ Act_op Op_signal_handler_init →
  run_action s a = Some s' → same_memory s s'.
Proof.
  intros Hne Hrun. destruct a as [[signo func v|signo| | |]|sig|fuel|min_fd|];
    simpl in Hrun; try injection Hrun as <-.
  - apply signal_set_same_memory.
  - apply signal_set_same_memory.
  - done.
  - apply signal_handler_child_clear_same_memory.
  - apply signal_handler_destroy_same_memory.
  - destruct (signal_handler_frame sig s) as (_ & _ & _ & ? & ? & _ & _ & _ & ? & _).
    by unfold same_memory.
  - destruct (signal_run_callback_frame fuel s s' Hrun)
      as (_ & _ & _ & ? & ? & _ & _ & _ & ? & _).
    by unfold same_memory.
  - apply signal_pipe_close_same_memory.
  - apply signal_handler_script_same_memory.
Qed.

(** X14. Whatever the process does after [signal_handler_init] other than
    initialising again (registrations, the child reset, the teardown,
    deliveries, dispatches, closing the pipe, earlier restorations), on a
    kernel that refuses only SIGKILL and SIGSTOP [signal_handler_script]
    still restores what init found: ignored stays ignored, default becomes
    default again. In particular it does so in a forked child after
    [signal_handler_child_clear]. *)
Theorem signal_handler_script_restores_after_actions s0 acts s2 :
  posix_kernel s0 →
  Forall (λ a, a ≠ Act_op Op_signal_handler_init) acts →
  run_actions acts (signal_handler_init s0) = Some s2 →
  let s3 := signal_handler_script s2 in
  ∀ sig, 1 ≤ sig ≤ SIGRTMAX → sig ∉ essential →
    (handler_of s0 sig = SIG_IGN → disposition (os s3) sig = ign_action) ∧
    (handler_of s0 sig ≠ SIG_IGN → disposition (os s3) sig = dfl_action).
Proof.
  intros Hk Hall Hrun. cbv zeta.
  assert (same_memory (signal_handler_init s0) s2) as (Ei & Ed & Er).
  { revert Hrun. generalize (signal_handler_init s0). intros s1.
    revert s1. induction Hall as [|a acts Ha Hall IH]; intros s1 Hrun.
    - injection Hrun as <-. apply same_memory_refl.
    - simpl in Hrun. destruct (run_action s1 a) as [s1'|] eqn:Hs; [|done].
      eapply same_memory_trans; [by eapply run_action_same_memory|by apply IH]. }
  destruct (signal_handler_init_spec s0)
    as (_ & _ & _ & _ & _ & Hrf & _ & _ & _ & _ & Hign & Hdfl & _).
  intros sig Hr He.
  destruct (libc_accepts sig) eqn:Ha.
  2:{ (* a number out of the reach of the process: default, then and now *)
      rewrite !disposition_rejected by done. split; [|done].
      unfold handler_of. by rewrite disposition_rejected. }
  destruct (signal_handler_script_spec s2 sig Hr) as [Hs1 Hs2].
  { apply sigaction_succeeds. split; [done|]. rewrite Er, Hrf. intros Hf.
    destruct (Hk sig Hr Hf) as [-> | ->]; apply He; unfold essential; set_solver. }
  rewrite Ei, Ed in *. split.
  - intros Hh. apply Hs1. apply Hign. done.
  - intros Hh. apply Hs2.
    + rewrite Hign. tauto.
    + apply Hdfl. done.
Qed.

(** ** The parent-installed set *)

Lemma run_calls_parent_sig cs s sig :
  sig ∈ parent_sig s → sig ∈ parent_sig (run_calls cs s).
Proof.
  revert s. induction cs as [|c cs IH]; intros s Hin; [done|].
  unfold run_calls in *. simpl. apply IH.
  assert (∀ signo func v, sig ∈ parent_sig (signal_set signo func v s).2) as Hs.
  { intros signo func v. destruct (decide (1 ≤ signo ≤ SIG_MAX)) as [Hv|Hv].
    - rewrite signal_set_state by done. unfold signal_set_result, sigaddset. simpl.
      destruct (active func), (libc_accepts signo); set_solver.
    - rewrite signal_set_invalid by lia. done. }
  destruct c as [signo func v|signo]; simpl; [apply Hs|apply Hs].
Qed.

(** X15. The parent-installed set only grows: once a callback was registered
    for a signal, [signal_handler_child_clear] sets the signal to ignore in
    the child whatever the parent did to it afterwards, also when the parent
    had put it back to its default action. *)
Theorem parent_installed_signal_ignored_in_child signo func v s cs :
  1 ≤ signo ≤ SIG_MAX →
  signo ≤ SIGRTMAX →
  active func = true →
  ¬ sigaction_fails s signo →
  let s2 := run_calls cs (signal_set signo func v s).2 in
  signo ∈ parent_sig s2 ∧
  disposition (os (signal_handler_child_clear s2)) signo = ign_action.
Proof.
  intros Hv Hrt Ha Hf. cbv zeta. apply sigaction_succeeds in Hf as [Hacc Hf].
  assert (signo ∈ parent_sig (run_calls cs (signal_set signo func v s).2)) as Hin.
  { apply run_calls_parent_sig. rewrite signal_set_state by done.
    unfold signal_set_result, sigaddset. simpl. rewrite Ha, Hacc. set_solver. }
  split; [exact Hin|].
  rewrite signal_handler_child_clear_disposition. rewrite decide_True; [done|].
  split; [lia|]. split; [exact Hin|]. split; [|exact Hacc].
  destruct (run_calls_frame cs (signal_set signo func v s).2) as (_ & _ & ->).
  by destruct (signal_set_frame signo func v s) as (_ & _ & _ & -> & _).
Qed.

(** ** [open_signal_pipe]: descriptors kept, failure of the call *)

Lemma fd_room_dec o : fd_room o ∨ ¬ fd_room o.
Proof. unfold fd_room. lia. Qed.

Lemma sys_pipe_keeps_open nb ce o fd e :
  fd_lookup o fd = Some e → fd_lookup (sys_pipe nb ce o).2 fd = Some e.
Proof.
  intros He. destruct (fd_room_dec o) as [Hroom|Hroom].
  - destruct (sys_pipe_success nb ce o Hroom)
      as (r & w & o' & -> & _ & H1 & H2 & _ & _ & H5 & _).
    simpl. rewrite H5; [done| |]; intros ->; congruence.
  - by rewrite sys_pipe_failure.
Qed.

Lemma open_signal_pipe_keeps_open s fd e :
  fd_lookup (os s) fd = Some e →
  ∃ e', fd_lookup (os (open_signal_pipe s)) fd = Some e' ∧ fd_obj e' = fd_obj e.
Proof.
  intros He. unfold open_signal_pipe. destruct HAVE_PIPE2.
  - pose proof (sys_pipe_keeps_open true true (os s) fd e He) as Hk.
    destruct (sys_pipe true true (os s)) as [[n fds] o]. simpl in *.
    exists e. by destruct (bool_decide (n = 0)), (bool_decide (n ≠ 0)).
  - pose proof (sys_pipe_keeps_open false false (os s) fd e He) as Hk.
    destruct (sys_pipe false false (os s)) as [[n fds] o]. simpl in *.
    unfold sys_set_cloexec, sys_set_nonblock.
    destruct (bool_decide (n = 0)), (bool_decide (n ≠ 0)); simpl;
      rewrite !fd_update_lookup, Hk;
      repeat case_decide; simpl; eauto.
Qed.

(** X16. Opening the self-pipe never closes anything: a descriptor that is
    open before [signal_handler_init] or [signal_handler_child_clear] is
    open after it, on the same file. So the two ends of the pipe the parent
    opened stay open in the child, beside the new pipe. *)
Theorem pipe_descriptors_never_closed s fd e :
  fd_lookup (os s) fd = Some e →
  (∃ e', fd_lookup (os (signal_handler_init s)) fd = Some e' ∧ fd_obj e' = fd_obj e) ∧
  (∃ e', fd_lookup (os (signal_handler_child_clear s)) fd = Some e'
         ∧ fd_obj e' = fd_obj e).
Proof.
  intros He. split.
  - destruct (signal_handler_init_spec s) as (_ & _ & _ & _ & _ & _ & E7 & _).
    destruct (open_signal_pipe_keeps_open s fd e He) as (e' & H1 & H2).
    exists e'. split; [|done]. unfold fd_lookup in *. by rewrite E7.
  - rewrite signal_handler_child_clear_loop.
    destruct (set_action_loop_spec (child_choice s) s)
      as (_ & _ & _ & _ & _ & _ & _ & _ & _ & L10 & _).
    destruct (open_signal_pipe_keeps_open (set_action_loop (child_choice s) s) fd e)
      as (e' & H1 & H2).
    { unfold fd_lookup in *. by rewrite L10. }
    destruct (clear_signal_handler_addresses_spec
                (open_signal_pipe (set_action_loop (child_choice s) s)))
      as (_ & _ & _ & _ & _ & C6 & _).
    exists e'. by rewrite C6.
Qed.

Lemma open_signal_pipe_fails s :
  ¬ fd_room (os s) →
  signal_pipe (open_signal_pipe s) = signal_pipe s ∧
  trace (open_signal_pipe s) = trace s ++ [Log_pipe_bug] ∧
  os_pipes (os (open_signal_pipe s)) = os_pipes (os s).
Proof.
  intros Hroom. unfold open_signal_pipe.
  rewrite !sys_pipe_failure by done. destruct HAVE_PIPE2; simpl; [done|].
  unfold sys_set_cloexec, sys_set_nonblock. by rewrite !fd_update_pipes.
Qed.

(** X17. When no two descriptors are free the pipe cannot be opened: the
    failure is logged (in the production build, where the assertion expands
    to nothing) and nothing else reports it; [signal_pipe] keeps the
    descriptors it had, so after [signal_handler_child_clear] the child goes
    on with the pipe of its parent, records pending in it included, while
    its table of callbacks is emptied all the same. *)
Theorem signal_handler_child_clear_without_pipe s :
  ¬ fd_room (os s) →
  let s' := signal_handler_child_clear s in
  signal_pipe s' = signal_pipe s ∧
  os_pipes (os s') = os_pipes (os s) ∧
  trace s' = trace s ++ [Log_pipe_bug] ∧
  (∀ sig, 1 ≤ sig ≤ SIG_MAX → slot_func s' sig = NULL) ∧
  signal_pipe (signal_handler_init s) = signal_pipe s ∧
  trace (signal_handler_init s) = trace s ++ [Log_pipe_bug].
Proof.
  intros Hroom. cbv zeta. rewrite signal_handler_child_clear_loop.
  set (s1 := set_action_loop (child_choice s) s).
  destruct (set_action_loop_spec (child_choice s) s)
    as (_ & _ & L3 & _ & _ & _ & L7 & _ & _ & L10 & L11 & L12 & _).
  fold s1 in L3, L7, L10, L11, L12.
  assert (¬ fd_room (os s1)) as Hroom1.
  { unfold fd_room in *. by rewrite L10, L11. }
  destruct (open_signal_pipe_fails s1 Hroom1) as (O1 & O2 & O3).
  destruct (clear_signal_handler_addresses_spec (open_signal_pipe s1))
    as (_ & C2 & _ & _ & _ & C6 & C7 & _).
  destruct (open_signal_pipe_fails s Hroom) as (P1 & P2 & _).
  destruct (signal_handler_init_spec s)
    as (_ & _ & E3 & _ & _ & _ & _ & _ & _ & E10 & _).
  split_and!.
  - rewrite C2, O1. exact L3.
  - rewrite C6, O3. exact L12.
  - rewrite C7, O2. by rewrite L7.
  - intros sig Hr. by apply clear_signal_handler_addresses_slot.
  - rewrite E3. exact P1.
  - rewrite E10. exact P2.
Qed.

Lemma signal_handler_child_clear_pipe s :
  fd_room (os s) →
  self_pipe (signal_handler_child_clear s) (length (os_pipes (os s))) [] ∧
  trace (signal_handler_child_clear s) = trace s.
Proof.
  intros Hroom. rewrite signal_handler_child_clear_loop.
  set (s1 := set_action_loop (child_choice s) s).
  destruct (set_action_loop_spec (child_choice s) s)
    as (_ & _ & _ & _ & _ & _ & L7 & _ & _ & L10 & L11 & L12 & _).
  fold s1 in L7, L10, L11, L12.
  assert (fd_room (os s1)) as Hroom1.
  { unfold fd_room in *. by rewrite L10, L11. }
  destruct (open_signal_pipe_success s1 Hroom1)
    as (r & w & G1 & G2 & G3 & G4 & G5 & G6 & G7 & G8 & G9).
  destruct (clear_signal_handler_addresses_spec (open_signal_pipe s1))
    as (_ & C2 & _ & _ & _ & C6 & C7 & _).
  rewrite L12 in G5, G6, G8.
  split.
  - unfold self_pipe. rewrite C2, C6, G1. simpl. rewrite G5, G6, G8.
    split_and!; try done. rewrite lookup_app_r by lia. by rewrite Nat.sub_diag.
  - rewrite C7, G9. exact L7.
Qed.

(** X18. In the child, after [signal_handler_child_clear] opened the new
    pipe, a dispatch returns at once and invokes nothing: the records that
    were pending in the pipe of the parent are not seen by the child, whose
    deliveries and dispatches go through the new pipe. *)
Theorem signal_handler_child_clear_starts_idle s fuel :
  fd_room (os s) →
  let s' := signal_handler_child_clear s in
  signal_run_callback (S fuel) s' = Some s' ∧
  trace s' = trace s ∧
  ∀ sig, 0 < os_pipe_cap (os s') →
         sys_read (signal_rfd s') (os (signal_handler sig s')) = (Some sig, os s').
Proof.
  intros Hroom. cbv zeta.
  destruct (signal_handler_child_clear_pipe s Hroom) as [Hsp Htr].
  split; [by eapply signal_run_callback_empty|]. split; [exact Htr|].
  intros sig Hcap.
  rewrite (signal_handler_room sig _ _ [] Hsp) by (simpl; lia).
  destruct (self_pipe_read_end _ _ [] Hsp) as (e & He & Ho).
  destruct Hsp as (_ & _ & Hb).
  unfold sys_read, signal_rfd. simpl.
  match goal with |- context [fd_lookup ?o ?fd] =>
    assert (fd_lookup o fd = Some e) as -> by done end.
  destruct e as [obj nb ce]. simpl in Ho. subst obj. simpl.
  rewrite list_lookup_insert_eq by (by eapply lookup_lt_Some).
  rewrite list_insert_insert_eq. rewrite list_insert_id by done.
  by destruct (os (signal_handler_child_clear s)).
Qed.

(** ** [signal_pipe_close] and the stale descriptors *)

Lemma signal_pipe_close_pipe min_fd s :
  signal_pipe (signal_pipe_close min_fd s) = signal_pipe s ∧
  signal_handler_func (signal_pipe_close min_fd s) = signal_handler_func s ∧
  signal_v (signal_pipe_close min_fd s) = signal_v s ∧
  trace (signal_pipe_close min_fd s) = trace s ∧
  os_pipes (os (signal_pipe_close min_fd s)) = os_pipes (os s).
Proof.
  unfold signal_pipe_close.
  pose proof sys_close_frame as Hf. simpl in Hf.
  destruct (bool_decide ((signal_pipe s).1 ≠ 0) && ((signal_pipe s).1 >=? min_fd));
    cbn [signal_pipe os set_os signal_handler_func signal_v trace];
    (destruct (bool_decide ((signal_pipe s).2 ≠ 0) && ((signal_pipe s).2 >=? min_fd)));
    cbn [signal_pipe os set_os signal_handler_func signal_v trace];
    rewrite ?(λ fd o, proj1 (proj2 (proj2 (proj2 (proj2 (Hf fd o)))))); done.
Qed.

(** X19. [signal_pipe_close] closes the descriptors and keeps their numbers
    in [signal_pipe] (unlike [signal_handler_destroy] it does not store -1):
    once both ends are closed, a dispatch returns at once, so the records
    still pending in the pipe are never dispatched, and a signal that
    reaches the trampoline is logged as a write failure and lost. *)
Theorem signal_pipe_close_drops_pending s p buf min_fd sig fuel :
  self_pipe s p buf →
  (signal_pipe s).1 ≠ 0 → (signal_pipe s).2 ≠ 0 →
  min_fd ≤ (signal_pipe s).1 → min_fd ≤ (signal_pipe s).2 →
  let s' := signal_pipe_close min_fd s in
  signal_pipe s' = signal_pipe s ∧
  os_pipes (os s') !! p = Some buf ∧
  signal_run_callback (S fuel) s' = Some s' ∧
  signal_handler sig s' = log_message Log_write_bug s'.
Proof.
  intros (_ & _ & Hb) H1 H2 H3 H4. cbv zeta.
  destruct (signal_pipe_close_pipe min_fd s) as (Ep & _ & _ & _ & Eb).
  pose proof (signal_pipe_close_lookup min_fd s (signal_pipe s).1) as L1.
  pose proof (signal_pipe_close_lookup min_fd s (signal_pipe s).2) as L2.
  rewrite decide_True in L1 by tauto. rewrite decide_True in L2 by tauto.
  split_and!.
  - exact Ep.
  - by rewrite Eb.
  - cbn [signal_run_callback]. unfold sys_read. rewrite Ep, L1.
    by destruct (signal_pipe_close min_fd s).
  - unfold signal_handler, sys_write. rewrite Ep, L2.
    by destruct (signal_pipe_close min_fd s).
Qed.

(** ** [signal_handler_script]: what it leaves alone *)

(** X20. [signal_handler_script] changes dispositions and nothing else: the
    table, the contexts, the pipe, the signal mask (a signal that is blocked
    stays blocked for the script), the descriptors and the log are as
    before, and so is the disposition of every signal that is in neither of
    the two remembered sets; running it a second time changes no
    disposition. *)
Theorem signal_handler_script_changes_dispositions_only s :
  let s' := signal_handler_script s in
  signal_handler_func s' = signal_handler_func s ∧ signal_v s' = signal_v s ∧
  signal_pipe s' = signal_pipe s ∧ parent_sig s' = parent_sig s ∧
  os_mask (os s') = os_mask (os s) ∧ os_fds (os s') = os_fds (os s) ∧
  os_pipes (os s') = os_pipes (os s) ∧ trace s' = trace s ∧
  (∀ sig, sig ∉ ign_sig s → sig ∉ dfl_sig s →
     disposition (os s') sig = disposition (os s) sig) ∧
  (∀ sig, disposition (os (signal_handler_script s')) sig = disposition (os s') sig).
Proof.
  cbv zeta. rewrite (signal_handler_script_loop (signal_handler_script s)).
  rewrite (signal_handler_script_loop s).
  set (s1 := set_action_loop (script_choice s) s).
  destruct (set_action_loop_spec (script_choice s) s)
    as (L1 & L2 & L3 & L4 & L5 & L6 & L7 & L8 & L9 & L10 & _ & L12 & _ & L14).
  fold s1 in L1, L2, L3, L4, L5, L6, L7, L8, L9, L10, L12, L14.
  split_and!; try assumption.
  - intros sig Hi Hd. rewrite L14. unfold script_choice.
    rewrite bool_decide_eq_false_2 by done. by rewrite bool_decide_eq_false_2.
  - intros sig.
    destruct (set_action_loop_spec (script_choice s1) s1)
      as (_ & _ & _ & _ & _ & _ & _ & _ & _ & _ & _ & _ & _ & M14).
    rewrite M14.
    assert (script_choice s1 sig = script_choice s sig) as ->
      by (unfold script_choice; by rewrite L4, L5).
    destruct (script_choice s sig) as [act|] eqn:E; [|done].
    rewrite L9. case_decide; [|done].
    rewrite L14, E. by rewrite decide_True.
Qed.

End Coverage.

(** * The statements at concrete states, on Linux built without JSON *)

#[local] Existing Instance Example.platform.

(** C4 at signal number 0. *)
Lemma signal_set_out_of_range_witness :
  (0 < 1 ∨ SIG_MAX < 0) ∧
  (signal_set 0 (Fn 1) 100 Example.s_init).1 = NULL ∧
  os (signal_set 0 (Fn 1) 100 Example.s_init).2 = os Example.s_init ∧
  signal_handler_func (signal_set 0 (Fn 1) 100 Example.s_init).2
    = signal_handler_func Example.s_init.
Proof.
  assert (0 < 1 ∨ SIG_MAX < 0) as H by (left; lia).
  split; [exact H|].
  destruct (signal_set_out_of_range 0 (Fn 1) 100 Example.s_init H)
    as (H1 & H2 & _ & _ & _ & _ & _ & H8 & _).
  split; [exact H1|]. split; [exact H8|exact H2].
Defined.

(** C10 at SIGKILL, whose disposition the kernel refuses to change. *)
Lemma signal_set_failure_not_atomic_witness :
  wf Example.s_init ∧ 1 ≤ 9 ≤ SIG_MAX ∧ sigaction_fails Example.s_init 9 ∧
  (signal_set 9 (Fn 1) 100 Example.s_init).1 = SIG_ERR ∧
  signal_handler_func (signal_set 9 (Fn 1) 100 Example.s_init).2 !! 8%nat = Some (Fn 1) ∧
  signal_v (signal_set 9 (Fn 1) 100 Example.s_init).2 !! 8%nat = Some 100 ∧
  9 ∈ parent_sig (signal_set 9 (Fn 1) 100 Example.s_init).2.
Proof.
  assert (wf Example.s_init) as Hwf by (split; vm_compute; reflexivity).
  assert (1 ≤ 9 ≤ SIG_MAX) as Hr by (vm_compute; split; discriminate).
  assert (sigaction_fails Example.s_init 9) as Hf by (right; vm_compute; reflexivity).
  split; [exact Hwf|]. split; [exact Hr|]. split; [exact Hf|].
  destruct (signal_set_failure_not_atomic 9 (Fn 1) 100 Example.s_init Hwf Hr Hf)
    as (H1 & H2 & H3 & H4 & _).
  split; [exact H1|]. split; [exact H2|]. split; [exact H3|].
  apply H4; reflexivity.
Defined.

(** C2 at SIGUSR1, where a system call filter makes sigaction fail: the
    signal was not blocked and is left blocked. *)
Lemma signal_set_failure_leaves_blocked_witness :
  1 ≤ 10 ≤ SIG_MAX ∧ active (Fn 1) = true ∧ blockable 10 ∧
  sigaction_fails Example.s_filtered 10 ∧
  ¬ blocked Example.s_filtered 10 ∧
  (signal_set 10 (Fn 1) 100 Example.s_filtered).1 = SIG_ERR ∧
  blocked (signal_set 10 (Fn 1) 100 Example.s_filtered).2 10.
Proof.
  assert (1 ≤ 10 ≤ SIG_MAX) as Hr by (vm_compute; split; discriminate).
  assert (blockable 10) as Hb by (split; [reflexivity|split; discriminate]).
  assert (sigaction_fails Example.s_filtered 10) as Hf
    by (right; vm_compute; reflexivity).
  split; [exact Hr|]. split; [reflexivity|]. split; [exact Hb|]. split; [exact Hf|].
  split; [intros H; vm_compute in H; discriminate H|].
  exact (signal_set_failure_leaves_blocked 10 (Fn 1) 100 Example.s_filtered
           Hr eq_refl Hb Hf).
Defined.

(** C5 at start-up: SIGPIPE was ignored, SIGTERM was not, SIGKILL is left
    alone. *)
Lemma signal_handler_init_dispositions_witness :
  posix_kernel (boot os_boot) ∧
  (13 ∈ ign_sig Example.s_init ∧ (13 ∉ dfl_sig Example.s_init)) ∧
  (15 ∈ dfl_sig Example.s_init ∧ disposition (os Example.s_init) 15 = ign_action) ∧
  ((9 ∉ ign_sig Example.s_init) ∧ (9 ∉ dfl_sig Example.s_init)) ∧
  ign_sig Example.s_init ## dfl_sig Example.s_init.
Proof.
  assert (posix_kernel (boot os_boot)) as Hk.
  { intros sig _ Hf. simpl in Hf.
    apply elem_of_union in Hf as [Hf|Hf]; apply elem_of_singleton in Hf;
      subst; [left|right]; reflexivity. }
  split; [exact Hk|].
  destruct (signal_handler_init_dispositions (boot os_boot) Hk) as (H1 & H2 & _ & H4).
  assert (1 ≤ 13 ≤ SIGRTMAX) as R13 by (vm_compute; split; discriminate).
  assert (1 ≤ 15 ≤ SIGRTMAX) as R15 by (vm_compute; split; discriminate).
  assert (13 ∉ essential) as E13 by (intros H; vm_compute in H; discriminate H).
  assert (15 ∉ essential) as E15 by (intros H; vm_compute in H; discriminate H).
  assert (9 ∈ essential) as E9 by (vm_compute; reflexivity).
  destruct (H1 13 R13 E13 eq_refl) as [H13 _].
  destruct (H1 15 R15 E15 eq_refl) as [_ H15].
  destruct (H13 eq_refl) as (A1 & A2 & _).
  destruct H15 as (B1 & _ & B3); [vm_compute; discriminate|].
  destruct (H2 9 (or_introl E9)) as (C1 & C2 & _).
  split; [split; [exact A1|exact A2]|].
  split; [split; [exact B1|exact B3]|].
  split; [split; [exact C1|exact C2]|exact H4].
Defined.

(** C6 at start-up, with SIGUSR1 given a callback and SIGPIPE given one
    too before the exec. *)
Lemma signal_handler_script_restores_witness :
  posix_kernel (boot os_boot) ∧
  let cs := [Do_signal_set 10 (Fn 1) 100; Do_signal_ignore 15; Do_signal_set 13 (Fn 2) 0] in
  handler_of (run_calls cs Example.s_init) 13 = Fn_signal_handler ∧
  disposition (os (signal_handler_script (run_calls cs Example.s_init))) 13 = ign_action ∧
  disposition (os (signal_handler_script (run_calls cs Example.s_init))) 10 = dfl_action.
Proof.
  assert (posix_kernel (boot os_boot)) as Hk.
  { intros sig _ Hf. simpl in Hf.
    apply elem_of_union in Hf as [Hf|Hf]; apply elem_of_singleton in Hf;
      subst; [left|right]; reflexivity. }
  split; [exact Hk|]. intros cs.
  destruct (signal_handler_script_restores (boot os_boot) cs Hk) as (H1 & H2 & _).
  split; [vm_compute; reflexivity|].
  split; [apply H1|apply H2]; vm_compute; reflexivity.
Defined.

(** C7 in a child forked after the two registrations. *)
Lemma signal_handler_child_clear_resets_witness :
  wf Example.s_reg ∧ fd_room (os Example.s_reg) ∧
  handler_of Example.s_reg 10 = Fn_signal_handler ∧
  disposition (os (signal_handler_child_clear Example.s_reg)) 10 = ign_action ∧
  signal_handler_func (signal_handler_child_clear Example.s_reg)
    = replicate (Z.to_nat SIG_MAX) NULL ∧
  signal_v (signal_handler_child_clear Example.s_reg) = signal_v Example.s_reg.
Proof.
  assert (wf Example.s_reg) as Hwf by (split; vm_compute; reflexivity).
  assert (fd_room (os Example.s_reg)) as Hroom by (unfold fd_room; vm_compute; lia).
  split; [exact Hwf|]. split; [exact Hroom|]. split; [vm_compute; reflexivity|].
  destruct (signal_handler_child_clear_resets Example.s_reg Hwf Hroom)
    as (H1 & _ & H3 & _ & H5).
  split; [|split; [exact H3|exact H5]].
  apply H1.
  - vm_compute. reflexivity.
  - vm_compute. split; discriminate.
  - intros [H|H]; vm_compute in H; discriminate H.
Defined.

(** C9 on the pipe of the example, descriptors 3 and 4, with threshold 4. *)
Lemma signal_pipe_close_spec_witness :
  (4 = (signal_pipe Example.s_reg).1 ∨ 4 = (signal_pipe Example.s_reg).2) ∧
  closed_by Example.s_reg (signal_pipe_close 4 Example.s_reg) 4 ∧
  fd_lookup (os (signal_pipe_close 4 Example.s_reg)) 2 = fd_lookup (os Example.s_reg) 2.
Proof.
  assert (4 = (signal_pipe Example.s_reg).1 ∨ 4 = (signal_pipe Example.s_reg).2) as H
    by (right; vm_compute; reflexivity).
  split; [exact H|].
  destruct (signal_pipe_close_spec 4 Example.s_reg 4 H) as (H1 & _ & H3).
  split.
  - apply H1. split; [vm_compute; reflexivity|]. split; [discriminate|reflexivity].
  - apply H3; vm_compute; discriminate.
Defined.

(** C3 at the registration of a callback for SIGUSR1. *)
Lemma operations_preserve_table_inv_witness :
  wf Example.s_init ∧ table_inv Example.s_init ∧
  op_pre (Op_signal_set 10 (Fn 1) 100) Example.s_init ∧
  table_inv (run_op (Op_signal_set 10 (Fn 1) 100) Example.s_init).
Proof.
  assert (wf Example.s_init) as Hwf by (split; vm_compute; reflexivity).
  assert (table_inv Example.s_init) as Hi
    by (apply table_inv_b_spec; vm_compute; reflexivity).
  assert (op_pre (Op_signal_set 10 (Fn 1) 100) Example.s_init) as Hp
    by (intros _ [H|H]; vm_compute in H; discriminate H).
  split; [exact Hwf|]. split; [exact Hi|]. split; [exact Hp|].
  exact (proj2 (operations_preserve_table_inv (Op_signal_set 10 (Fn 1) 100)
                  Example.s_init Hwf Hi Hp)).
Defined.

(** C1 with SIGUSR1, SIGTERM, SIGUSR1 and SIGABRT (no callback) delivered
    in that order. *)
Lemma signal_run_callback_fifo_witness :
  self_pipe Example.s_reg 0 [] ∧
  Z.of_nat (length (@nil Z) + length [10; 15; 10; 6]) ≤ os_pipe_cap (os Example.s_reg) ∧
  (length (@nil Z) + length [10; 15; 10; 6] < 5)%nat ∧
  ∃ s', signal_run_callback 5 (deliver_all [10; 15; 10; 6] Example.s_reg) = Some s' ∧
        self_pipe s' 0 [] ∧
        trace s' = [Call (Fn 1) 100 10; Call (Fn 2) 200 15; Call (Fn 1) 100 10].
Proof.
  assert (self_pipe Example.s_reg 0 []) as Hsp
    by (unfold self_pipe; vm_compute; repeat split; reflexivity).
  assert (Z.of_nat (length (@nil Z) + length [10; 15; 10; 6])
          ≤ os_pipe_cap (os Example.s_reg)) as Hroom by (vm_compute; discriminate).
  assert (length (@nil Z) + length [10; 15; 10; 6] < 5)%nat as Hfuel by (simpl; lia).
  split; [exact Hsp|]. split; [exact Hroom|]. split; [exact Hfuel|].
  destruct (signal_run_callback_fifo Example.s_reg 0 [] [10; 15; 10; 6] 5 Hsp Hroom Hfuel)
    as (s' & R1 & R2 & R3 & _).
  exists s'. split; [exact R1|]. split; [exact R2|].
  rewrite R3. vm_compute. reflexivity.
Defined.

(** ** Where the statements of the specification fail *)

(** C1 as stated fails when the pipe overflows: on a pipe of 16384
    records, 16385 deliveries of SIGUSR1 before the dispatch invoke its
    callback 16384 times; the last write fails and its number is lost. *)
Lemma signal_run_callback_fifo_counterexample :
  let s := Example.s_reg in
  let n := Z.to_nat 16384 in
  self_pipe s 0 [] ∧ 1 ≤ 10 ≤ SIG_MAX ∧ slot_func s 10 = Fn 1 ∧ slot_v s 10 = 100 ∧
  ∃ s', signal_run_callback (S (S n)) (deliver_all (replicate (S n) 10) s) = Some s' ∧
        trace s' = Log_write_bug :: replicate n (Call (Fn 1) 100 10) ∧
        calls (trace s') = replicate n (Call (Fn 1) 100 10) ∧
        length (calls (trace s')) ≠ S n.
Proof.
  intros s n.
  assert (self_pipe s 0 []) as Hsp
    by (unfold self_pipe; vm_compute; repeat split; reflexivity).
  assert (1 ≤ 10 ≤ SIG_MAX) as Hr by (vm_compute; split; discriminate).
  assert (slot_func s 10 = Fn 1) as Hf by (vm_compute; reflexivity).
  assert (slot_v s 10 = 100) as Hv by (vm_compute; reflexivity).
  assert (os_pipe_cap (os s) = Z.of_nat n) as Hcap by (vm_compute; reflexivity).
  assert (trace s = []) as Htr by (vm_compute; reflexivity).
  clearbody s n.
  split; [exact Hsp|]. split; [exact Hr|]. split; [exact Hf|]. split; [exact Hv|].
  destruct (deliver_overflow s 0 n 10 Hsp Hcap Hr) as (s' & R1 & R2).
  { rewrite Hf. discriminate. }
  rewrite Htr, Hf, Hv in R2. simpl in R2.
  exists s'. split; [exact R1|]. split; [exact R2|].
  assert (calls (trace s') = replicate n (Call (Fn 1) 100 10)) as Hc.
  { rewrite R2. unfold calls. rewrite filter_cons_False by (simpl; discriminate).
    apply calls_replicate. }
  split; [exact Hc|].
  rewrite Hc, length_replicate. lia.
Qed.

(** C3 as stated fails: where sigaction fails, [signal_set] fills the slot
    of a signal that is not routed through the trampoline; and
    [signal_handler_init] empties the slot of an essential signal that
    stays routed through it. *)
Lemma operations_preserve_table_inv_counterexample :
  (wf Example.s_init ∧ table_inv Example.s_init ∧ 1 ≤ 9 ≤ SIG_MAX ∧
   ¬ table_inv (signal_set 9 (Fn 1) 100 Example.s_init).2) ∧
  (wf Example.s_ill ∧ table_inv Example.s_ill ∧
   ¬ table_inv (signal_handler_init Example.s_ill)).
Proof.
  split.
  - split; [split; vm_compute; reflexivity|].
    split; [apply table_inv_b_spec; vm_compute; reflexivity|].
    split; [vm_compute; split; discriminate|].
    intros H. apply table_inv_b_spec in H. vm_compute in H. discriminate H.
  - split; [split; vm_compute; reflexivity|].
    split; [apply table_inv_b_spec; vm_compute; reflexivity|].
    intros H. apply table_inv_b_spec in H. vm_compute in H. discriminate H.
Qed.

(** C5 as stated fails on the numbers the C library keeps for itself: 32
    is between 1 and SIGRTMAX and is none of the six signals, and its
    action is not ignore at start-up; yet after the initialisation it is in
    neither of the two sets and its action is still not ignore (sigfillset
    leaves it out). *)
Lemma signal_handler_init_dispositions_counterexample :
  let s := boot os_boot in
  let s' := signal_handler_init s in
  posix_kernel s ∧ 1 ≤ 32 ≤ SIGRTMAX ∧ (32 ∉ essential) ∧
  handler_of s 32 ≠ SIG_IGN ∧
  (32 ∉ ign_sig s') ∧ (32 ∉ dfl_sig s') ∧ disposition (os s') 32 ≠ ign_action.
Proof.
  intros s s'. split_and!.
  - intros sig _ Hf. simpl in Hf.
    apply elem_of_union in Hf as [Hf|Hf]; apply elem_of_singleton in Hf;
      subst; [left|right]; reflexivity.
  - vm_compute. discriminate.
  - vm_compute. discriminate.
  - intros H. vm_compute in H. discriminate H.
  - vm_compute. discriminate.
  - intros H. vm_compute in H. discriminate H.
  - intros H. vm_compute in H. discriminate H.
  - vm_compute. discriminate.
Qed.

(** C10 as stated fails, in the build with JSON support, on the numbers in
    range that the C library does not accept: for 65 (which is [SIG_MAX])
    and for 32 sigaction fails and the slot is overwritten with the new
    callback and context, but the signal has not been added to the
    parent-installed set, since sigaddset fails as well. *)
Lemma signal_set_failure_not_atomic_counterexample :
  let P := ExampleJson.platform in
  let s := ExampleJson.s_init in
  let r := signal_set (P := P) 65 (Fn 1) 100 s in
  let r' := signal_set (P := P) 32 (Fn 1) 100 s in
  wf (P := P) s ∧ active (Fn 1) = true ∧
  (1 ≤ 65 ≤ SIG_MAX (P := P) ∧ sigaction_fails (P := P) s 65 ∧
   r.1 = SIG_ERR ∧ slot_func r.2 65 = Fn 1 ∧ slot_v r.2 65 = 100 ∧
   (65 ∉ parent_sig r.2)) ∧
  (1 ≤ 32 ≤ SIG_MAX (P := P) ∧ sigaction_fails (P := P) s 32 ∧
   r'.1 = SIG_ERR ∧ slot_func r'.2 32 = Fn 1 ∧ slot_v r'.2 32 = 100 ∧
   (32 ∉ parent_sig r'.2)).
Proof.
  intros P s r r'. split; [split; vm_compute; reflexivity|].
  split; [reflexivity|]. split.
  - split; [vm_compute; split; discriminate|].
    split; [left; vm_compute; reflexivity|].
    split; [vm_compute; reflexivity|].
    split; [vm_compute; reflexivity|].
    split; [vm_compute; reflexivity|].
    intros H. vm_compute in H. discriminate H.
  - split; [vm_compute; split; discriminate|].
    split; [left; vm_compute; reflexivity|].
    split; [vm_compute; reflexivity|].
    split; [vm_compute; reflexivity|].
    split; [vm_compute; reflexivity|].
    intros H. vm_compute in H. discriminate H.
Qed.

(** C7 as stated fails on the contexts: after the child reset the slot of
    SIGUSR1 has a null callback and still the context registered by the
    parent. *)
Lemma signal_handler_child_clear_counterexample :
  let s' := signal_handler_child_clear Example.s_reg in
  slot_v Example.s_reg 10 = 100 ∧
  slot_func s' 10 = NULL ∧ slot_v s' 10 = 100 ∧ slot_v s' 10 ≠ NULLV.
Proof. vm_compute. split_and!; try reflexivity. discriminate. Qed.

(** C9 as stated fails on descriptor 0: with the pipe on descriptors 0 and
    1 and threshold 0, descriptor 1 is closed and descriptor 0, which is at
    the threshold, stays open. *)
Lemma signal_pipe_close_counterexample :
  let s := Example.s_nostd in
  let s' := signal_pipe_close 0 s in
  signal_pipe s = (0, 1) ∧ 0 ≤ (signal_pipe s).1 ∧
  fd_open (os s) 0 = true ∧ fd_open (os s') 0 = true ∧ ¬ closed_by s s' 0 ∧
  closed_by s s' 1.
Proof.
  vm_compute. split_and!; try reflexivity; try discriminate.
  intros [_ H]. discriminate H.
Qed.

(** * The further properties at concrete states *)

Lemma posix_kernel_boot : posix_kernel (boot os_boot).
Proof.
  intros sig _ Hf. simpl in Hf.
  apply elem_of_union in Hf as [Hf|Hf]; apply elem_of_singleton in Hf;
    subst; [left|right]; reflexivity.
Qed.

(** X1: putting SIGUSR1 back to its default action leaves the callback of
    SIGTERM registered and routed. *)
Lemma signal_set_leaves_other_signals_witness :
  1 ≤ 15 ∧ 15 ≠ 10 ∧
  slot_func (signal_set 10 SIG_DFL NULLV Example.s_reg).2 15 = Fn 2 ∧
  slot_v (signal_set 10 SIG_DFL NULLV Example.s_reg).2 15 = 200 ∧
  handler_of (signal_set 10 SIG_DFL NULLV Example.s_reg).2 15 = Fn_signal_handler.
Proof.
  assert (1 ≤ 15) as H1 by lia. assert (15 ≠ 10) as H2 by lia.
  split; [exact H1|]. split; [exact H2|].
  pose proof (signal_set_leaves_other_signals 10 SIG_DFL NULLV Example.s_reg 15 H1 H2) as H.
  cbv zeta in H. destruct H as (A & B & C & _).
  split; [rewrite A; vm_compute; reflexivity|].
  split; [rewrite B; vm_compute; reflexivity|].
  unfold handler_of. rewrite C. vm_compute. reflexivity.
Defined.

(** X2: after the initialisation the first registration for SIGUSR1
    returns the ignore action, the second one the trampoline. *)
Lemma signal_set_returns_system_handler_witness :
  1 ≤ 10 ≤ SIG_MAX ∧ ¬ sigaction_fails Example.s_init 10 ∧
  (signal_set 10 (Fn 1) 100 Example.s_init).1 = SIG_IGN ∧
  (signal_set 10 (Fn 2) 200 (signal_set 10 (Fn 1) 100 Example.s_init).2).1
    = Fn_signal_handler.
Proof.
  assert (1 ≤ 10 ≤ SIG_MAX) as Hr by (vm_compute; split; discriminate).
  assert (¬ sigaction_fails Example.s_init 10) as Hf
    by (intros [H|H]; vm_compute in H; discriminate H).
  split; [exact Hr|]. split; [exact Hf|].
  destruct (signal_set_returns_system_handler 10 (Fn 1) 100 Example.s_init Hr Hf)
    as (A & B & _).
  split; [rewrite A; vm_compute; reflexivity|].
  exact (B eq_refl (Fn 2) 200).
Defined.

(** X3: SIGUSR1 blocked by the caller is unblocked by the registration. *)
Lemma signal_set_mask_witness :
  let s := set_os (set_os_mask {[ 10; 12 ]} (os Example.s_init)) Example.s_init in
  1 ≤ 10 ≤ SIG_MAX ∧ ¬ sigaction_fails s 10 ∧ blocked s 10 ∧
  os_mask (os (signal_set 10 (Fn 1) 100 s).2) = {[ 10; 12 ]} ∖ {[ 10 ]} ∧
  os_mask (os (signal_set 10 SIG_IGN NULLV s).2) = {[ 10; 12 ]}.
Proof.
  intros s.
  assert (1 ≤ 10 ≤ SIG_MAX) as Hr by (vm_compute; split; discriminate).
  assert (¬ sigaction_fails s 10) as Hf
    by (intros [H|H]; vm_compute in H; discriminate H).
  split; [exact Hr|]. split; [exact Hf|]. split; [vm_compute; reflexivity|].
  split.
  - exact (signal_set_mask 10 (Fn 1) 100 s Hr Hf).
  - exact (signal_set_mask 10 SIG_IGN NULLV s Hr Hf).
Defined.

(** X5: two deliveries into the empty pipe of the example. *)
Lemma deliver_all_fills_pipe_witness :
  self_pipe Example.s_reg 0 [] ∧
  self_pipe (deliver_all [10; 15] Example.s_reg) 0 [10; 15] ∧
  trace (deliver_all [10; 15] Example.s_reg) = [].
Proof.
  assert (self_pipe Example.s_reg 0 []) as Hsp
    by (unfold self_pipe; vm_compute; repeat split; reflexivity).
  split; [exact Hsp|].
  pose proof (deliver_all_fills_pipe [10; 15] Example.s_reg 0 [] Hsp) as H.
  cbv zeta in H. destruct H as (A & B & _).
  assert ([] ++ take (pipe_room Example.s_reg []) [10; 15] = [10; 15]) as E
    by (vm_compute; reflexivity).
  rewrite E in A. split; [exact A|].
  rewrite B. vm_compute. reflexivity.
Defined.

(** X6: a dispatch with two records pending, then one more. *)
Lemma signal_run_callback_then_idle_witness :
  let s := deliver_all [10; 15] Example.s_reg in
  self_pipe s 0 [10; 15] ∧ (length [10; 15] < 3)%nat ∧
  ∃ s', signal_run_callback 3 s = Some s' ∧
        signal_run_callback 1 s' = Some s' ∧
        signal_handler_func s' = signal_handler_func s ∧
        os_fds (os s') = os_fds (os s).
Proof.
  intros s.
  assert (self_pipe s 0 [10; 15]) as Hsp
    by (unfold self_pipe; vm_compute; repeat split; reflexivity).
  assert (length [10; 15] < 3)%nat as Hfuel by (simpl; lia).
  split; [exact Hsp|]. split; [exact Hfuel|].
  destruct (signal_run_callback_then_idle s 0 [10; 15] 3 0 Hsp Hfuel)
    as (s' & R1 & R2 & R3 & _ & _ & _ & _ & _ & _ & _ & R11).
  exists s'. split; [exact R1|]. split; [exact R2|]. split; [exact R3|exact R11].
Defined.

(** X7: SIGUSR1 arrives twice and SIGTERM once; before the dispatch the
    callback of SIGUSR1 is replaced, and the dispatch invokes the new one. *)
Lemma signal_run_callback_after_signal_set_witness :
  let s := deliver_all [10; 15; 10] Example.s_reg in
  wf s ∧ self_pipe s 0 [10; 15; 10] ∧ 1 ≤ 10 ≤ SIG_MAX ∧ (length [10; 15; 10] < 4)%nat ∧
  (∃ s', signal_run_callback 4 (signal_set 10 (Fn 3) 300 s).2 = Some s' ∧
         trace s' = [Call (Fn 3) 300 10; Call (Fn 2) 200 15; Call (Fn 3) 300 10]) ∧
  (∃ s', signal_run_callback 4 (signal_set 10 SIG_IGN NULLV s).2 = Some s' ∧
         trace s' = [Call (Fn 2) 200 15]).
Proof.
  intros s.
  assert (wf s) as Hwf by (split; vm_compute; reflexivity).
  assert (self_pipe s 0 [10; 15; 10]) as Hsp
    by (unfold self_pipe; vm_compute; repeat split; reflexivity).
  assert (1 ≤ 10 ≤ SIG_MAX) as Hr by (vm_compute; split; discriminate).
  assert (length [10; 15; 10] < 4)%nat as Hfuel by (simpl; lia).
  split; [exact Hwf|]. split; [exact Hsp|]. split; [exact Hr|]. split; [exact Hfuel|].
  split.
  - destruct (signal_run_callback_after_signal_set s 0 [10; 15; 10] 10 (Fn 3) 300 4
                Hwf Hsp Hr Hfuel) as (s' & R1 & R2).
    exists s'. split; [exact R1|]. rewrite R2. vm_compute. reflexivity.
  - destruct (signal_run_callback_after_signal_set s 0 [10; 15; 10] 10 SIG_IGN NULLV 4
                Hwf Hsp Hr Hfuel) as (s' & R1 & R2).
    exists s'. split; [exact R1|]. rewrite R2. vm_compute. reflexivity.
Defined.

(** X8: a callback registered for SIGALRM, which is not in the list, is
    still registered and routed after the teardown. *)
Lemma signal_handler_destroy_leaves_other_signals_witness :
  let s := (signal_set 14 (Fn 3) 300 Example.s_reg).2 in
  1 ≤ 14 ∧ (14 ∉ cleared_signals) ∧
  slot_func (signal_handler_destroy s) 14 = Fn 3 ∧
  slot_v (signal_handler_destroy s) 14 = 300 ∧
  handler_of (signal_handler_destroy s) 14 = Fn_signal_handler.
Proof.
  intros s.
  assert (1 ≤ 14) as H1 by lia.
  assert (14 ∉ cleared_signals) as H2.
  { intros H. apply list_elem_of_In in H. simpl in H.
    repeat (destruct H as [H|H]; [discriminate H|]). exact H. }
  split; [exact H1|]. split; [exact H2|].
  pose proof (signal_handler_destroy_leaves_other_signals s 14 H1 H2) as H.
  cbv zeta in H. destruct H as (A & B & C).
  split; [rewrite A; vm_compute; reflexivity|].
  split; [rewrite B; vm_compute; reflexivity|].
  unfold handler_of. rewrite C. vm_compute. reflexivity.
Defined.

(** X10: the keyword STOP stands for SIGTERM, whose callback the teardown
    removes. *)
Lemma get_signum_reset_by_destroy_witness :
  wf Example.s_reg ∧ 1 ≤ get_signum "STOP" ≤ SIG_MAX ∧
  ¬ sigaction_fails Example.s_reg (get_signum "STOP") ∧
  slot_func Example.s_reg (get_signum "STOP") = Fn 2 ∧
  slot_func (signal_handler_destroy Example.s_reg) (get_signum "STOP") = NULL ∧
  handler_of (signal_handler_destroy Example.s_reg) (get_signum "STOP") = SIG_IGN.
Proof.
  assert (wf Example.s_reg) as Hwf by (split; vm_compute; reflexivity).
  assert (1 ≤ get_signum "STOP" ≤ SIG_MAX) as Hr by (vm_compute; split; discriminate).
  assert (¬ sigaction_fails Example.s_reg (get_signum "STOP")) as Hf
    by (intros [H|H]; vm_compute in H; discriminate H).
  split; [exact Hwf|]. split; [exact Hr|]. split; [exact Hf|].
  split; [vm_compute; reflexivity|].
  pose proof (get_signum_reset_by_destroy "STOP" Example.s_reg Hwf Hr Hf) as H.
  cbv zeta in H. destruct H as (_ & A & _ & C).
  split; [exact A|exact C].
Defined.

(** X11: at start-up the pipe gets the descriptors 3 and 4. *)
Lemma signal_handler_init_resets_witness :
  fd_room (os (boot os_boot)) ∧
  self_pipe Example.s_init 0 [] ∧
  signal_rfd Example.s_init = 3 ∧
  fd_lookup (os_boot) (signal_rfd Example.s_init) = None ∧
  fd_lookup (os Example.s_init) (signal_rfd Example.s_init)
    = Some {| fd_obj := PipeRd 0; fd_nonblock := true; fd_cloexec := true |}.
Proof.
  assert (fd_room (os (boot os_boot))) as Hroom by (unfold fd_room; vm_compute; lia).
  split; [exact Hroom|].
  pose proof (signal_handler_init_resets (boot os_boot) Hroom) as H.
  cbv zeta in H. destruct H as (A & B & C & _).
  split; [exact A|]. split; [vm_compute; reflexivity|]. split; [exact B|exact C].
Defined.

(** X12: SIGUSR1 delivered and read back in the example. *)
Lemma signal_rfd_reads_delivery_witness :
  self_pipe Example.s_reg 0 [] ∧ 0 < os_pipe_cap (os Example.s_reg) ∧
  sys_read (signal_rfd Example.s_reg) (os (signal_handler 10 Example.s_reg))
    = (Some 10, os Example.s_reg).
Proof.
  assert (self_pipe Example.s_reg 0 []) as Hsp
    by (unfold self_pipe; vm_compute; repeat split; reflexivity).
  assert (0 < os_pipe_cap (os Example.s_reg)) as Hcap by (vm_compute; reflexivity).
  split; [exact Hsp|]. split; [exact Hcap|].
  exact (signal_rfd_reads_delivery Example.s_reg 0 10 Hsp Hcap).
Defined.

(** X13: SIGTERM had the default action at start-up; after two
    initialisations it is remembered as ignored and left ignored for a
    script. *)
Lemma signal_handler_init_twice_witness :
  posix_kernel (boot os_boot) ∧
  handler_of (boot os_boot) 15 = SIG_DFL ∧
  15 ∈ ign_sig (signal_handler_init Example.s_init) ∧
  (15 ∉ dfl_sig (signal_handler_init Example.s_init)) ∧
  handler_of (signal_handler_script (signal_handler_init Example.s_init)) 15 = SIG_IGN.
Proof.
  split; [exact posix_kernel_boot|]. split; [vm_compute; reflexivity|].
  pose proof (signal_handler_init_twice (boot os_boot) posix_kernel_boot) as H.
  cbv zeta in H. destruct H as (A & B & C).
  assert (1 ≤ 15 ≤ SIGRTMAX) as R15 by (vm_compute; split; discriminate).
  assert (15 ∉ essential) as E15 by (intros H; vm_compute in H; discriminate H).
  split; [apply A; split; [exact R15|split; [exact E15|reflexivity]]|].
  split; [exact (B 15)|exact (C 15 R15 E15 eq_refl)].
Defined.

(** X14: a registration, a delivery, the child reset, a dispatch and the
    closing of the pipe, then the restoration before an exec. *)
Lemma signal_handler_script_restores_after_actions_witness :
  let acts := [Act_op (Op_signal_set 10 (Fn 1) 100); Act_deliver 10;
               Act_op Op_signal_handler_child_clear; Act_dispatch 2;
               Act_pipe_close 0] in
  posix_kernel (boot os_boot) ∧
  Forall (λ a, a ≠ Act_op Op_signal_handler_init) acts ∧
  ∃ s2, run_actions acts (signal_handler_init (boot os_boot)) = Some s2 ∧
        disposition (os (signal_handler_script s2)) 13 = ign_action ∧
        disposition (os (signal_handler_script s2)) 10 = dfl_action.
Proof.
  intros acts.
  assert (Forall (λ a, a ≠ Act_op Op_signal_handler_init) acts) as Hall
    by (repeat constructor; discriminate).
  split; [exact posix_kernel_boot|]. split; [exact Hall|].
  destruct (run_actions acts (signal_handler_init (boot os_boot))) as [s2|] eqn:E;
    [|vm_compute in E; discriminate E].
  exists s2. split; [reflexivity|].
  pose proof (signal_handler_script_restores_after_actions (boot os_boot) acts s2
                posix_kernel_boot Hall E) as H.
  cbv zeta in H.
  assert (1 ≤ 13 ≤ SIGRTMAX) as R13 by (vm_compute; split; discriminate).
  assert (1 ≤ 10 ≤ SIGRTMAX) as R10 by (vm_compute; split; discriminate).
  assert (13 ∉ essential) as E13 by (intros H'; vm_compute in H'; discriminate H').
  assert (10 ∉ essential) as E10 by (intros H'; vm_compute in H'; discriminate H').
  split.
  - apply (H 13 R13 E13). vm_compute. reflexivity.
  - apply (H 10 R10 E10). vm_compute. discriminate.
Defined.

(** X15: the parent registers a callback for SIGUSR1 and later puts the
    signal back to its default action; the signal is ignored in the child
    after the reset. *)
Lemma parent_installed_signal_ignored_in_child_witness :
  let s2 := run_calls [Do_signal_set 10 SIG_DFL NULLV]
              (signal_set 10 (Fn 1) 100 Example.s_init).2 in
  1 ≤ 10 ≤ SIG_MAX ∧ 10 ≤ SIGRTMAX ∧ active (Fn 1) = true ∧
  ¬ sigaction_fails Example.s_init 10 ∧
  handler_of s2 10 = SIG_DFL ∧
  10 ∈ parent_sig s2 ∧
  disposition (os (signal_handler_child_clear s2)) 10 = ign_action.
Proof.
  intros s2.
  assert (1 ≤ 10 ≤ SIG_MAX) as Hr by (vm_compute; split; discriminate).
  assert (10 ≤ SIGRTMAX) as Hrt by (vm_compute; discriminate).
  assert (¬ sigaction_fails Example.s_init 10) as Hf
    by (intros [H|H]; vm_compute in H; discriminate H).
  split; [exact Hr|]. split; [exact Hrt|]. split; [reflexivity|]. split; [exact Hf|].
  split; [vm_compute; reflexivity|].
  exact (parent_installed_signal_ignored_in_child 10 (Fn 1) 100 Example.s_init
           [Do_signal_set 10 SIG_DFL NULLV] Hr Hrt eq_refl Hf).
Defined.

(** X16: the read end of the pipe of the parent, descriptor 3, is still
    open on that pipe in the child after the reset, and after a second
    initialisation. *)
Lemma pipe_descriptors_never_closed_witness :
  let e := {| fd_obj := PipeRd 0; fd_nonblock := true; fd_cloexec := true |} in
  fd_lookup (os Example.s_reg) 3 = Some e ∧
  (∃ e', fd_lookup (os (signal_handler_init Example.s_reg)) 3 = Some e'
         ∧ fd_obj e' = PipeRd 0) ∧
  (∃ e', fd_lookup (os (signal_handler_child_clear Example.s_reg)) 3 = Some e'
         ∧ fd_obj e' = PipeRd 0) ∧
  signal_rfd (signal_handler_child_clear Example.s_reg) = 5.
Proof.
  intros e.
  assert (fd_lookup (os Example.s_reg) 3 = Some e) as He by (vm_compute; reflexivity).
  split; [exact He|].
  destruct (pipe_descriptors_never_closed Example.s_reg 3 e He) as [A B].
  split; [exact A|]. split; [exact B|]. vm_compute. reflexivity.
Defined.

(** X17: with the three standard descriptors open and a limit of three,
    the child reset logs the failure and leaves [signal_pipe] alone. *)
Lemma signal_handler_child_clear_without_pipe_witness :
  let s := (signal_set 10 (Fn 1) 100 (boot Example.os_full)).2 in
  ¬ fd_room (os s) ∧
  signal_pipe (signal_handler_child_clear s) = (-1, -1) ∧
  trace (signal_handler_child_clear s) = [Log_pipe_bug] ∧
  slot_func s 10 = Fn 1 ∧
  slot_func (signal_handler_child_clear s) 10 = NULL.
Proof.
  intros s.
  assert (¬ fd_room (os s)) as Hroom by (unfold fd_room; vm_compute; lia).
  split; [exact Hroom|].
  pose proof (signal_handler_child_clear_without_pipe s Hroom) as H.
  cbv zeta in H. destruct H as (A & _ & C & D & _).
  split; [rewrite A; vm_compute; reflexivity|].
  split; [rewrite C; vm_compute; reflexivity|].
  split; [vm_compute; reflexivity|].
  apply D. vm_compute. split; discriminate.
Defined.

(** X18: SIGUSR1 is pending in the pipe of the parent at the fork; the
    dispatch of the child after the reset invokes nothing. *)
Lemma signal_handler_child_clear_starts_idle_witness :
  let s := deliver_all [10] Example.s_reg in
  fd_room (os s) ∧ self_pipe s 0 [10] ∧
  signal_run_callback 1 (signal_handler_child_clear s)
    = Some (signal_handler_child_clear s) ∧
  trace (signal_handler_child_clear s) = [].
Proof.
  intros s.
  assert (fd_room (os s)) as Hroom by (unfold fd_room; vm_compute; lia).
  split; [exact Hroom|].
  split; [unfold self_pipe; vm_compute; repeat split; reflexivity|].
  pose proof (signal_handler_child_clear_starts_idle s 0 Hroom) as H.
  cbv zeta in H. destruct H as (A & B & _).
  split; [exact A|]. rewrite B. vm_compute. reflexivity.
Defined.

(** X19: SIGUSR1 is pending when the pipe, on descriptors 3 and 4, is
    closed from descriptor 3 on; it is never dispatched. *)
Lemma signal_pipe_close_drops_pending_witness :
  let s := deliver_all [10] Example.s_reg in
  self_pipe s 0 [10] ∧ (signal_pipe s).1 ≠ 0 ∧ (signal_pipe s).2 ≠ 0 ∧
  3 ≤ (signal_pipe s).1 ∧ 3 ≤ (signal_pipe s).2 ∧
  signal_pipe (signal_pipe_close 3 s) = (3, 4) ∧
  os_pipes (os (signal_pipe_close 3 s)) !! 0%nat = Some [10] ∧
  signal_run_callback 1 (signal_pipe_close 3 s) = Some (signal_pipe_close 3 s) ∧
  trace (signal_handler 15 (signal_pipe_close 3 s)) = [Log_write_bug].
Proof.
  intros s.
  assert (self_pipe s 0 [10]) as Hsp
    by (unfold self_pipe; vm_compute; repeat split; reflexivity).
  assert ((signal_pipe s).1 ≠ 0) as H1 by (vm_compute; discriminate).
  assert ((signal_pipe s).2 ≠ 0) as H2 by (vm_compute; discriminate).
  assert (3 ≤ (signal_pipe s).1) as H3 by (vm_compute; discriminate).
  assert (3 ≤ (signal_pipe s).2) as H4 by (vm_compute; discriminate).
  split; [exact Hsp|]. split; [exact H1|]. split; [exact H2|].
  split; [exact H3|]. split; [exact H4|].
  pose proof (signal_pipe_close_drops_pending s 0 [10] 3 15 0 Hsp H1 H2 H3 H4) as H.
  cbv zeta in H. destruct H as (A & B & C & D).
  split; [rewrite A; vm_compute; reflexivity|].
  split; [exact B|]. split; [exact C|].
  rewrite D. vm_compute. reflexivity.
Defined.

(** X21: a callback for SIGKILL: the call fails and nothing is blocked. *)
Lemma signal_set_failure_unblockable_witness :
  1 ≤ 9 ≤ SIG_MAX ∧ sigaction_fails Example.s_init 9 ∧ ¬ blockable 9 ∧
  (signal_set 9 (Fn 1) 100 Example.s_init).1 = SIG_ERR ∧
  os_mask (os (signal_set 9 (Fn 1) 100 Example.s_init).2) = os_mask (os Example.s_init).
Proof.
  assert (1 ≤ 9 ≤ SIG_MAX) as Hr by (vm_compute; split; discriminate).
  assert (sigaction_fails Example.s_init 9) as Hf by (right; vm_compute; reflexivity).
  assert (¬ blockable 9) as Hb by (intros (_ & H & _); apply H; reflexivity).
  split; [exact Hr|]. split; [exact Hf|]. split; [exact Hb|].
  destruct (signal_set_failure_unblockable 9 (Fn 1) 100 Example.s_init Hr Hf Hb)
    as (A & B & _).
  split; [exact A|exact B].
Defined.
